(** * WIKTAC node agent: a shallow embedding of the watchdog and its properties

    The repository ships the agent twice: [agent/wiktac_agent/wiktac_agent.py]
    (version 0.1.1, module [Agent] below) and
    [image-src/wiktac_agent/wiktac_agent.py] (version 0.1.2, module [Image]),
    which adds the mining failsafe and the [action_log]/[alert] helpers.
    Everything the two files share (the Python values they manipulate, the
    state and allowlist files, [classify]) is embedded once.

    Python values are dynamically typed, and the agent reads them from
    [json.loads], [yaml.safe_load] and [r.json()]: the embedding keeps them
    dynamic, and every operation that Python may refuse returns a [result]. *)

From Stdlib Require Import ZArith String Ascii DecimalString.
From Stdlib Require Import Floats.SpecFloat.
From stdpp Require Import gmap strings list fin_maps.

Set Warnings "-register-all,-clear-no-such-hyp".
Open Scope string_scope.
Open Scope list_scope.
Open Scope Z_scope.

(** ** Python values *)

(** The values of JSON, which are all that [json.loads] and [r.json()]
    build: [None], booleans, integers, floats, strings (byte strings holding
    UTF-8 text), lists, and dicts with string keys.  [yaml.safe_load] builds
    the same values from a file written with these kinds of node; what it
    builds besides (a set from [!!set], a byte string from [!!binary], a date
    from a timestamp, a mapping with keys that are not strings) has no term
    here, so that what is said below of the allowlist file is said of a file
    made of JSON's kinds of value.  A dict is a finite map: nothing below
    depends on the order of its keys. *)
Inductive py : Type :=
  | PNone
  | PBool (b : bool)
  | PInt (n : Z)
  | PFloat (f : spec_float)
  | PStr (s : string)
  | PList (l : list py)
  | PDict (d : gmap string py).

(** The exceptions the agent can meet.  [KeyError] carries the [repr] of the
    key, the others their message; [TransportError] stands for what [httpx]
    raises (connection failures, time-outs, [raise_for_status], a body that
    is not JSON), [ValidationError] for pydantic's.  All of them derive from
    [Exception]. *)
Inductive exn : Type :=
  | KeyError (key_repr : string)
  | IndexError (msg : string)
  | TypeError (msg : string)
  | AttributeError (msg : string)
  | ValueError (msg : string)
  | OSError (msg : string)
  | RuntimeError (msg : string)
  | ValidationError (msg : string)
  | TransportError (msg : string).

(** [str(e)] *)
Definition str_exn (e : exn) : string :=
  match e with
  | KeyError k => k
  | IndexError m | TypeError m | AttributeError m | ValueError m | OSError m
  | RuntimeError m | ValidationError m | TransportError m => m
  end.

Inductive result (A : Type) : Type :=
  | Ok (a : A)
  | Raise (e : exn).
Arguments Ok {A} a.
Arguments Raise {A} e.

Definition rbind {A B} (r : result A) (k : A → result B) : result B :=
  match r with
  | Ok a => k a
  | Raise e => Raise e
  end.

Declare Scope result_scope.
Delimit Scope result_scope with result.
Notation "'let?' x := r 'in' k" := (rbind r (λ x, k))
  (at level 10, x name, r at level 100, k at level 200,
   format "'[' 'let?'  x  :=  r  'in'  '//' k ']'") : result_scope.
Open Scope result_scope.

(** [try: body except Exception: handler] for a body without side effects *)
Definition try_except {A} (body : result A) (handler : exn → result A) : result A :=
  match body with
  | Ok a => Ok a
  | Raise e => handler e
  end.

Fixpoint rmapM {A B} (f : A → result B) (l : list A) : result (list B) :=
  match l with
  | [] => Ok []
  | x :: l' => let? y := f x in let? ys := rmapM f l' in Ok (y :: ys)
  end.

Definition raised {A} (r : result A) : bool :=
  match r with Ok _ => false | Raise _ => true end.

(** ** Strings *)

(** [s.lower()] on ASCII letters.  Python lowers every cased code point; a
    code point outside ASCII lowers to ASCII letters in two cases only
    (U+212A gives k, U+0130 gives i followed by U+0307), and none of the
    words the agent looks for contains a k or ends in i.  So testing those
    words against this [lower] decides as Python does. *)
Definition lower_ascii (a : ascii) : ascii :=
  let n := nat_of_ascii a in
  if ((65 <=? n) && (n <=? 90))%nat then ascii_of_nat (n + 32) else a.

Fixpoint lower (s : string) : string :=
  match s with
  | EmptyString => EmptyString
  | String a s' => String (lower_ascii a) (lower s')
  end.

Fixpoint starts_with (k s : string) : bool :=
  match k, s with
  | EmptyString, _ => true
  | String a k', String b s' => if Ascii.eqb a b then starts_with k' s' else false
  | String _ _, EmptyString => false
  end.

(** [k in s] *)
Fixpoint contains (k s : string) : bool :=
  starts_with k s ||
  match s with
  | EmptyString => false
  | String _ s' => contains k s'
  end.

(** A byte that continues a UTF-8 character *)
Definition continuation (a : ascii) : bool :=
  let n := nat_of_ascii a in ((128 <=? n) && (n <? 192))%nat.

(** The characters of a string, as Python iterates over them *)
Fixpoint chars (s : string) : list string :=
  match s with
  | EmptyString => []
  | String a s' =>
      let cs := chars s' in
      match s', cs with
      | String b _, c :: cs' =>
          if continuation b then String a c :: cs' else String a EmptyString :: cs
      | _, _ => String a EmptyString :: cs
      end
  end.

(** [str(n)] for an integer *)
Definition str_int (n : Z) : string := NilZero.string_of_int (Z.to_int n).

(** ** Operations on values *)

Definition type_name (v : py) : string :=
  match v with
  | PNone => "NoneType" | PBool _ => "bool" | PInt _ => "int"
  | PFloat _ => "float" | PStr _ => "str" | PList _ => "list"
  | PDict _ => "dict"
  end.

Definition no_attribute (v : py) (attr : string) : exn :=
  AttributeError ("'" +:+ type_name v +:+ "' object has no attribute '" +:+ attr +:+ "'").

Definition not_subscriptable (v : py) : exn :=
  TypeError ("'" +:+ type_name v +:+ "' object is not subscriptable").

(** [bool(v)] *)
Definition truthy (v : py) : bool :=
  match v with
  | PNone => false
  | PBool b => b
  | PInt n => negb (n =? 0)
  | PFloat (S754_zero _) => false
  | PFloat _ => true
  | PStr EmptyString => false
  | PStr _ => true
  | PList [] => false
  | PList _ => true
  | PDict d => match map_to_list d with [] => false | _ => true end
  end.

(** [a or b] *)
Definition por (a b : py) : py := if truthy a then a else b.

(** [v.get(k)] *)
Definition py_get (v : py) (k : string) : result py :=
  match v with
  | PDict d => Ok (default PNone (d !! k))
  | _ => Raise (no_attribute v "get")
  end.

(** [v[k]] for a string [k] *)
Definition py_getitem (v : py) (k : string) : result py :=
  match v with
  | PDict d =>
      match d !! k with
      | Some x => Ok x
      | None => Raise (KeyError ("'" +:+ k +:+ "'"))
      end
  | PList _ => Raise (TypeError "list indices must be integers or slices, not str")
  | PStr _ => Raise (TypeError "string indices must be integers, not 'str'")
  | _ => Raise (not_subscriptable v)
  end.

(** [v[0]]; the keys of a dict are strings, so [0] is never one of them *)
Definition py_first (v : py) : result py :=
  match v with
  | PList (x :: _) => Ok x
  | PList [] => Raise (IndexError "list index out of range")
  | PStr s =>
      match chars s with
      | c :: _ => Ok (PStr c)
      | [] => Raise (IndexError "string index out of range")
      end
  | PDict _ => Raise (KeyError "0")
  | _ => Raise (not_subscriptable v)
  end.

(** [v.lower()] *)
Definition py_lower (v : py) : result string :=
  match v with
  | PStr s => Ok (lower s)
  | _ => Raise (no_attribute v "lower")
  end.

(** [for x in v] *)
Definition py_iter (v : py) : result (list py) :=
  match v with
  | PList l => Ok l
  | PStr s => Ok (PStr <$> chars s)
  | PDict d => Ok ((λ kv, PStr kv.1) <$> map_to_list d)
  | _ => Raise (TypeError ("'" +:+ type_name v +:+ "' object is not iterable"))
  end.

(** [l[-n:]] *)
Definition last_n {A} (n : nat) (l : list A) : list A :=
  drop (length l - n) l.

(** [{k1: v1, ...}] *)
Definition dict_of (l : list (string * py)) : py := PDict (list_to_map l).

(** ** The two files under /data *)

(** A file is modelled by what reading it yields: nothing at the path, a text
    that the decoder or the parser refuses, or the document that the text
    denotes.  Writing a document and reading it back yields that document:
    the file is storage. *)
Inductive file : Type :=
  | Absent
  | Garbled
  | Holds (doc : py).

Record files : Type := {
  allowlist_file : file;   (* ALLOWLIST_PATH *)
  state_file : file        (* STATE_PATH *)
}.

(** [path.exists()] *)
Definition file_exists (f : file) : bool :=
  match f with Absent => false | _ => true end.

(** [json.loads(path.read_text("utf-8"))] and
    [yaml.safe_load(path.read_text("utf-8"))]: the missing file is an
    [OSError], the text that cannot be decoded or parsed a [ValueError] *)
Definition parse (f : file) : result py :=
  match f with
  | Absent => Raise (OSError "No such file or directory")
  | Garbled => Raise (ValueError "the text cannot be decoded or parsed")
  | Holds doc => Ok doc
  end.

(** [{"last_run": None, "intel": {}, "actions": [], "alerts": []}] *)
Definition fresh_state : py :=
  dict_of [("last_run", PNone); ("intel", PDict ∅);
           ("actions", PList []); ("alerts", PList [])].

Definition load_state (f : file) : result py :=
  if negb (file_exists f) then Ok fresh_state
  else try_except (parse f) (λ _, Ok fresh_state).

(** [save_state] rewrites the whole file *)
Definition save_state (state : py) (fs : files) : files :=
  {| allowlist_file := allowlist_file fs; state_file := Holds state |}.






Definition is_list (o : option py) : bool :=
  match o with Some (PList _) => true | _ => false end.

Definition is_dict (o : option py) : bool :=
  match o with Some (PDict _) => true | _ => false end.

(** A document shaped like the state: a dict with a [last_run], a dict under
    [intel], and lists under [actions] and [alerts]. *)
Definition state_shaped (v : py) : bool :=
  match v with
  | PDict d =>
      bool_decide (is_Some (d !! "last_run")) && is_dict (d !! "intel")
      && is_list (d !! "actions") && is_list (d !! "alerts")
  | _ => false
  end.

(** ** The allowlist *)

(** [class Allowlist(BaseModel)]: three fields of type [Dict[str, List[str]]] *)
Record Allowlist : Type := {
  btc : gmap string (list string);
  bch : gmap string (list string);
  dgb : gmap string (list string)
}.

(** The [default_factory] of each field *)
Definition no_addresses : gmap string (list string) :=
  {[ "allowed_addresses" := [] ]}.

(** [Allowlist()] *)
Definition Allowlist_default : Allowlist :=
  {| btc := no_addresses; bch := no_addresses; dgb := no_addresses |}.

(** [a.model_dump()] *)
Definition dump_addresses (l : list string) : py := PList (PStr <$> l).
Definition dump_entry (m : gmap string (list string)) : py :=
  PDict (dump_addresses <$> m).
Definition model_dump (a : Allowlist) : py :=
  dict_of [("btc", dump_entry (btc a)); ("bch", dump_entry (bch a));
           ("dgb", dump_entry (dgb a))].

(** [Allowlist.model_validate(data)], after pydantic's conversion table for
    the values at hand: a field accepts a dict whose values are lists of
    strings, nothing is coerced into a string or a list, a field that is
    missing takes its default, and keys that are not fields are ignored. *)
Definition as_str (v : py) : option string :=
  match v with PStr s => Some s | _ => None end.

Definition as_str_list (v : py) : option (list string) :=
  match v with PList l => mapM as_str l | _ => None end.

Definition as_entry (v : py) : option (gmap string (list string)) :=
  match v with
  | PDict d =>
      if decide (map_Forall (λ _ x, is_Some (as_str_list x)) d)
      then Some (omap as_str_list d) else None
  | _ => None
  end.

Definition field (d : gmap string py) (name : string)
  : result (gmap string (list string)) :=
  match d !! name with
  | None => Ok no_addresses
  | Some v =>
      match as_entry v with
      | Some m => Ok m
      | None => Raise (ValidationError name)
      end
  end.

Definition model_validate (data : py) : result Allowlist :=
  match data with
  | PDict d =>
      let? x := field d "btc" in
      let? y := field d "bch" in
      let? z := field d "dgb" in
      Ok {| btc := x; bch := y; dgb := z |}
  | _ => Raise (ValidationError "Input should be a valid dictionary")
  end.

Definition load_allowlist (f : file) : result Allowlist :=
  if negb (file_exists f) then Ok Allowlist_default
  else try_except
         (let? data := parse f in model_validate (por data (PDict ∅)))
         (λ _, Ok Allowlist_default).

(** [save_allowlist] rewrites the whole file with the dump *)
Definition save_allowlist (a : Allowlist) (fs : files) : files :=
  {| allowlist_file := Holds (model_dump a); state_file := state_file fs |}.

(** [m.get("allowed_addresses")] taken as a condition: [None] and the empty
    list are both false *)
Definition some_address (m : gmap string (list string)) : bool :=
  match m !! "allowed_addresses" with
  | Some (_ :: _) => true
  | _ => false
  end.

Definition has_allowlist (a : Allowlist) : bool :=
  some_address (btc a) || some_address (bch a) || some_address (dgb a).


(** ** Classifying containers *)

(** [d.get(k)] for the dict of roles, whose entries are kept in the order of
    the dict display *)
Definition role (roles : list (string * py)) (k : string) : py :=
  default PNone ((list_to_map roles : gmap string py) !! k).

(** [(c.get("Names") or [""])[0].lower()] *)
Definition name_of (c : py) : result string :=
  let? names := py_get c "Names" in
  let? first := py_first (por names (PList [PStr ""])) in
  py_lower first.

(** [(c.get("Image") or "").lower()] *)
Definition image_of (c : py) : result string :=
  let? image := py_get c "Image" in
  py_lower (por image (PStr "")).

(** [any(k in s for k in keys)] *)
Definition any_in (keys : list string) (s : string) : bool :=
  existsb (λ k, contains k s) keys.

(** The loop of [pick] over the containers *)
Fixpoint scan (keys : list string) (containers : list py) : result py :=
  match containers with
  | [] => Ok PNone
  | c :: rest =>
      let? name := name_of c in
      let? img := image_of c in
      if any_in keys name || any_in keys img then Ok c else scan keys rest
  end.

Definition pick (containers : py) (keys : list string) : result py :=
  let? cs := py_iter containers in scan keys cs.

Definition btc_keys : list string := ["bitcoin"; "bitcoind"; "bitcoin-node"].
Definition bch_keys : list string := ["bch"; "bitcoincash"; "bitcoin-cash"; "bchn"].
Definition dgb_keys : list string := ["digibyte"; "dgb"].
Definition miningcore_keys : list string := ["miningcore"].

Definition classify (containers : py) : result (list (string * py)) :=
  let? b := pick containers btc_keys in
  let? c := pick containers bch_keys in
  let? d := pick containers dgb_keys in
  let? m := pick containers miningcore_keys in
  Ok [("btc", b); ("bch", c); ("dgb", d); ("miningcore", m)].

(** One entry of the [intel["containers"]] comprehension *)
Definition summary (c : py) : result py :=
  let? i := py_get c "Id" in
  let? n := py_get c "Names" in
  let? g := py_get c "Image" in
  let? s := py_get c "State" in
  let? t := py_get c "Status" in
  Ok (dict_of [("id", i); ("names", n); ("image", g); ("state", s); ("status", t)]).

Definition snapshot (containers : py) : result py :=
  let? cs := py_iter containers in
  let? l := rmapM summary cs in
  Ok (PList l).

(** One entry of the [intel["roles"]] comprehension:
    [{"id": (v or {}).get("Id"), "name": ((v or {}).get("Names") or [None])[0]}] *)
Definition role_entry (v : py) : result py :=
  let? i := py_get (por v (PDict ∅)) "Id" in
  let? n := py_get (por v (PDict ∅)) "Names" in
  let? f := py_first (por n (PList [PNone])) in
  Ok (dict_of [("id", i); ("name", f)]).

Definition roles_doc (roles : list (string * py)) : result py :=
  let? l := rmapM (λ kv, let? e := role_entry kv.2 in Ok (kv.1, e)) roles in
  Ok (dict_of l).

(** [(c.get("State") or "").lower()] *)
Definition state_of (c : py) : result string :=
  let? s := py_get c "State" in
  py_lower (por s (PStr "")).

(** [st in ("exited", "dead")] *)
Definition down (st : string) : bool :=
  String.eqb st "exited" || String.eqb st "dead".

(** ** The settings read from the process environment *)

(** The module reads its flags once, when it is imported.  [TICK_SECONDS]
    and [DOCKER_PROXY_URL] only tell how long the loop sleeps and where the
    proxy is, which the world of a tick accounts for.  [lower] folds the
    letters A to Z only; the comparison with the word true comes out as with
    Python's [str.lower], since no character outside ASCII lowers to one of
    the letters t, r, u, e. *)
Module Settings.

(** [os.getenv(name, fallback)] *)
Definition getenv (environ : gmap string string) (name fallback : string) : string :=
  default fallback (environ !! name).

(** [os.getenv("ARMED_MODE", "false").lower() == "true"] *)
Definition ARMED_MODE (environ : gmap string string) : bool :=
  String.eqb (lower (getenv environ "ARMED_MODE" "false")) "true".

(** [os.getenv("FAILSAFE_STOP_MINING", "true").lower() == "true"], in 0.1.2 *)
Definition FAILSAFE_STOP_MINING (environ : gmap string string) : bool :=
  String.eqb (lower (getenv environ "FAILSAFE_STOP_MINING" "true")) "true".

End Settings.

(** ** The world of a tick *)

(** What the Docker proxy answers to a restart request *)
Inductive http_reply : Type :=
  | Unreachable (msg : string)
  | Response (status_code : Z) (text : string).

(** Everything a tick reads from outside the two files: the flags taken from
    the process environment when the module is imported, the clock, and the
    proxy.  [restart_reply n id] answers the request for [id] sent when [n]
    events are already in the trace. *)
Record env : Type := {
  ARMED_MODE : bool;
  FAILSAFE_STOP_MINING : bool;
  time_at : nat → Z;
  containers_reply : result py;
  restart_reply : nat → py → http_reply
}.

Inductive path : Type := ALLOWLIST_PATH | STATE_PATH.

(** What a tick does, in order: its requests to the proxy (with whether they
    came back without an error), the exceptions that reach its [except]
    clause, and its writes.  A restart request carries only the id; the role
    it was sent for is recorded beside it. *)
Inductive event : Type :=
  | Listed (ok : bool)
  | Restarted (role : string) (container_id : py) (ok : bool)
  | Caught (e : exn)
  | Wrote (p : path) (doc : py).

(** [state] is the object bound to the local variable [state] ([st] in
    [api_set_allowlist]); it is [None] until [load_state] is called. *)
Record store : Type := {
  disk : files;
  state : py;
  trace : list event;
  clock : nat
}.

Definition start (fs : files) : store :=
  {| disk := fs; state := PNone; trace := []; clock := 0 |}.

Definition with_state (s : py) (σ : store) : store :=
  {| disk := disk σ; state := s; trace := trace σ; clock := clock σ |}.

Definition log (ev : event) (σ : store) : store :=
  {| disk := disk σ; state := state σ; trace := trace σ ++ [ev]; clock := clock σ |}.

(** A statement: it reads the world, changes the store, and returns or
    raises.  What it changed before raising stays changed. *)
Definition M (A : Type) : Type := env → store → result A * store.

Definition ret {A} (a : A) : M A := λ _ σ, (Ok a, σ).

Definition bind {A B} (m : M A) (k : A → M B) : M B := λ E σ,
  match m E σ with
  | (Ok a, σ') => k a E σ'
  | (Raise e, σ') => (Raise e, σ')
  end.

Declare Scope stmt_scope.
Delimit Scope stmt_scope with stmt.
Bind Scope stmt_scope with M.
Notation "x <- m ;; k" := (bind m (λ x, k))
  (at level 20, m at level 99, k at level 200, only parsing) : stmt_scope.
Notation "m ;; k" := (bind m (λ _, k))
  (at level 100, k at level 200, only parsing, right associativity) : stmt_scope.
Open Scope stmt_scope.

(** An expression without effect, evaluated in a statement *)
Definition lift {A} (r : result A) : M A := λ _ σ, (r, σ).

(** Reading a global of the module *)
Definition ask {A} (f : env → A) : M A := λ E σ, (Ok (f E), σ).

(** [try: body except Exception as e: handler(e)] *)
Definition try_catch {A} (body : M A) (handler : exn → M A) : M A := λ E σ,
  match body E σ with
  | (Ok a, σ') => (Ok a, σ')
  | (Raise e, σ') => handler e E (log (Caught e) σ')
  end.

(** [for k in ks: body(k)] *)
Fixpoint for_each {A} (ks : list A) (body : A → M unit) : M unit :=
  match ks with
  | [] => ret tt
  | k :: ks' => body k ;; for_each ks' body
  end.

Definition tick_clock (σ : store) : store :=
  {| disk := disk σ; state := state σ; trace := trace σ; clock := S (clock σ) |}.

(** [int(time.time())] *)
Definition now : M Z := λ E σ, (Ok (time_at E (clock σ)), tick_clock σ).

(** [state = load_state()] *)
Definition read_state : M unit := λ _ σ,
  match load_state (state_file (disk σ)) with
  | Ok s => (Ok tt, with_state s σ)
  | Raise e => (Raise e, σ)
  end.

(** [a = load_allowlist()] *)
Definition read_allowlist : M Allowlist := λ _ σ,
  (load_allowlist (allowlist_file (disk σ)), σ).

(** [save_state(state)] *)
Definition write_state : M unit := λ _ σ,
  (Ok tt,
   {| disk := save_state (state σ) (disk σ); state := state σ;
      trace := trace σ ++ [Wrote STATE_PATH (state σ)]; clock := clock σ |}).

(** [save_allowlist(a)] *)
Definition write_allowlist (a : Allowlist) : M unit := λ _ σ,
  (Ok tt,
   {| disk := save_allowlist a (disk σ); state := state σ;
      trace := trace σ ++ [Wrote ALLOWLIST_PATH (model_dump a)]; clock := clock σ |}).

(** [v[k] = x], giving the container after the assignment *)
Definition py_setitem (v : py) (k : string) (x : py) : result py :=
  match v with
  | PDict d => Ok (PDict (<[k := x]> d))
  | PList _ => Raise (TypeError "list indices must be integers or slices, not str")
  | _ => Raise (TypeError ("'" +:+ type_name v +:+ "' object does not support item assignment"))
  end.

(** [v[-n:]] *)
Definition py_tail (n : nat) (v : py) : result py :=
  match v with
  | PList l => Ok (PList (last_n n l))
  | PStr s => Ok (PStr (String.concat "" (last_n n (chars s))))
  | PDict _ => Raise (TypeError "unhashable type: 'slice'")
  | _ => Raise (not_subscriptable v)
  end.

(** A statement that only changes the state object *)
Definition update (f : py → result py) : M unit := λ _ σ,
  match f (state σ) with
  | Ok s => (Ok tt, with_state s σ)
  | Raise e => (Raise e, σ)
  end.

(** [state[key] = x] *)
Definition assign (key : string) (x : py) : M unit :=
  update (λ s, py_setitem s key x).

(** [state["intel"][key] = x], once [x] is evaluated: the object under
    ["intel"] is changed in place, so the state holds the changed object. *)
Definition intel_set (key : string) (x : py) (s : py) : result py :=
  let? intel := py_getitem s "intel" in
  let? intel' := py_setitem intel key x in
  py_setitem s "intel" intel'.

Definition set_intel (key : string) (x : py) : M unit :=
  update (intel_set key x).

(** [state.setdefault(key, [])] *)
Definition setdefault (key : string) : M unit :=
  update (λ s,
    match s with
    | PDict d => Ok (PDict (match d !! key with Some _ => d | None => <[key := PList []]> d end))
    | _ => Raise (no_attribute s "setdefault")
    end).

(** [state[key].append], looked up before the argument of the call is
    evaluated: it gives the list to which the item will be appended *)
Definition appendable (key : string) : M (list py) := λ _ σ,
  (let? v := py_getitem (state σ) key in
   match v with
   | PList l => Ok l
   | _ => Raise (no_attribute v "append")
   end, σ).

(** [state[key] = state[key][-200:]] *)
Definition keep_last_200 (key : string) : M unit :=
  update (λ s,
    let? v := py_getitem s key in
    let? t := py_tail 200 v in
    py_setitem s key t).

(** The request [POST /containers/{id}/restart] and the check of its status;
    [failure] is the beginning of the message of the error. *)
Definition restart_request (failure role : string) (container_id : py) : M unit := λ E σ,
  match restart_reply E (length (trace σ)) container_id with
  | Unreachable msg =>
      (Raise (TransportError msg), log (Restarted role container_id false) σ)
  | Response status_code text =>
      if (status_code =? 204) || (status_code =? 304)
      then (Ok tt, log (Restarted role container_id true) σ)
      else (Raise (RuntimeError (failure +:+ str_int status_code +:+ " " +:+ text)),
            log (Restarted role container_id false) σ)
  end.

(** [docker_list_containers()] in 0.1.2 and [docker_list()] in 0.1.1 *)
Definition list_request : M py := λ E σ,
  match containers_reply E with
  | Ok v => (Ok v, log (Listed true) σ)
  | Raise e => (Raise e, log (Listed false) σ)
  end.

Definition role_names : list string := ["btc"; "bch"; "dgb"; "miningcore"].

(** ** Version 0.1.1: agent/wiktac_agent/wiktac_agent.py *)
Module Agent.

Definition docker_list : M py := list_request.

Definition docker_restart (role : string) (container_id : py) : M unit :=
  restart_request "restart failed: " role container_id.

Definition push (key : string) (item : py) : M unit :=
  setdefault key ;;
  l <- appendable key ;;
  assign key (PList (l ++ [item])) ;;
  keep_last_200 key.

(** The body of [for k in ("btc","bch","dgb","miningcore")] *)
Definition loop_body (roles : list (string * py)) (k : string) : M unit :=
  let v := role roles k in
  if negb (truthy v) then ret tt
  else
    st <- lift (state_of v) ;;
    if down st then
      id <- lift (py_getitem v "Id") ;;
      docker_restart k id ;;
      ts <- now ;;
      push "actions" (dict_of [("ts", PInt ts); ("kind", PStr "restart"); ("role", PStr k)])
    else ret tt.

Definition try_suite : M unit :=
  containers <- docker_list ;;
  snap <- lift (snapshot containers) ;;
  set_intel "containers" snap ;;
  roles <- lift (classify containers) ;;
  doc <- lift (roles_doc roles) ;;
  set_intel "roles" doc ;;
  armed <- ask ARMED_MODE ;;
  (if armed then for_each role_names (loop_body roles) else ret tt) ;;
  ts <- now ;;
  assign "last_run" (PInt ts).

Definition handler (e : exn) : M unit :=
  ts <- now ;;
  push "alerts" (dict_of [("ts", PInt ts); ("level", PStr "error"); ("msg", PStr (str_exn e))]).

Definition tick : M unit :=
  read_state ;;
  try_catch try_suite handler ;;
  write_state.

(** POST /api/allowlist *)
Definition api_set_allowlist (payload : py) : M py :=
  a <- lift (model_validate payload) ;;
  write_allowlist a ;;
  ret (dict_of [("ok", PBool true)]).

End Agent.

(** ** Version 0.1.2: image-src/wiktac_agent/wiktac_agent.py *)
Module Image.

Definition docker_list_containers : M py := list_request.

Definition docker_restart (role : string) (container_id : py) : M unit :=
  restart_request "Restart failed: " role container_id.

(** [{"ts": int(time.time()), "kind": kind, "details": details}] *)
Definition action_entry (ts : Z) (kind : string) (details : py) : py :=
  dict_of [("ts", PInt ts); ("kind", PStr kind); ("details", details)].

Definition action_log (kind : string) (details : py) : M unit :=
  setdefault "actions" ;;
  l <- appendable "actions" ;;
  ts <- now ;;
  assign "actions" (PList (l ++ [action_entry ts kind details])) ;;
  keep_last_200 "actions".

(** [{"ts": int(time.time()), "level": level, "msg": msg, "meta": meta or {}}];
    [meta] is [PNone] when the argument is left out *)
Definition alert_entry (ts : Z) (level msg : string) (meta : py) : py :=
  dict_of [("ts", PInt ts); ("level", PStr level); ("msg", PStr msg);
           ("meta", por meta (PDict ∅))].

Definition alert (level msg : string) (meta : py) : M unit :=
  setdefault "alerts" ;;
  l <- appendable "alerts" ;;
  ts <- now ;;
  assign "alerts" (PList (l ++ [alert_entry ts level msg meta])) ;;
  keep_last_200 "alerts".

Definition failsafe_msg : string :=
  "MiningCore present but allowlist not set. Failsafe posture active.".

(** The body of [for k in ("btc","bch","dgb","miningcore")] *)
Definition loop_body (a : Allowlist) (roles : list (string * py)) (k : string) : M unit :=
  let c := role roles k in
  if negb (truthy c) then ret tt
  else
    st <- lift (state_of c) ;;
    if down st then
      failsafe <- ask FAILSAFE_STOP_MINING ;;
      if String.eqb k "miningcore" && failsafe && negb (has_allowlist a)
      then alert "critical" failsafe_msg (dict_of [("role", PStr k)])
      else
        id <- lift (py_getitem c "Id") ;;
        docker_restart k id ;;
        id' <- lift (py_get c "Id") ;;
        action_log "restart" (dict_of [("role", PStr k); ("id", id')])
    else ret tt.

Definition try_suite (a : Allowlist) : M unit :=
  containers <- docker_list_containers ;;
  snap <- lift (snapshot containers) ;;
  set_intel "containers" snap ;;
  roles <- lift (classify containers) ;;
  doc <- lift (roles_doc roles) ;;
  set_intel "roles" doc ;;
  armed <- ask ARMED_MODE ;;
  (if armed then for_each role_names (loop_body a roles) else ret tt) ;;
  ts <- now ;;
  assign "last_run" (PInt ts).

Definition handler (e : exn) : M unit :=
  alert "error" "Agent tick failed." (dict_of [("error", PStr (str_exn e))]).

Definition agent_tick : M unit :=
  read_state ;;
  a <- read_allowlist ;;
  try_catch (try_suite a) handler ;;
  write_state.

(** [len(m.get("allowed_addresses", []))] *)
Definition count (m : gmap string (list string)) : py :=
  PInt (Z.of_nat (length (default [] (m !! "allowed_addresses")))).

(** POST /api/allowlist *)
Definition api_set_allowlist (payload : py) : M py :=
  a <- lift (model_validate payload) ;;
  write_allowlist a ;;
  read_state ;;
  action_log "allowlist_set"
    (dict_of [("btc", count (btc a)); ("bch", count (bch a)); ("dgb", count (dgb a))]) ;;
  write_state ;;
  ret (dict_of [("ok", PBool true)]).

End Image.

(** ** The loop of ticks *)

(** How far the loop got: the exception that ended it, if one did, the files
    as they are, and the trace of each tick that ran *)
Record history : Type := {
  ended : option exn;
  files_left : files;
  ticks : list (list event)
}.

(** [while True: await tick(); await asyncio.sleep(TICK_SECONDS)], for the
    rounds whose worlds are given: a round finds the files as the round
    before left them, and the rest of the world (the clock, the proxy) as its
    own [env] tells.  Each tick binds [state] anew.  An exception that leaves
    a tick leaves the loop, and the task ends.  Requests to the API served
    between two rounds are not part of this model. *)
Fixpoint rounds (tick : M unit) (worlds : list env) (fs : files) : history :=
  match worlds with
  | [] => {| ended := None; files_left := fs; ticks := [] |}
  | E :: rest =>
      let out := tick E (start fs) in
      match out.1 with
      | Ok _ =>
          let h := rounds tick rest (disk out.2) in
          {| ended := ended h; files_left := files_left h;
             ticks := trace out.2 :: ticks h |}
      | Raise e =>
          {| ended := Some e; files_left := disk out.2; ticks := [trace out.2] |}
      end
  end.

(** [loop] of 0.1.1 and [loop_task] of 0.1.2 *)
Definition loop : list env → files → history := rounds Agent.tick.
Definition loop_task : list env → files → history := rounds Image.agent_tick.

(** ** Notions used to state the properties *)

(** *** Looking into a state *)

Definition entry (s : py) (k : string) : option py :=
  match s with PDict d => d !! k | _ => None end.

Definition is_PDict (s : py) : bool :=
  match s with PDict _ => true | _ => false end.

(** The list under [key], empty when there is none *)
Definition list_at (s : py) (key : string) : list py :=
  match entry s key with Some (PList l) => l | _ => [] end.

(** The list under ["alerts"], empty when there is none *)
Definition alerts (s : py) : list py :=
  match entry s "alerts" with Some (PList l) => l | _ => [] end.

Definition tracked : list string := ["last_run"; "intel"; "actions"; "alerts"].

(** [s'] is [s] except under [keys] *)
Definition outside (keys : list string) (s s' : py) : Prop :=
  is_PDict s' = is_PDict s ∧ ∀ k, k ∉ keys → entry s' k = entry s k.

(** The state is a dict whose entry under [key] is missing or a list: what
    a log helper needs to append under [key] *)
Definition appendable_at (key : string) (s : py) : bool :=
  is_PDict s && match entry s key with None | Some (PList _) => true | _ => false end.

(** *** What a log helper does *)

(** What the three statements of a log helper do to the state *)
Definition appended (key : string) (item : py) (s : py) : result py :=
  match s with
  | PDict d =>
      match d !! key with
      | None => Ok (PDict (<[key := PList (last_n 200 [item])]> d))
      | Some (PList l) => Ok (PDict (<[key := PList (last_n 200 (l ++ [item]))]> d))
      | Some v => Raise (no_attribute v "append")
      end
  | _ => Raise (no_attribute s "setdefault")
  end.

Definition critical (ts : Z) : py :=
  Image.alert_entry ts "critical" Image.failsafe_msg (dict_of [("role", PStr "miningcore")]).

(** The log helpers of both versions *)
Inductive log_op : Type :=
  | Push (key : string) (item : py)
  | ActionLog (kind : string) (details : py)
  | Alert (level msg : string) (meta : py).

Definition run_op (op : log_op) : M unit :=
  match op with
  | Push key item => Agent.push key item
  | ActionLog kind details => Image.action_log kind details
  | Alert level msg meta => Image.alert level msg meta
  end.

Definition op_key (op : log_op) : string :=
  match op with
  | Push key _ => key
  | ActionLog _ _ => "actions"
  | Alert _ _ _ => "alerts"
  end.

(** The entry that the helper appends when the clock shows [ts] *)
Definition op_item (op : log_op) (ts : Z) : py :=
  match op with
  | Push _ item => item
  | ActionLog kind details => Image.action_entry ts kind details
  | Alert level msg meta => Image.alert_entry ts level msg meta
  end.

Definition short (o : option py) : bool :=
  match o with
  | None => true
  | Some (PList l) => (length l <=? 200)%nat
  | Some _ => false
  end.

(** A state whose two logs, where present, are lists of at most 200 entries *)
Definition fits (s : py) : bool :=
  is_PDict s && short (entry s "actions") && short (entry s "alerts").

(** [s'] is [s] after [op]: under the key of [op], the most recent 200 of the
    old entries followed by the new one; elsewhere, what was there *)
Definition capped_append (op : log_op) (s s' : py) : Prop :=
  (∃ ts, entry s' (op_key op) =
         Some (PList (last_n 200 (list_at s (op_key op) ++ [op_item op ts])))) ∧
  ∀ k, k ≠ op_key op → entry s' k = entry s k.

(** What the helper [op] does to the state [s], giving the result [r] and
    the state [s']: when [s] is a dict whose entry under the key of [op] is
    missing or a list, it returns, leaves the most recent 200 entries under
    its key and nothing else changed, so that the list under its key is
    short and every entry that was short still is; otherwise it raises and
    [s] is as it was. *)
Definition append_outcome (op : log_op) (s : py) (r : result unit) (s' : py) : Prop :=
  if appendable_at (op_key op) s
  then r = Ok tt ∧ capped_append op s s' ∧
       ∀ k, k = op_key op ∨ short (entry s k) = true → short (entry s' k) = true
  else (∃ msg, r = Raise (AttributeError msg)) ∧ s' = s.

(** [P] holds of every operation of the sequence, each run from the store
    that the one before left, whether that one returned or raised *)
Fixpoint each_append (P : log_op → py → result unit → py → Prop) (ops : list log_op)
    (E : env) (σ : store) : Prop :=
  match ops with
  | [] => True
  | op :: ops' =>
      let out := run_op op E σ in
      P op (state σ) out.1 (state out.2) ∧ each_append P ops' E out.2
  end.

(** *** The trace of a tick *)

Definition succeeded (ev : event) : Prop :=
  match ev with
  | Listed ok | Restarted _ _ ok => ok = true
  | _ => False
  end.

Definition failed (ev : event) : Prop :=
  match ev with
  | Listed ok | Restarted _ _ ok => ok = false
  | _ => False
  end.

Definition is_write (ev : event) : bool :=
  match ev with Wrote _ _ => true | _ => false end.

Definition is_restart (ev : event) : bool :=
  match ev with Restarted _ _ _ => true | _ => false end.

(** The requests of a run and its result: either every request came back
    without an error, or the last one did not and the run raised. *)
Inductive requests_of {A} : result A → list event → Prop :=
  | all_fine r new : Forall succeeded new → requests_of r new
  | last_failed e pre ev :
      Forall succeeded pre → failed ev → requests_of (Raise e) (pre ++ [ev]).

(** *** The restart policy *)

(** The loop may restart the container of role [k] *)
Definition restartable (roles : list (string * py)) (k : string) (id : py) : Prop :=
  truthy (role roles k) = true ∧
  py_getitem (role roles k) "Id" = Ok id ∧
  ∃ st, state_of (role roles k) = Ok st ∧ down st = true.

(** The failsafe of 0.1.2 applies to role [k] *)
Definition failsafe (E : env) (a : Allowlist) (k : string) : bool :=
  String.eqb k "miningcore" && FAILSAFE_STOP_MINING E && negb (has_allowlist a).

Definition restart_of (P : string → py → Prop) (ev : event) : Prop :=
  match ev with
  | Restarted k id _ => P k id
  | Listed _ => False
  | _ => False
  end.

(** A restart request that the policy allows: the agent is armed, and the id
    is that of the container classified under the role, which is down;
    [guard] is what the version adds for the role. *)
Definition justified (guard : string → bool) (E : env) (ev : event) : Prop :=
  match ev with
  | Restarted k id _ =>
      ARMED_MODE E = true ∧
      ∃ containers roles,
        containers_reply E = Ok containers ∧ classify containers = Ok roles ∧
        k ∈ role_names ∧ restartable roles k id ∧ guard k = true
  | _ => True
  end.

(** A restart request that the policy allows, whatever the version *)
Definition restart_justified (E : env) (ev : event) : Prop :=
  match ev with
  | Restarted k id _ =>
      ARMED_MODE E = true ∧
      ∃ containers roles st,
        containers_reply E = Ok containers ∧ classify containers = Ok roles ∧
        k ∈ role_names ∧ truthy (role roles k) = true ∧
        py_getitem (role roles k) "Id" = Ok id ∧
        state_of (role roles k) = Ok st ∧ down st = true
  | _ => True
  end.

(** *** The shape of a tick *)

(** The [try] suite of both versions, up to the loop over the roles *)
Definition suite (loop : list (string * py) → M unit) : M unit :=
  containers <- list_request ;;
  snap <- lift (snapshot containers) ;;
  set_intel "containers" snap ;;
  roles <- lift (classify containers) ;;
  doc <- lift (roles_doc roles) ;;
  set_intel "roles" doc ;;
  armed <- ask ARMED_MODE ;;
  (if armed then loop roles else ret tt) ;;
  ts <- now ;;
  assign "last_run" (PInt ts).

(** The ticks of both versions, after the state is loaded *)
Definition protected (body : M unit) (handler : exn → M unit) : M unit :=
  try_catch body handler ;; write_state.

(** The store after [save_state(state)] *)
Definition written (σ : store) : store :=
  {| disk := save_state (state σ) (disk σ); state := state σ;
     trace := trace σ ++ [Wrote STATE_PATH (state σ)]; clock := clock σ |}.

(** A handler that appends one entry of level "error" under "alerts" *)
Definition error_handler (handler : exn → M unit) : Prop :=
  ∀ e E σ, ∃ item,
    entry item "level" = Some (PStr "error") ∧
    match appended "alerts" item (state σ) with
    | Ok s' => ∃ c, handler e E σ =
        (Ok tt, {| disk := disk σ; state := s'; trace := trace σ; clock := c |})
    | Raise e' => ∃ c, handler e E σ =
        (Raise e', {| disk := disk σ; state := state σ; trace := trace σ; clock := c |})
    end.

(** What the loop over the roles does, when [guard k] tells whether the
    version lets role [k] be restarted *)
Definition loop_ok (guard : string → bool) (roles : list (string * py))
    (σ : store) (r : result unit) (σ' : store) : Prop :=
  disk σ' = disk σ ∧
  outside ["actions"; "alerts"] (state σ) (state σ') ∧
  ∃ new, trace σ' = trace σ ++ new ∧
    Forall (restart_of (λ k id, k ∈ role_names ∧ restartable roles k id ∧ guard k = true)) new ∧
    requests_of r new ∧
    (entry (state σ') "alerts" = entry (state σ) "alerts" ∨
     (Forall succeeded new ∧ is_PDict (state σ') = true ∧
      ∃ item, entry (state σ') "alerts" =
              Some (PList (last_n 200 (alerts (state σ) ++ [item]))))).

(** What the [try] suite does *)
Definition suite_ok (guard : string → bool) (E : env)
    (σ : store) (r : result unit) (σ' : store) : Prop :=
  disk σ' = disk σ ∧
  outside tracked (state σ) (state σ') ∧
  (r = Ok tt → is_PDict (state σ') = true) ∧
  (r ≠ Ok tt → entry (state σ') "last_run" = entry (state σ) "last_run") ∧
  ∃ new, trace σ' = trace σ ++ new ∧
    Forall (justified guard E) new ∧
    requests_of r new ∧
    (entry (state σ') "alerts" = entry (state σ) "alerts" ∨
     (Forall succeeded new ∧ is_PDict (state σ') = true ∧
      ∃ item, entry (state σ') "alerts" =
              Some (PList (last_n 200 (alerts (state σ) ++ [item]))))).

Definition loaded (fs : files) : py :=
  match state_file fs with Holds doc => doc | _ => fresh_state end.

Definition loaded_allowlist (fs : files) : Allowlist :=
  match load_allowlist (allowlist_file fs) with
  | Ok a => a
  | Raise _ => Allowlist_default
  end.

(** C5, for the tick of one version *)
Definition failure_recorded (tick : M unit) (E : env) (fs : files) : Prop :=
  let out := tick E (start fs) in
  (∃ ev, ev ∈ trace out.2 ∧ failed ev) →
  out.1 = Ok tt ∧
  ∃ calls ev e item,
    trace out.2 = calls ++ [ev; Caught e; Wrote STATE_PATH (state out.2)] ∧
    Forall succeeded calls ∧ failed ev ∧
    state_file (disk out.2) = Holds (state out.2) ∧
    entry item "level" = Some (PStr "error") ∧
    entry (state out.2) "alerts" =
      Some (PList (last_n 200 (alerts (loaded fs) ++ [item]))) ∧
    entry (state out.2) "last_run" = entry (loaded fs) "last_run".

(** C6, for the tick of one version: the state it ends with is the loaded
    one outside the four keys it owns, and that state is written back when
    no exception reaches the handler, or when the handler can append to the
    alerts of the loaded state. *)
Definition saves_back (tick : M unit) (E : env) (fs : files) : Prop :=
  let out := tick E (start fs) in
  (∀ k, k ∉ tracked → entry (state out.2) k = entry (loaded fs) k) ∧
  (appendable_at "alerts" (loaded fs) = true ∨ (∀ e, Caught e ∉ trace out.2) →
   out.1 = Ok tt ∧
   state_file (disk out.2) = Holds (state out.2) ∧
   allowlist_file (disk out.2) = allowlist_file fs ∧
   ∃ before, trace out.2 = before ++ [Wrote STATE_PATH (state out.2)] ∧
             Forall (λ ev, is_write ev = false) before).

(** *** Classification, in the words of the specification *)

(** [k] occurs in [s]: the words of the specification *)
Definition substring (k s : string) : Prop := ∃ pre post, s = pre +:+ k +:+ post.

(** The first entry of [Names] and the [Image] of a container, lower-cased *)
Definition first_name (c : py) : option string :=
  match entry c "Names" with
  | Some (PList (PStr n :: _)) => Some (lower n)
  | _ => None
  end.

Definition image (c : py) : option string :=
  match entry c "Image" with
  | Some (PStr i) => Some (lower i)
  | _ => None
  end.

Definition keyword_in (keys : list string) (o : option string) : Prop :=
  ∃ k s, k ∈ keys ∧ o = Some s ∧ substring k s.

Definition matches (keys : list string) (c : py) : Prop :=
  keyword_in keys (first_name c) ∨ keyword_in keys (image c).

(** [res] is the first container of the list that matches, [None] when no
    container does *)
Definition first_match (keys : list string) (containers : list py) (res : py) : Prop :=
  (∃ before c after, containers = before ++ c :: after ∧ res = c ∧
      matches keys c ∧ Forall (λ c', ¬ matches keys c') before) ∨
  (res = PNone ∧ Forall (λ c', ¬ matches keys c') containers).

(** A container as the Docker API lists it, as far as [classify] reads it:
    an object whose [Names] is missing, null or a list that is empty or
    begins with a string, and whose [Image] is missing, null or a string *)
Definition listed (c : py) : bool :=
  is_PDict c &&
  match entry c "Names" with
  | None | Some PNone | Some (PList []) | Some (PList (PStr _ :: _)) => true
  | _ => false
  end &&
  match entry c "Image" with
  | None | Some PNone | Some (PStr _) => true
  | _ => false
  end.

(** *** The allowlist, as validated and as logged *)

(** What a field of the allowlist holds for the entry [o] of the payload:
    its default when the entry is missing, and otherwise the dict of lists
    of strings that the entry is *)
Definition field_holds (o : option py) (m : gmap string (list string)) : Prop :=
  match o with
  | None => m = no_addresses
  | Some v => v = dump_entry m
  end.

(** The action that POST /api/allowlist of 0.1.2 logs for the allowlist [a] *)
Definition allowlist_set (ts : Z) (a : Allowlist) : py :=
  Image.action_entry ts "allowlist_set"
    (dict_of [("btc", Image.count (btc a)); ("bch", Image.count (bch a));
              ("dgb", Image.count (dgb a))]).

(** *** Log helpers run in a row *)

Definition run_ops (ops : list log_op) : M unit := for_each ops run_op.

(** [items] are entries that the helpers [ops] append, in order *)
Definition items_of (ops : list log_op) (items : list py) : Prop :=
  Forall2 (λ op item, ∃ ts, item = op_item op ts) ops items.

(** *** What the intel shows *)

(** [c.get(k)] for a container that is a dict *)
Definition got (c : py) (k : string) : py := default PNone (entry c k).

(** The entry of [intel["containers"]] for the container [c] *)
Definition summary_of (c : py) : py :=
  dict_of [("id", got c "Id"); ("names", got c "Names"); ("image", got c "Image");
           ("state", got c "State"); ("status", got c "Status")].

(** The name that [intel["roles"]] shows for a container: the first of its
    names as it is, [None] when it has none *)
Definition shown_name (c : py) : py :=
  match entry c "Names" with
  | Some (PList (n :: _)) => n
  | _ => PNone
  end.

(** The entry of [intel["roles"]] for a role held by [c] *)
Definition role_shown (c : py) : py :=
  dict_of [("id", got c "Id"); ("name", shown_name c)].

(** What a tick that caught no exception leaves under "intel" and
    "last_run": the snapshot of the listing and the roles, over the other
    keys of the loaded intel, and a time *)
Definition refreshes (tick : M unit) (E : env) (fs : files) : Prop :=
  let out := tick E (start fs) in
  (∀ e, Caught e ∉ trace out.2) →
  ∃ containers snap roles doc intel ts,
    containers_reply E = Ok containers ∧
    snapshot containers = Ok snap ∧
    classify containers = Ok roles ∧
    roles_doc roles = Ok doc ∧
    entry (loaded fs) "intel" = Some (PDict intel) ∧
    entry (state out.2) "intel" =
      Some (PDict (<["roles" := doc]> (<["containers" := snap]> intel))) ∧
    entry (state out.2) "last_run" = Some (PInt ts).

(** *** The flags *)

(** The word true in some casing *)
Definition spells_true (v : string) : Prop :=
  ∃ a b c d, v = String a (String b (String c (String d ""))) ∧
    (a = "t" ∨ a = "T")%char ∧ (b = "r" ∨ b = "R")%char ∧
    (c = "u" ∨ c = "U")%char ∧ (d = "e" ∨ d = "E")%char.

(** *** What a tick keeps *)

(** The statement [m] keeps the property [P] of the state object *)
Definition keeps {A} (P : py → Prop) (m : M A) : Prop :=
  ∀ E σ r σ', m E σ = (r, σ') → P (state σ) → P (state σ').

(** A property of the state that the three kinds of update of a tick keep:
    setting a key of the intel, appending to a log, setting [last_run] *)
Definition kept_by_updates (P : py → Prop) : Prop :=
  (∀ key x s s', intel_set key x s = Ok s' → P s → P s') ∧
  (∀ key item s s', key = "actions" ∨ key = "alerts" →
     appended key item s = Ok s' → P s → P s') ∧
  (∀ ts s s', py_setitem s "last_run" (PInt ts) = Ok s' → P s → P s').

(** What a tick does from a state file that is missing, unreadable or
    state-shaped: it returns, and the file then holds the state it ends
    with, which is state-shaped again *)
Definition runs_clean (tick : M unit) : Prop :=
  ∀ E fs, state_shaped (loaded fs) = true →
    let out := tick E (start fs) in
    out.1 = Ok tt ∧
    state_file (disk out.2) = Holds (state out.2) ∧
    allowlist_file (disk out.2) = allowlist_file fs ∧
    state_shaped (state out.2) = true ∧
    (fits (loaded fs) = true → fits (state out.2) = true) ∧
    Forall (restart_justified E) (trace out.2).

(** What the loop does from such a file: every round runs *)
Definition keeps_running (loop : list env → files → history) : Prop :=
  ∀ worlds fs, state_shaped (loaded fs) = true →
    let h := loop worlds fs in
    ended h = None ∧
    allowlist_file (files_left h) = allowlist_file fs ∧
    state_shaped (loaded (files_left h)) = true ∧
    (fits (loaded fs) = true → fits (loaded (files_left h)) = true) ∧
    Forall2 (λ E tr, Forall (restart_justified E) tr) worlds (ticks h).

(** *** How a tick ends *)

(** The only way out of a tick with an exception: the handler could not
    append to the alerts of the loaded state *)
Definition raises_in_handler (tick : M unit) (E : env) (fs : files) : Prop :=
  let out := tick E (start fs) in
  ∀ e, out.1 = Raise e →
    appendable_at "alerts" (loaded fs) = false ∧
    (∃ msg, e = AttributeError msg) ∧
    disk out.2 = fs ∧
    ∃ e0, last (trace out.2) = Some (Caught e0).

(** The alert that the handler of 0.1.1 appends for the exception [e] *)
Definition error_alert_agent (ts : Z) (e : exn) : py :=
  dict_of [("ts", PInt ts); ("level", PStr "error"); ("msg", PStr (str_exn e))].

(** The alert that the handler of 0.1.2 appends for the exception [e] *)
Definition error_alert_image (ts : Z) (e : exn) : py :=
  Image.alert_entry ts "error" "Agent tick failed." (dict_of [("error", PStr (str_exn e))]).

(** A handler that appends [item ts e] under "alerts", [ts] being the time *)
Definition handler_appends (item : Z → exn → py) (handler : exn → M unit) : Prop :=
  ∀ e E σ, ∃ c,
    handler e E σ =
    match appended "alerts" (item (time_at E (clock σ)) e) (state σ) with
    | Ok s' => (Ok tt, {| disk := disk σ; state := s'; trace := trace σ; clock := c |})
    | Raise e' =>
        (Raise e', {| disk := disk σ; state := state σ; trace := trace σ; clock := c |})
    end.

(** The alert of the exception that a tick caught is the last of the alerts
    that the tick leaves *)
Definition reports_caught (item : Z → exn → py) (tick : M unit) (E : env) (fs : files)
    : Prop :=
  let out := tick E (start fs) in
  ∀ e, Caught e ∈ trace out.2 → out.1 = Ok tt →
    ∃ ts, last (alerts (state out.2)) = Some (item ts e).

(** *** The trace of a tick, request by request *)

(** The role for which a restart request was sent *)
Definition role_of (ev : event) : option string :=
  match ev with Restarted k _ _ => Some k | _ => None end.

(** What follows the requests of a tick: the state is written, after the
    exception that was caught if one was; or the handler raised in its turn *)
Definition closing (tail : list event) : Prop :=
  (∃ s, tail = [Wrote STATE_PATH s]) ∨
  (∃ e s, tail = [Caught e; Wrote STATE_PATH s]) ∨
  (∃ e, tail = [Caught e]).

(** The trace of a tick: one listing, then at most one restart request for
    each role, in the order of the roles, then the closing *)
Definition one_pass (tick : M unit) (E : env) (fs : files) : Prop :=
  ∃ ok restarts tail,
    trace (tick E (start fs)).2 = Listed ok :: restarts ++ tail ∧
    Forall (λ ev, is_restart ev = true) restarts ∧
    omap role_of restarts `sublist_of` role_names ∧
    closing tail.

(** A statement that sends no request and writes nothing *)
Definition quiet {A} (m : M A) : Prop :=
  ∀ E σ r σ', m E σ = (r, σ') → trace σ' = trace σ.

(** *** A tick in which nothing fails *)

(** A container as the Docker API lists it, as far as a tick reads it: as
    [listed], with an [Id], and with a [State] that is missing, null or a
    string *)
Definition inspectable (c : py) : bool :=
  listed c && bool_decide (is_Some (entry c "Id")) &&
  match entry c "State" with
  | None | Some PNone | Some (PStr _) => true
  | _ => false
  end.

(** The restart that the loop owes the role [k]: the id of the container of
    the role, when there is one and it is down *)
Definition due (roles : list (string * py)) (k : string) : option py :=
  let c := role roles k in
  if truthy c then
    match state_of c, py_getitem c "Id" with
    | Ok st, Ok id => if down st then Some id else None
    | _, _ => None
    end
  else None.

(** The proxy accepts every restart request *)
Definition accepting (E : env) : Prop :=
  ∀ n id, ∃ code text,
    restart_reply E n id = Response code text ∧ (code = 204 ∨ code = 304).

(** The restart requests owed to the roles [ks], in order, [guard] telling
    which roles the version lets be restarted *)
Definition restarts_due (guard : string → bool) (roles : list (string * py))
    (ks : list string) : list event :=
  omap (λ k, if guard k then (λ id, Restarted k id true) <$> due roles k else None) ks.

(** The restart requests of a tick in which nothing fails *)
Definition plan (guard : string → bool) (E : env) (roles : list (string * py))
    : list event :=
  if ARMED_MODE E then restarts_due guard roles role_names else [].

(** The action that 0.1.1 logs after a restart for the role [k] *)
Definition agent_action (ts : Z) (k : string) : py :=
  dict_of [("ts", PInt ts); ("kind", PStr "restart"); ("role", PStr k)].

(** The action that 0.1.2 logs after a restart for the role [k] *)
Definition image_action (ts : Z) (k : string) (id : py) : py :=
  Image.action_entry ts "restart" (dict_of [("role", PStr k); ("id", id)]).

(** [item] is the action logged for the restart request [ev] *)
Definition logs_agent (ev : event) (item : py) : Prop :=
  ∃ k id ok ts, ev = Restarted k id ok ∧ item = agent_action ts k.

Definition logs_image (ev : event) (item : py) : Prop :=
  ∃ k id ok ts, ev = Restarted k id ok ∧ item = image_action ts k id.

(** The alert of the failsafe for the role [k] *)
Definition warning (ts : Z) (k : string) : py :=
  Image.alert_entry ts "critical" Image.failsafe_msg (dict_of [("role", PStr k)]).

(** The roles among [ks] that the failsafe keeps from being restarted *)
Definition held_back (E : env) (a : Allowlist) (roles : list (string * py))
    (ks : list string) : list string :=
  filter (λ k, failsafe E a k = true ∧ is_Some (due roles k)) ks.

(** What a tick does after the exception [e], raised before any restart
    request: it appends the alert of [e] and writes the state, which is the
    loaded one but for its alerts *)
Definition only_reports (item : Z → exn → py) (tick : M unit) (E : env) (fs : files)
    (e : exn) : Prop :=
  let out := tick E (start fs) in
  out.1 = Ok tt ∧
  trace out.2 = [Listed true; Caught e; Wrote STATE_PATH (state out.2)] ∧
  entry (state out.2) "alerts" =
    Some (PList (last_n 200 (alerts (loaded fs) ++ [item (time_at E 0) e]))) ∧
  ∀ k, k ≠ "alerts" → entry (state out.2) k = entry (loaded fs) k.

(** *** What a tick of 0.1.1 does with the allowlist *)

(** The store [σ] with [al] for its allowlist file *)
Definition reseat (al : file) (σ : store) : store :=
  {| disk := {| allowlist_file := al; state_file := state_file (disk σ) |};
     state := state σ; trace := trace σ; clock := clock σ |}.

(** A statement that neither reads nor writes the allowlist file: with
    another allowlist file it does the same, and leaves that file there *)
Definition blind {A} (m : M A) : Prop :=
  ∀ al E σ, m E (reseat al σ) = ((m E σ).1, reseat al (m E σ).2).

(** ** Worlds used as examples *)

Definition node (id name image st : string) : py :=
  dict_of [("Id", PStr id); ("Names", PList [PStr name]); ("Image", PStr image);
           ("State", PStr st); ("Status", PStr "Exited (1) 2 minutes ago")].

Definition btc_node : py := node "b1" "/bitcoin_bitcoind_1" "lncm/bitcoind:v25.0" "exited".
Definition miner : py := node "m1" "/miningcore_1" "theretromike/miningcore" "Exited".
Definition bch_node : py := node "c1" "/BitcoinCash-node" "zquestz/bitcoin-cash-node" "running".

Definition no_files : files := {| allowlist_file := Absent; state_file := Absent |}.

(** Nothing to do: the agent is not armed and no container is listed *)
Definition idle : env :=
  {| ARMED_MODE := false; FAILSAFE_STOP_MINING := true;
     time_at := λ n, 1700000000 + Z.of_nat n;
     containers_reply := Ok (PList []);
     restart_reply := λ _ _, Response 204 "" |}.

(** Armed, with MiningCore down and every restart accepted *)
Definition miner_down : env :=
  {| ARMED_MODE := true; FAILSAFE_STOP_MINING := true;
     time_at := λ n, 1700000000 + Z.of_nat n;
     containers_reply := Ok (PList [bch_node; miner]);
     restart_reply := λ _ _, Response 204 "" |}.

(** Armed, with the Bitcoin node and MiningCore down and every restart
    refused by the Docker daemon *)
Definition restarts_refused : env :=
  {| ARMED_MODE := true; FAILSAFE_STOP_MINING := true;
     time_at := λ n, 1700000000 + Z.of_nat n;
     containers_reply := Ok (PList [btc_node; miner]);
     restart_reply := λ _ _, Response 500 "port is already allocated" |}.

(** The proxy cannot be reached *)
Definition proxy_down : env :=
  {| ARMED_MODE := true; FAILSAFE_STOP_MINING := true;
     time_at := λ n, 1700000000 + Z.of_nat n;
     containers_reply := Raise (TransportError "All connection attempts failed");
     restart_reply := λ _ _, Unreachable "All connection attempts failed" |}.

(** A state file that parses, with [null] where the alerts should be *)
Definition null_alerts : files :=
  {| allowlist_file := Absent;
     state_file := Holds (dict_of [("last_run", PInt 1699999970); ("intel", PDict ∅);
                                   ("actions", PList []); ("alerts", PNone)]) |}.



(** A state with 201 actions *)
Definition long_actions : py :=
  dict_of [("last_run", PNone); ("intel", PDict ∅);
           ("actions", PList (replicate 201 (PStr "old"))); ("alerts", PList [])].

(** A state file with a key of the operator's own *)
Definition kept_note : files :=
  {| allowlist_file := Absent;
     state_file := Holds (dict_of [("last_run", PNone); ("intel", PDict ∅);
                                   ("actions", PList []); ("alerts", PList []);
                                   ("note", PStr "rack 4")]) |}.

(** The payload of a POST /api/allowlist *)
Definition payload_one : py :=
  dict_of [("btc", dict_of [("allowed_addresses",
                             PList [PStr "bc1qar0srrr7xfkvy5l643lydnw9re59gtzzwf5mdq"])]);
           ("note", PStr "set by the operator")].

Definition allowlist_one : Allowlist :=
  {| btc := {[ "allowed_addresses" := ["bc1qar0srrr7xfkvy5l643lydnw9re59gtzzwf5mdq"] ]};
     bch := no_addresses; dgb := no_addresses |}.

Definition three_appends : list log_op :=
  [Push "actions" (dict_of [("kind", PStr "restart"); ("role", PStr "btc")]);
   Alert "critical" Image.failsafe_msg (dict_of [("role", PStr "miningcore")]);
   ActionLog "allowlist_set" (dict_of [("btc", PInt 1)])].

(** An allowlist file with addresses for btc and a slip under dgb *)
Definition slip_under_dgb : gmap string py :=
  list_to_map
    [("btc", dict_of [("allowed_addresses",
                       PList [PStr "bc1qar0srrr7xfkvy5l643lydnw9re59gtzzwf5mdq"])]);
     ("dgb", PStr "none yet")].

(** Two restarts logged in a row *)
Definition two_actions : list log_op :=
  [Push "actions" (dict_of [("kind", PStr "restart"); ("role", PStr "btc")]);
   ActionLog "restart" (dict_of [("role", PStr "bch"); ("id", PStr "c1")])].

(** Armed, with a Bitcoin Cash node down and every restart accepted *)
Definition cash_down : env :=
  {| ARMED_MODE := true; FAILSAFE_STOP_MINING := true;
     time_at := λ n, 1700000000 + Z.of_nat n;
     containers_reply :=
       Ok (PList [node "c1" "/bitcoincash_1" "zquestz/bitcoin-cash-node" "dead"]);
     restart_reply := λ _ _, Response 204 "" |}.

(** The roles that [classify] gives in [cash_down] *)
Definition cash_roles : list (string * py) :=
  [("btc", node "c1" "/bitcoincash_1" "zquestz/bitcoin-cash-node" "dead");
   ("bch", node "c1" "/bitcoincash_1" "zquestz/bitcoin-cash-node" "dead");
   ("dgb", PNone); ("miningcore", PNone)].

(** Armed, with a Bitcoin node that is down and a [null] in the listing *)
Definition null_in_listing : env :=
  {| ARMED_MODE := true; FAILSAFE_STOP_MINING := true;
     time_at := λ n, 1700000000 + Z.of_nat n;
     containers_reply := Ok (PList [btc_node; PNone]);
     restart_reply := λ _ _, Response 204 "" |}.

(** A state file whose intel holds a key that the agent does not write *)
Definition intel_kept : files :=
  {| allowlist_file := Absent;
     state_file :=
       Holds (dict_of [("last_run", PInt 1699999970);
                       ("intel", dict_of [("containers", PList []);
                                          ("host", PStr "umbrel")]);
                       ("actions", PList []); ("alerts", PList [])]) |}.

(** Armed, with one container down that [classify] gives to dgb and to
    miningcore, and every restart accepted *)
Definition pool_down : env :=
  {| ARMED_MODE := true; FAILSAFE_STOP_MINING := true;
     time_at := λ n, 1700000000 + Z.of_nat n;
     containers_reply :=
       Ok (PList [node "p1" "/miningcore-dgb_1" "theretromike/miningcore" "exited"]);
     restart_reply := λ _ _, Response 204 "" |}.

(** The roles that [classify] gives in [miner_down] *)
Definition miner_roles : list (string * py) :=
  [("btc", bch_node); ("bch", bch_node); ("dgb", PNone); ("miningcore", miner)].

(** * Properties *)

(** ** Reading the state file *)



(** ** The allowlist file *)

Lemma truthy_dict (d : gmap string py) : truthy (PDict d) = true ↔ d ≠ ∅.
Proof.
  simpl. destruct (map_to_list d) as [|kv l] eqn:E.
  - apply map_to_list_empty_iff in E. split; [done | congruence].
  - split; [|done]. intros _ ->. by rewrite map_to_list_empty in E.
Qed.

Lemma as_str_list_dump (l : list string) :
  as_str_list (dump_addresses l) = Some l.
Proof.
  unfold dump_addresses; simpl. apply mapM_Some.
  induction l; constructor; auto.
Qed.

Lemma as_entry_dump (m : gmap string (list string)) :
  as_entry (dump_entry m) = Some m.
Proof.
  unfold dump_entry; simpl. destruct (decide _) as [_|H].
  - f_equal. apply map_eq; intros k.
    rewrite lookup_omap, lookup_fmap.
    destruct (m !! k); simpl; [apply as_str_list_dump | done].
  - exfalso; apply H. intros k x Hx.
    apply lookup_fmap_Some in Hx as (l & <- & _).
    rewrite as_str_list_dump; eauto.
Qed.

Lemma model_validate_dump (a : Allowlist) :
  model_validate (model_dump a) = Ok a.
Proof.
  destruct a as [x y z]; unfold model_validate, model_dump, field; simpl.
  rewrite lookup_insert_eq, as_entry_dump; simpl.
  rewrite lookup_insert_ne, lookup_insert_eq, as_entry_dump by done; simpl.
  rewrite !lookup_insert_ne, lookup_insert_eq, as_entry_dump by done; simpl.
  done.
Qed.

Lemma model_dump_truthy (a : Allowlist) : truthy (model_dump a) = true.
Proof.
  apply truthy_dict. intros H.
  apply (f_equal (λ m : gmap string py, m !! "btc")) in H.
  cbn [list_to_map foldr uncurry] in H.
  by rewrite lookup_insert_eq, lookup_empty in H.
Qed.

Lemma load_save_allowlist (a : Allowlist) (fs : files) :
  load_allowlist (allowlist_file (save_allowlist a fs)) = Ok a.
Proof.
  unfold load_allowlist, save_allowlist.
  cbn [allowlist_file file_exists negb parse rbind]. unfold por.
  by rewrite model_dump_truthy, model_validate_dump.
Qed.

(** ** Statements *)

Tactic Notation "store_simpl" :=
  cbn [state with_state tick_clock log disk trace clock
       py_getitem py_setitem py_tail rbind fst snd].
Tactic Notation "store_simpl" "in" hyp(H) :=
  cbn [state with_state tick_clock log disk trace clock
       py_getitem py_setitem py_tail rbind fst snd] in H.

Lemma push_eq key item E σ :
  Agent.push key item E σ = update (appended key item) E σ.
Proof.
  unfold Agent.push, bind, setdefault, appendable, assign, keep_last_200, update, appended.
  destruct σ as [dk s tr cl]; store_simpl.
  destruct s as [| | | | | |d]; try reflexivity.
  destruct (d !! key) as [v|] eqn:Hk; store_simpl.
  - rewrite Hk. destruct v; try reflexivity. store_simpl.
    rewrite lookup_insert_eq; store_simpl. by rewrite insert_insert_eq.
  - rewrite lookup_insert_eq; store_simpl. rewrite lookup_insert_eq; store_simpl.
    by rewrite !insert_insert_eq.
Qed.

Lemma action_log_eq kind details E σ :
  Image.action_log kind details E σ =
  match appended "actions" (Image.action_entry (time_at E (clock σ)) kind details) (state σ) with
  | Ok s' => (Ok tt, tick_clock (with_state s' σ))
  | Raise e => (Raise e, σ)
  end.
Proof.
  unfold Image.action_log, bind, setdefault, appendable, assign, keep_last_200, update, appended, now.
  destruct σ as [dk s tr cl]; store_simpl.
  destruct s as [| | | | | |d]; try reflexivity.
  destruct (d !! "actions") as [v|] eqn:Hk; store_simpl.
  - rewrite Hk. destruct v; try reflexivity. store_simpl.
    rewrite lookup_insert_eq; store_simpl. by rewrite insert_insert_eq.
  - rewrite lookup_insert_eq; store_simpl. rewrite lookup_insert_eq; store_simpl.
    by rewrite !insert_insert_eq.
Qed.

Lemma alert_eq level msg meta E σ :
  Image.alert level msg meta E σ =
  match appended "alerts" (Image.alert_entry (time_at E (clock σ)) level msg meta) (state σ) with
  | Ok s' => (Ok tt, tick_clock (with_state s' σ))
  | Raise e => (Raise e, σ)
  end.
Proof.
  unfold Image.alert, bind, setdefault, appendable, assign, keep_last_200, update, appended, now.
  destruct σ as [dk s tr cl]; store_simpl.
  destruct s as [| | | | | |d]; try reflexivity.
  destruct (d !! "alerts") as [v|] eqn:Hk; store_simpl.
  - rewrite Hk. destruct v; try reflexivity. store_simpl.
    rewrite lookup_insert_eq; store_simpl. by rewrite insert_insert_eq.
  - rewrite lookup_insert_eq; store_simpl. rewrite lookup_insert_eq; store_simpl.
    by rewrite !insert_insert_eq.
Qed.

(** *** What a statement leaves alone *)

Lemma outside_refl keys s : outside keys s s.
Proof. by split. Qed.

Lemma outside_trans keys s1 s2 s3 :
  outside keys s1 s2 → outside keys s2 s3 → outside keys s1 s3.
Proof.
  intros [H1 H2] [H3 H4]. split; [congruence|].
  intros k Hk. rewrite H4, H2; auto.
Qed.

Lemma outside_mono keys keys' s s' :
  keys ⊆ keys' → outside keys s s' → outside keys' s s'.
Proof. intros Hsub [H1 H2]. split; [done|]. intros k Hk. apply H2. set_solver. Qed.

Lemma py_setitem_outside s k x s' :
  py_setitem s k x = Ok s' → outside [k] s s' ∧ entry s' k = Some x.
Proof.
  destruct s; try discriminate. intros [= <-]. repeat split; simpl.
  - intros k' Hk'. apply lookup_insert_ne. set_solver.
  - apply lookup_insert_eq.
Qed.

Lemma py_setitem_dict s k x : is_PDict s = true → ∃ s', py_setitem s k x = Ok s'.
Proof. destruct s; try discriminate. eauto. Qed.

Lemma intel_set_outside key x s s' :
  intel_set key x s = Ok s' → outside ["intel"] s s' ∧ is_PDict s' = true.
Proof.
  unfold intel_set. destruct (py_getitem s "intel") as [i|] eqn:Hi; [|done]; simpl.
  destruct (py_setitem i key x) as [i'|]; [|done]; simpl.
  intros H. split; [by apply py_setitem_outside in H as [? _]|].
  by destruct s; try discriminate; injection H as <-.
Qed.

Lemma appended_outside key item s s' :
  appended key item s = Ok s' →
  outside [key] s s' ∧ is_PDict s' = true ∧
  entry s' key =
    Some (PList (last_n 200 (match entry s key with Some (PList l) => l | _ => [] end ++ [item]))).
Proof.
  destruct s as [| | | | | |d]; try discriminate. simpl.
  destruct (d !! key) as [v|] eqn:Hk.
  - destruct v; try discriminate. intros [= <-]. repeat split; simpl.
    + intros k' Hk'. apply lookup_insert_ne. set_solver.
    + by rewrite lookup_insert_eq.
  - intros [= <-]. repeat split; simpl.
    + intros k' Hk'. apply lookup_insert_ne. set_solver.
    + by rewrite lookup_insert_eq.
Qed.

Lemma appended_Ok key item s :
  appendable_at key s = true → ∃ s', appended key item s = Ok s'.
Proof.
  destruct s as [| | | | | |d]; try discriminate. unfold appendable_at; simpl.
  destruct (d !! key) as [[]|]; try discriminate; eauto.
Qed.

Lemma appended_Raise key item s e :
  appended key item s = Raise e → appendable_at key s = false.
Proof.
  destruct s as [| | | | | |d]; try done. unfold appendable_at; simpl.
  destruct (d !! key) as [[]|]; try discriminate; eauto.
Qed.

Lemma appended_appendable key item s s' :
  appended key item s = Ok s' → appendable_at key s = true.
Proof.
  destruct s as [| | | | | |d]; try discriminate. unfold appendable_at; simpl.
  by destruct (d !! key) as [[]|].
Qed.

Lemma appended_Raise_attribute key item s e :
  appended key item s = Raise e → ∃ msg, e = AttributeError msg.
Proof.
  destruct s as [| | | | | |d]; simpl; try (intros [= <-]; eauto; fail).
  destruct (d !! key) as [[]|]; intros [= <-]; eauto.
Qed.

Lemma outside_appendable keys key s s' :
  key ∉ keys → outside keys s s' → appendable_at key s' = appendable_at key s.
Proof. intros Hk [H1 H2]. unfold appendable_at. by rewrite H1, H2. Qed.

(** *** Running statements *)

Lemma bind_inv {A B} (m : M A) (k : A → M B) E σ r σ' :
  bind m k E σ = (r, σ') →
  match m E σ with
  | (Ok a, σ1) => k a E σ1 = (r, σ')
  | (Raise e, σ1) => r = Raise e ∧ σ' = σ1
  end.
Proof. unfold bind. destruct (m E σ) as [[a|e] σ1]; [done|]. by intros [= <- <-]. Qed.

Lemma update_inv f E σ r σ' :
  update f E σ = (r, σ') →
  match f (state σ) with
  | Ok s => r = Ok tt ∧ σ' = with_state s σ
  | Raise e => r = Raise e ∧ σ' = σ
  end.
Proof. unfold update. destruct (f (state σ)); by intros [= <- <-]. Qed.

Lemma restart_request_inv failure k id E σ r σ' :
  restart_request failure k id E σ = (r, σ') →
  ∃ ok, σ' = log (Restarted k id ok) σ ∧
        (ok = true → r = Ok tt) ∧ (ok = false → ∃ e, r = Raise e).
Proof.
  unfold restart_request.
  destruct (restart_reply E (length (trace σ)) id) as [msg|code text].
  - intros [= <- <-]. exists false. split; [done|]. split; [done|eauto].
  - destruct ((code =? 204) || (code =? 304)); intros [= <- <-].
    + exists true. by split; [|split].
    + exists false. split; [done|]. split; [done|eauto].
Qed.

Lemma requests_of_nil {A} (r : result A) : requests_of r [].
Proof. constructor. constructor. Qed.

Lemma requests_of_one {A} (r : result A) ev :
  (succeeded ev ∨ (failed ev ∧ ∃ e, r = Raise e)) → requests_of r [ev].
Proof.
  intros [H|[H [e ->]]].
  - constructor. by constructor.
  - apply (last_failed e [] ev); [constructor| done].
Qed.

Lemma requests_of_app {A B} (r1 : result A) (r : result B) new1 new2 :
  Forall succeeded new1 → requests_of r new2 → requests_of r (new1 ++ new2).
Proof.
  intros H1 H2. destruct H2 as [r new H|e pre ev Hpre Hev].
  - constructor. by apply Forall_app.
  - rewrite app_assoc. constructor; [by apply Forall_app | done].
Qed.

Lemma requests_of_Ok {A} (a : A) new : requests_of (Ok a) new → Forall succeeded new.
Proof. by inversion 1. Qed.

Ltac fin :=
  repeat split; auto using requests_of_nil, outside_refl;
  try done;
  try match goal with
      | H : ∃ st, Ok _ = Ok st ∧ down st = true |- _ =>
          destruct H as (? & [= <-] & ?); congruence
      | H : ∃ st, Raise _ = Ok st ∧ _ |- _ => by destruct H as (? & [=] & ?)
      end.

Lemma loop_body_image a roles k E σ r σ' :
  Image.loop_body a roles k E σ = (r, σ') →
  disk σ' = disk σ ∧
  outside ["actions"; "alerts"] (state σ) (state σ') ∧
  ∃ new, trace σ' = trace σ ++ new ∧
    Forall (restart_of (λ k' id, k' = k ∧ restartable roles k id ∧ failsafe E a k = false)) new ∧
    requests_of r new ∧
    (entry (state σ') "alerts" = entry (state σ) "alerts" ∨
       new = [] ∧ failsafe E a k = true ∧
       ∃ item, appended "alerts" item (state σ) = Ok (state σ')) ∧
    (failsafe E a k = true → (∃ st, state_of (role roles k) = Ok st ∧ down st = true) →
       truthy (role roles k) = true →
       new = [] ∧
       (r = Ok tt →
        appended "alerts"
          (Image.alert_entry (time_at E (clock σ)) "critical" Image.failsafe_msg
             (dict_of [("role", PStr k)])) (state σ) = Ok (state σ'))).
Proof.
  unfold Image.loop_body. fold (failsafe E a k).
  destruct (truthy (role roles k)) eqn:Hc; cbn [negb].
  2:{ intros [= <- <-]. split; [done|]. split; [apply outside_refl|].
      exists []. rewrite app_nil_r. fin. }
  intros H. apply bind_inv in H. unfold lift in H at 1.
  destruct (state_of (role roles k)) as [st|e] eqn:Hst.
  2:{ destruct H as [-> ->]. split; [done|]. split; [apply outside_refl|].
      exists []. rewrite app_nil_r. fin. }
  destruct (down st) eqn:Hdown.
  2:{ injection H as <- <-. split; [done|]. split; [apply outside_refl|].
      exists []. rewrite app_nil_r. fin. }
  apply bind_inv in H. unfold ask in H at 1. fold (failsafe E a k) in H.
  destruct (failsafe E a k) eqn:Hfs.
  - rewrite alert_eq in H.
    destruct (appended "alerts" _ (state σ)) as [s'|e] eqn:Happ.
    + injection H as <- <-. store_simpl.
      apply appended_outside in Happ as Hout. destruct Hout as (Hout & _ & _).
      split; [done|]. split; [eapply outside_mono; [|done]; set_solver|].
      exists []. rewrite app_nil_r. fin. right. eauto.
    + injection H as <- <-.
      split; [done|]. split; [apply outside_refl|].
      exists []. rewrite app_nil_r. fin.
  - apply bind_inv in H. unfold lift in H at 1.
    destruct (py_getitem (role roles k) "Id") as [id|e] eqn:Hid.
    2:{ destruct H as [-> ->]. split; [done|]. split; [apply outside_refl|].
        exists []. rewrite app_nil_r. fin. }
    apply bind_inv in H.
    destruct (Image.docker_restart k id E σ) as [r1 σ1] eqn:Hr.
    apply restart_request_inv in Hr as (ok & -> & Hok1 & Hok2).
    assert (Hperm : restart_of (λ k' id, k' = k ∧ restartable roles k id ∧ false = false)
                      (Restarted k id ok)).
    { simpl. repeat split; eauto. }
    destruct r1 as [[]|e1].
    + destruct ok; [|by destruct Hok2 as [? ?]].
      apply bind_inv in H. unfold lift in H at 1.
      destruct (py_get (role roles k) "Id") as [id'|e] eqn:Hid'.
      2:{ destruct H as [-> ->]. store_simpl. split; [done|]. split; [apply outside_refl|].
          eexists. split; [done|]. fin. apply requests_of_one. by left. }
      rewrite action_log_eq in H.
      destruct (appended "actions" _ _) as [s'|e] eqn:Happ.
      * injection H as <- <-. store_simpl. store_simpl in Happ.
        apply appended_outside in Happ as (Hout & _ & _).
        split; [done|]. split; [eapply outside_mono; [|done]; set_solver|].
        eexists. split; [done|]. fin.
        -- apply requests_of_one. by left.
        -- left. destruct Hout as [_ Hout]. apply Hout. set_solver.
      * injection H as <- <-. store_simpl. split; [done|]. split; [apply outside_refl|].
        eexists. split; [done|]. fin. apply requests_of_one. by left.
    + destruct H as [-> ->]. store_simpl. split; [done|]. split; [apply outside_refl|].
      eexists. split; [done|]. fin.
      apply requests_of_one. destruct ok; [by left|right]. split; [done|eauto].
Qed.

(** *** Loops *)

Lemma for_each_rel {A} (R : store → store → Prop) (ks : list A) (body : A → M unit) E :
  (∀ σ, R σ σ) → (∀ σ1 σ2 σ3, R σ1 σ2 → R σ2 σ3 → R σ1 σ3) →
  (∀ k σ r σ', k ∈ ks → body k E σ = (r, σ') → R σ σ') →
  ∀ σ r σ', for_each ks body E σ = (r, σ') → R σ σ'.
Proof.
  intros Hrefl Htrans. induction ks as [|k ks IH]; intros Hbody σ r σ'.
  - by intros [= <- <-].
  - cbn [for_each]. intros H. apply bind_inv in H.
    destruct (body k E σ) as [[[]|e] σ1] eqn:Hk.
    + eapply Htrans.
      * eapply Hbody; [|done]. set_solver.
      * eapply IH; [|done]. intros. eapply Hbody; [|done]. set_solver.
    + destruct H as [-> ->]. eapply Hbody; [|done]. set_solver.
Qed.

Lemma for_each_requests {A} (P : event → Prop) (ks : list A) (body : A → M unit) E :
  (∀ k σ r σ', k ∈ ks → body k E σ = (r, σ') →
     ∃ new, trace σ' = trace σ ++ new ∧ Forall P new ∧ requests_of r new) →
  ∀ σ r σ', for_each ks body E σ = (r, σ') →
     ∃ new, trace σ' = trace σ ++ new ∧ Forall P new ∧ requests_of r new.
Proof.
  induction ks as [|k ks IH]; intros Hbody σ r σ'.
  - intros [= <- <-]. exists []. rewrite app_nil_r. auto using requests_of_nil.
  - cbn [for_each]. intros H. apply bind_inv in H.
    destruct (body k E σ) as [[[]|e] σ1] eqn:Hk.
    + apply Hbody in Hk as (new1 & Ht1 & HP1 & Hr1); [|set_solver].
      apply IH in H as (new2 & Ht2 & HP2 & Hr2).
      2:{ intros. eapply Hbody; [|done]. set_solver. }
      exists (new1 ++ new2). rewrite Ht2, Ht1, app_assoc. split; [done|].
      split; [by apply Forall_app|].
      eapply (requests_of_app (Ok tt)); [by apply requests_of_Ok in Hr1|done].
    + destruct H as [-> ->]. eapply Hbody; [|done]. set_solver.
Qed.

Lemma for_each_app {A} (ks1 ks2 : list A) (body : A → M unit) E σ :
  for_each (ks1 ++ ks2) body E σ = (for_each ks1 body ;; for_each ks2 body) E σ.
Proof.
  revert σ. induction ks1 as [|k ks1 IH]; intros σ; [done|].
  cbn [for_each app]. unfold bind.
  destruct (body k E σ) as [[[]|e] σ1]; [|done]. by rewrite IH.
Qed.

Lemma try_suite_agent :
  Agent.try_suite = suite (λ roles, for_each role_names (Agent.loop_body roles)).
Proof. reflexivity. Qed.

Lemma try_suite_image a :
  Image.try_suite a = suite (λ roles, for_each role_names (Image.loop_body a roles)).
Proof. reflexivity. Qed.

Lemma suite_inv loop E σ r σ' :
  suite loop E σ = (r, σ') →
  ∃ ok s1, outside ["intel"] (state σ) s1 ∧
    (((∃ e, r = Raise e) ∧ σ' = with_state s1 (log (Listed ok) σ)) ∨
     (ok = true ∧ is_PDict s1 = true ∧
      ∃ containers roles r2 σ2,
        containers_reply E = Ok containers ∧ classify containers = Ok roles ∧
        (if ARMED_MODE E then loop roles else ret tt) E
          (with_state s1 (log (Listed true) σ)) = (r2, σ2) ∧
        match r2 with
        | Raise e => r = Raise e ∧ σ' = σ2
        | Ok _ =>
            match py_setitem (state σ2) "last_run" (PInt (time_at E (clock σ2))) with
            | Ok s3 => r = Ok tt ∧ σ' = with_state s3 (tick_clock σ2)
            | Raise e => r = Raise e ∧ σ' = tick_clock σ2
            end
        end)).
Proof.
  destruct σ as [dk s tr cl]. unfold suite. intros H.
  apply bind_inv in H. unfold list_request in H at 1.
  destruct (containers_reply E) as [containers|e] eqn:Hlist; store_simpl in H.
  2:{ destruct H as [-> ->]. exists false, s. split; [apply outside_refl|]. left. eauto. }
  apply bind_inv in H. unfold lift in H at 1.
  destruct (snapshot containers) as [snap|e].
  2:{ destruct H as [-> ->]. exists true, s. split; [apply outside_refl|]. left. eauto. }
  apply bind_inv in H. unfold set_intel at 1 in H.
  destruct (update _ E _) as [r1 σ1] eqn:Hu in H. apply update_inv in Hu. store_simpl in Hu.
  destruct (intel_set "containers" snap s) as [s1|e] eqn:H1; destruct Hu as [-> ->].
  2:{ destruct H as [-> ->]. exists true, s. split; [apply outside_refl|]. left. eauto. }
  apply intel_set_outside in H1 as [Ho1 Hd1]. store_simpl in H.
  apply bind_inv in H. unfold lift in H at 1.
  destruct (classify containers) as [roles|e] eqn:Hroles.
  2:{ destruct H as [-> ->]. exists true, s1. split; [done|]. left. eauto. }
  apply bind_inv in H. unfold lift in H at 1.
  destruct (roles_doc roles) as [doc|e].
  2:{ destruct H as [-> ->]. exists true, s1. split; [done|]. left. eauto. }
  apply bind_inv in H. unfold set_intel at 1 in H.
  destruct (update _ E _) as [r2 σ2] eqn:Hu in H. apply update_inv in Hu. store_simpl in Hu.
  destruct (intel_set "roles" doc s1) as [s2|e] eqn:H2; destruct Hu as [-> ->].
  2:{ destruct H as [-> ->]. exists true, s1. split; [done|]. left. eauto. }
  apply intel_set_outside in H2 as [Ho2 Hd2]. store_simpl in H.
  exists true, s2. split; [by eapply outside_trans|]. right.
  split; [done|]. split; [done|]. exists containers, roles.
  apply bind_inv in H. unfold ask in H at 1. apply bind_inv in H. store_simpl.
  destruct ((if ARMED_MODE E then loop roles else ret tt) E _) as [r3 σ3] eqn:Hloop.
  exists r3, σ3. split; [done|]. split; [done|]. split; [done|].
  destruct r3 as [[]|e]; [|done].
  apply bind_inv in H. unfold now in H at 1. unfold assign in H.
  apply update_inv in H. store_simpl in H.
  by destruct (py_setitem (state σ3) "last_run" _).
Qed.

Lemma loop_body_agent roles k E σ r σ' :
  Agent.loop_body roles k E σ = (r, σ') →
  disk σ' = disk σ ∧
  outside ["actions"] (state σ) (state σ') ∧
  ∃ new, trace σ' = trace σ ++ new ∧
    Forall (restart_of (λ k' id, k' = k ∧ restartable roles k id)) new ∧
    requests_of r new.
Proof.
  unfold Agent.loop_body.
  destruct (truthy (role roles k)) eqn:Hc; cbn [negb].
  2:{ intros [= <- <-]. split; [done|]. split; [apply outside_refl|].
      exists []. rewrite app_nil_r. fin. }
  intros H. apply bind_inv in H. unfold lift in H at 1.
  destruct (state_of (role roles k)) as [st|e] eqn:Hst.
  2:{ destruct H as [-> ->]. split; [done|]. split; [apply outside_refl|].
      exists []. rewrite app_nil_r. fin. }
  destruct (down st) eqn:Hdown.
  2:{ injection H as <- <-. split; [done|]. split; [apply outside_refl|].
      exists []. rewrite app_nil_r. fin. }
  apply bind_inv in H. unfold lift in H at 1.
  destruct (py_getitem (role roles k) "Id") as [id|e] eqn:Hid.
  2:{ destruct H as [-> ->]. split; [done|]. split; [apply outside_refl|].
      exists []. rewrite app_nil_r. fin. }
  apply bind_inv in H.
  destruct (Agent.docker_restart k id E σ) as [r1 σ1] eqn:Hr.
  apply restart_request_inv in Hr as (ok & -> & Hok1 & Hok2).
  assert (Hperm : restart_of (λ k' id, k' = k ∧ restartable roles k id) (Restarted k id ok)).
  { simpl. repeat split; eauto. }
  destruct r1 as [[]|e1].
  - destruct ok; [|by destruct Hok2 as [? ?]].
    apply bind_inv in H. unfold now in H at 1. rewrite push_eq in H.
    apply update_inv in H. store_simpl in H.
    destruct (appended "actions" _ _) as [s'|e] eqn:Happ; destruct H as [-> ->]; store_simpl.
    + apply appended_outside in Happ as (Hout & _ & _).
      split; [done|]. split; [done|].
      eexists. split; [done|]. fin. apply requests_of_one. by left.
    + split; [done|]. split; [apply outside_refl|].
      eexists. split; [done|]. fin. apply requests_of_one. by left.
  - destruct H as [-> ->]. store_simpl. split; [done|]. split; [apply outside_refl|].
    eexists. split; [done|]. fin.
    apply requests_of_one. destruct ok; [by left|right]. split; [done|eauto].
Qed.

Lemma loop_agent roles E σ r σ' :
  for_each role_names (Agent.loop_body roles) E σ = (r, σ') →
  loop_ok (λ _, true) roles σ r σ'.
Proof.
  intros H. unfold loop_ok.
  assert (H1 : disk σ' = disk σ ∧ outside ["actions"] (state σ) (state σ')).
  { revert H. apply (for_each_rel (λ σ σ', disk σ' = disk σ ∧
                                    outside ["actions"] (state σ) (state σ'))).
    - intros ?. split; [done|apply outside_refl].
    - intros ??? [? ?] [? ?]. split; [congruence|by eapply outside_trans].
    - intros k σ1 r1 σ2 _ Hb. by apply loop_body_agent in Hb as (? & ? & _). }
  destruct H1 as [Hd Ho]. split; [done|].
  split; [eapply outside_mono; [|done]; set_solver|].
  eapply (for_each_requests (restart_of (λ k id,
            k ∈ role_names ∧ restartable roles k id ∧ true = true)))
    in H as (new & Ht & HP & Hr).
  - exists new. split; [done|]. split; [done|]. split; [done|].
    left. destruct Ho as [_ Ho]. apply Ho. set_solver.
  - intros k σ1 r1 σ2 Hk Hb. apply loop_body_agent in Hb as (_ & _ & new & ? & HP & ?).
    exists new. split; [done|]. split; [|done].
    eapply Forall_impl; [done|]. intros [] ; simpl; try done. intros (-> & ?). auto.
Qed.

Lemma failsafe_other E a k : k ≠ "miningcore" → failsafe E a k = false.
Proof.
  intros Hk. unfold failsafe. destruct (String.eqb_spec k "miningcore"); [done|done].
Qed.

Lemma loop_image a roles E σ r σ' :
  for_each role_names (Image.loop_body a roles) E σ = (r, σ') →
  loop_ok (λ k, negb (failsafe E a k)) roles σ r σ' ∧
  (failsafe E a "miningcore" = true →
   (∃ st, state_of (role roles "miningcore") = Ok st ∧ down st = true) →
   truthy (role roles "miningcore") = true →
   r = Ok tt →
   ∃ ts, appendable_at "alerts" (state σ) = true ∧
         entry (state σ') "alerts" =
         Some (PList (last_n 200 (alerts (state σ) ++
           [Image.alert_entry ts "critical" Image.failsafe_msg (dict_of [("role", PStr "miningcore")])])))).
Proof.
  change role_names with (["btc"; "bch"; "dgb"] ++ ["miningcore"]).
  rewrite for_each_app. intros H. apply bind_inv in H.
  destruct (for_each ["btc"; "bch"; "dgb"] _ E σ) as [r1 σ1] eqn:H3.
  assert (Hinv : disk σ1 = disk σ ∧ outside ["actions"] (state σ) (state σ1)).
  { revert H3. apply (for_each_rel (λ σ σ', disk σ' = disk σ ∧
                                    outside ["actions"] (state σ) (state σ'))).
    - intros ?. split; [done|apply outside_refl].
    - intros ??? [? ?] [? ?]. split; [congruence|by eapply outside_trans].
    - intros k σa ra σb Hk Hb.
      apply loop_body_image in Hb as (? & [Hp Ho] & new & _ & _ & _ & Hal & _).
      split; [done|]. split; [done|]. intros k' Hk'.
      destruct (decide (k' = "alerts")) as [->|Hne]; [|apply Ho; set_solver].
      destruct Hal as [?|(_ & Hf & _)]; [done|].
      rewrite failsafe_other in Hf; [done|]. set_solver. }
  destruct Hinv as [Hd1 Ho1].
  assert (Ha1 : entry (state σ1) "alerts" = entry (state σ) "alerts").
  { destruct Ho1 as [_ Ho1]. apply Ho1. set_solver. }
  eapply (for_each_requests (restart_of (λ k id,
            k ∈ role_names ∧ restartable roles k id ∧ negb (failsafe E a k) = true)))
    in H3 as (new1 & Ht1 & HP1 & Hr1).
  2:{ intros k σa ra σb Hk Hb.
      apply loop_body_image in Hb as (_ & _ & new & ? & HP & ? & _).
      exists new. split; [done|]. split; [|done].
      eapply Forall_impl; [exact HP|]. intros []; simpl; try done.
      intros (-> & ? & ->). split; [|done]. unfold role_names. set_solver. }
  destruct r1 as [[]|e1].
  2:{ destruct H as [-> ->]. split; [|done].
      split; [done|]. split; [eapply outside_mono; [|done]; set_solver|].
      exists new1. auto. }
  cbn [for_each] in H. apply bind_inv in H.
  destruct (Image.loop_body a roles "miningcore" E σ1) as [r2 σ2] eqn:H4.
  assert (r = r2 ∧ σ' = σ2) as [-> ->].
  { destruct r2 as [[]|]; [by injection H as <- <-|by destruct H]. }
  clear H. apply loop_body_image in H4 as (Hd2 & Ho2 & new2 & Ht2 & HP2 & Hr2 & Hal & Hfs).
  split.
  - split; [congruence|].
    split. { eapply outside_trans; [|done]. eapply outside_mono; [|done]. set_solver. }
    exists (new1 ++ new2). rewrite Ht2, Ht1, app_assoc. split; [done|].
    split.
    { apply Forall_app. split; [done|]. eapply Forall_impl; [exact HP2|].
      intros []; simpl; try done. intros (-> & ? & ->).
      split; [|done]. unfold role_names. set_solver. }
    split. { eapply (requests_of_app (Ok tt)); [by apply requests_of_Ok in Hr1|done]. }
    destruct Hal as [Hal|(-> & _ & item & Happ)]; [left; congruence|right].
    rewrite app_nil_r. split; [by apply requests_of_Ok in Hr1|].
    apply appended_outside in Happ as (_ & ? & Hen). split; [done|].
    exists item. rewrite Hen. unfold alerts. by rewrite Ha1.
  - intros Hf Hdown Htr Hok. specialize (Hfs Hf Hdown Htr) as [_ Happ].
    specialize (Happ Hok). exists (time_at E (clock σ1)).
    split.
    + destruct (appendable_at "alerts" (state σ1)) eqn:Hx.
      * by rewrite <- (outside_appendable ["actions"] "alerts" (state σ) (state σ1)) by (done || set_solver).
      * destruct (appended "alerts" _ (state σ1)) eqn:Hy; [|done].
        unfold appendable_at in Hx. destruct (state σ1) as [| | | | | |d]; try done.
        simpl in Hx, Hy. destruct (d !! "alerts") as [[]|]; done.
    + apply appended_outside in Happ as (_ & _ & Hen). rewrite Hen.
      unfold alerts. by rewrite Ha1.
Qed.

Lemma outside_entry keys k s s' : k ∉ keys → outside keys s s' → entry s' k = entry s k.
Proof. intros Hk [_ H]. by apply H. Qed.

Lemma suite_summary (guard : env → string → bool) loop :
  (∀ roles E σ r σ', loop roles E σ = (r, σ') → loop_ok (guard E) roles σ r σ') →
  ∀ E σ r σ', suite loop E σ = (r, σ') → suite_ok (guard E) E σ r σ'.
Proof.
  intros Hloop E σ r σ' H. apply suite_inv in H as (ok & s1 & Ho1 & H).
  assert (Ha1 : entry s1 "alerts" = entry (state σ) "alerts").
  { eapply outside_entry; [|done]. set_solver. }
  assert (Ho1' : outside tracked (state σ) s1).
  { eapply outside_mono; [|done]. unfold tracked. set_solver. }
  destruct H as [[[e ->] ->]|(-> & Hd1 & containers & roles & r2 & σ2 & Hc & Hr & Hl & H)].
  { store_simpl. split; [done|]. split; [done|]. split; [done|].
    split. { intros _. apply (outside_entry ["intel"]); [set_solver|done]. }
    exists [Listed ok]. split; [done|]. split; [by repeat constructor|].
    split; [|by left]. apply requests_of_one.
    destruct ok; [by left|right]. split; [done|eauto]. }
  assert (Hl' : loop_ok (guard E) roles (with_state s1 (log (Listed true) σ)) r2 σ2 ∧
                (ARMED_MODE E = false → trace σ2 = trace σ ++ [Listed true])).
  { destruct (ARMED_MODE E).
    - split; [by apply Hloop|done].
    - injection Hl as <- <-. split; [|done]. split; [done|]. split; [apply outside_refl|].
      exists []. store_simpl. rewrite app_nil_r. split; [done|].
      split; [constructor|]. split; [apply requests_of_nil|by left]. }
  destruct Hl' as [(Hd2 & Ho2 & new & Ht2 & HP & Hq & Hal) Hun]. store_simpl in Hd2.
  store_simpl in Ho2. store_simpl in Ht2. store_simpl in Hal.
  assert (Hdict2 : is_PDict (state σ2) = true) by (destruct Ho2 as [-> _]; done).
  assert (Ho2' : outside tracked (state σ) (state σ2)).
  { eapply outside_trans; [done|]. eapply outside_mono; [|done]. unfold tracked. set_solver. }
  assert (HP' : Forall (justified (guard E) E) (Listed true :: new)).
  { constructor; [done|]. destruct (ARMED_MODE E) eqn:Harm.
    - eapply Forall_impl; [exact HP|].
      intros []; simpl; try done. intros (? & ? & ?). split; [done|]. eauto 10.
    - specialize (Hun eq_refl). rewrite Hun in Ht2.
      apply (f_equal length) in Ht2. rewrite !length_app in Ht2. simpl in Ht2.
      destruct new; simpl in *; [constructor|lia]. }
  assert (Hal' : ∀ s3, entry s3 "alerts" = entry (state σ2) "alerts" → is_PDict s3 = true →
     entry s3 "alerts" = entry (state σ) "alerts" ∨
     (Forall succeeded (Listed true :: new) ∧ is_PDict s3 = true ∧
      ∃ item, entry s3 "alerts" = Some (PList (last_n 200 (alerts (state σ) ++ [item]))))).
  { intros s3 -> Hs3. destruct Hal as [->|(Hs & _ & item & ->)]; [by left|right].
    split; [by constructor|]. split; [done|]. exists item. unfold alerts. by rewrite Ha1. }
  destruct r2 as [[]|e].
  - destruct (py_setitem_dict (state σ2) "last_run" (PInt (time_at E (clock σ2))) Hdict2)
      as [s3 Hs3]. rewrite Hs3 in H. destruct H as [-> ->]. store_simpl.
    apply py_setitem_outside in Hs3 as [Ho3 _].
    assert (is_PDict s3 = true) by (destruct Ho3 as [-> _]; done).
    split; [done|]. split.
    { eapply outside_trans; [done|]. eapply outside_mono; [|done]. unfold tracked. set_solver. }
    split; [done|]. split; [done|]. exists (Listed true :: new).
    split; [store_simpl; by rewrite Ht2, <- app_assoc|]. split; [done|].
    split. { apply (requests_of_app (Ok tt) _ [Listed true]); [by repeat constructor|done]. }
    apply Hal'; [|done]. eapply outside_entry; [|done]. set_solver.
  - destruct H as [-> ->]. split; [done|]. split; [done|]. split; [done|].
    split.
    { intros _. rewrite (outside_entry ["actions"; "alerts"] "last_run" s1) by (done || set_solver).
      apply (outside_entry ["intel"]); [set_solver|done]. }
    exists (Listed true :: new).
    split; [by rewrite Ht2, <- app_assoc|]. split; [done|].
    split. { apply (requests_of_app (Ok tt) _ [Listed true]); [by repeat constructor|done]. }
    by apply Hal'.
Qed.

Lemma handler_image : error_handler Image.handler.
Proof.
  intros e E σ. unfold Image.handler.
  exists (Image.alert_entry (time_at E (clock σ)) "error" "Agent tick failed."
            (dict_of [("error", PStr (str_exn e))])).
  split; [by vm_compute|]. rewrite alert_eq.
  destruct (appended "alerts" _ (state σ)) as [s'|e'].
  - by exists (S (clock σ)).
  - exists (clock σ). by destruct σ.
Qed.

Lemma handler_agent : error_handler Agent.handler.
Proof.
  intros e E σ. unfold Agent.handler, bind, now.
  exists (dict_of [("ts", PInt (time_at E (clock σ))); ("level", PStr "error");
                   ("msg", PStr (str_exn e))]).
  split; [by vm_compute|]. rewrite push_eq; unfold update; store_simpl.
  destruct (appended "alerts" _ (state σ)) as [s'|e']; by exists (S (clock σ)).
Qed.

Lemma suite_keeps_appendable guard E σ r σ' :
  suite_ok guard E σ r σ' →
  appendable_at "alerts" (state σ) = true → appendable_at "alerts" (state σ') = true.
Proof.
  intros (_ & [Hd _] & _ & _ & new & _ & _ & _ & [Hal|(_ & Hd' & item & Hal)]).
  - unfold appendable_at. by rewrite Hd, Hal.
  - intros _. unfold appendable_at. by rewrite Hd', Hal.
Qed.

Lemma protected_inv body handler E σ r σ' :
  error_handler handler →
  protected body handler E σ = (r, σ') →
  ∃ r1 σ1, body E σ = (r1, σ1) ∧
    match r1 with
    | Ok _ => r = Ok tt ∧ σ' = written σ1
    | Raise e =>
        ∃ item c, entry item "level" = Some (PStr "error") ∧
          match appended "alerts" item (state σ1) with
          | Ok s2 => r = Ok tt ∧
              σ' = written {| disk := disk σ1; state := s2;
                              trace := trace σ1 ++ [Caught e]; clock := c |}
          | Raise e' => r = Raise e' ∧
              σ' = {| disk := disk σ1; state := state σ1;
                      trace := trace σ1 ++ [Caught e]; clock := c |}
          end
    end.
Proof.
  intros Hh H. unfold protected in H. apply bind_inv in H. unfold try_catch in H.
  destruct (body E σ) as [r1 σ1] eqn:Hb; exists r1, σ1; (split; [done|]).
  destruct r1 as [[]|e].
  - by injection H as <- <-.
  - destruct (Hh e E (log (Caught e) σ1)) as (item & Hlvl & Hrun). store_simpl in Hrun.
    exists item. destruct (appended "alerts" item (state σ1)) as [s2|e'];
      destruct Hrun as [c Hrun]; rewrite Hrun in H; exists c; (split; [done|]).
    + by injection H as <- <-.
    + by destruct H as [-> ->].
Qed.

Lemma load_state_loaded fs : load_state (state_file fs) = Ok (loaded fs).
Proof. unfold loaded. by destruct (state_file fs). Qed.

Lemma load_allowlist_total f : ∃ a, load_allowlist f = Ok a.
Proof.
  unfold load_allowlist. destruct (negb (file_exists f)); [eauto|].
  destruct (let? data := parse f in _); simpl; eauto.
Qed.

Lemma load_allowlist_loaded fs :
  load_allowlist (allowlist_file fs) = Ok (loaded_allowlist fs).
Proof.
  unfold loaded_allowlist. by destruct (load_allowlist_total (allowlist_file fs)) as [a ->].
Qed.

Lemma tick_agent_start E fs :
  Agent.tick E (start fs) =
  protected Agent.try_suite Agent.handler E (with_state (loaded fs) (start fs)).
Proof.
  unfold Agent.tick, protected, bind, read_state. store_simpl.
  by rewrite load_state_loaded.
Qed.

Lemma tick_image_start E fs :
  Image.agent_tick E (start fs) =
  protected (Image.try_suite (loaded_allowlist fs)) Image.handler E
    (with_state (loaded fs) (start fs)).
Proof.
  unfold Image.agent_tick, protected, bind, read_state, read_allowlist. store_simpl.
  by rewrite load_state_loaded, load_allowlist_loaded.
Qed.

Lemma suite_agent E σ r σ' :
  Agent.try_suite E σ = (r, σ') → suite_ok (λ _, true) E σ r σ'.
Proof.
  rewrite try_suite_agent.
  apply (suite_summary (λ _ _, true) (λ roles, for_each role_names (Agent.loop_body roles))).
  intros roles E' σ1 r1 σ2 H. by apply loop_agent in H.
Qed.

Lemma suite_image a E σ r σ' :
  Image.try_suite a E σ = (r, σ') → suite_ok (λ k, negb (failsafe E a k)) E σ r σ'.
Proof.
  rewrite try_suite_image.
  apply (suite_summary (λ E k, negb (failsafe E a k))
           (λ roles, for_each role_names (Image.loop_body a roles))).
  intros roles E' σ1 r1 σ2 H. by apply loop_image in H as [? _].
Qed.

Lemma requests_not_write {A} (r : result A) new :
  requests_of r new → Forall (λ ev, is_write ev = false) new.
Proof.
  assert (Hs : ∀ l, Forall succeeded l → Forall (λ ev, is_write ev = false) l).
  { intros l Hl. eapply Forall_impl; [exact Hl|]. by intros []. }
  intros [r' l H|e pre ev Hpre Hev]; [by apply Hs|].
  apply Forall_app. split; [by apply Hs|]. constructor; [|done]. by destruct ev.
Qed.

Lemma protected_justified guard body handler E σ r σ' :
  (∀ E σ r σ', body E σ = (r, σ') → suite_ok (guard E) E σ r σ') →
  error_handler handler →
  protected body handler E σ = (r, σ') →
  ∃ new, trace σ' = trace σ ++ new ∧ Forall (justified (guard E) E) new.
Proof.
  intros Hb Hh H. apply protected_inv in H as (r1 & σ1 & H1 & H); [|done].
  apply (Hb E) in H1 as (_ & _ & _ & _ & new & Ht & HP & _).
  destruct r1 as [[]|e].
  - destruct H as [_ ->]. exists (new ++ [Wrote STATE_PATH (state σ1)]).
    simpl. rewrite Ht, <- app_assoc. split; [done|].
    apply Forall_app. split; [done|]. by repeat constructor.
  - destruct H as (item & c & _ & H).
    destruct (appended "alerts" item (state σ1)) as [s2|e']; destruct H as [_ ->]; simpl.
    + exists (new ++ [Caught e; Wrote STATE_PATH s2]).
      rewrite Ht, <- !app_assoc. split; [done|].
      apply Forall_app. split; [done|]. by repeat constructor.
    + exists (new ++ [Caught e]).
      rewrite Ht, <- !app_assoc. split; [done|].
      apply Forall_app. split; [done|]. by repeat constructor.
Qed.

Lemma protected_saves guard body handler E σ r σ' :
  (∀ E σ r σ', body E σ = (r, σ') → suite_ok (guard E) E σ r σ') →
  error_handler handler →
  protected body handler E σ = (r, σ') →
  outside tracked (state σ) (state σ') ∧
  (appendable_at "alerts" (state σ) = true ∨ (∀ e, Caught e ∉ trace σ') →
   r = Ok tt ∧ disk σ' = save_state (state σ') (disk σ) ∧
   ∃ before, trace σ' = trace σ ++ before ++ [Wrote STATE_PATH (state σ')] ∧
             Forall (λ ev, is_write ev = false) before).
Proof.
  intros Hb Hh H. apply protected_inv in H as (r1 & σ1 & H1 & H); [|done].
  apply (Hb E) in H1 as Hs. pose proof (suite_keeps_appendable _ _ _ _ _ Hs) as Hkeep.
  destruct Hs as (Hd & Ho & _ & _ & new & Ht & _ & Hq & _).
  apply requests_not_write in Hq.
  destruct r1 as [[]|e].
  - destruct H as [-> ->]. simpl. split; [done|]. intros _.
    split; [done|]. split; [by rewrite Hd|]. exists new. by rewrite Ht, <- app_assoc.
  - destruct H as (item & c & _ & H).
    destruct (appended "alerts" item (state σ1)) as [s2|e'] eqn:Happ; destruct H as [-> ->]; simpl.
    + apply appended_outside in Happ as (Ho2 & _ & _).
      split. { eapply outside_trans; [done|]. eapply outside_mono; [|done].
               unfold tracked. set_solver. }
      intros _. split; [done|]. split; [by rewrite Hd|].
      exists (new ++ [Caught e]). rewrite Ht, <- !app_assoc. split; [done|].
      apply Forall_app. split; [done|]. by repeat constructor.
    + split; [done|]. intros [Happ'|Hno].
      * apply appended_Raise in Happ. rewrite Hkeep in Happ; done.
      * exfalso. apply (Hno e). set_solver.
Qed.

Lemma succeeded_not_failed ev : succeeded ev → failed ev → False.
Proof. destruct ev; simpl; congruence. Qed.

Lemma protected_failure guard body handler E σ r σ' :
  (∀ E σ r σ', body E σ = (r, σ') → suite_ok (guard E) E σ r σ') →
  error_handler handler →
  protected body handler E σ = (r, σ') →
  trace σ = [] →
  appendable_at "alerts" (state σ) = true →
  (∃ ev, ev ∈ trace σ' ∧ failed ev) →
  r = Ok tt ∧
  ∃ calls ev e item,
    trace σ' = calls ++ [ev; Caught e; Wrote STATE_PATH (state σ')] ∧
    Forall succeeded calls ∧ failed ev ∧
    disk σ' = save_state (state σ') (disk σ) ∧
    entry item "level" = Some (PStr "error") ∧
    entry (state σ') "alerts" = Some (PList (last_n 200 (alerts (state σ) ++ [item]))) ∧
    entry (state σ') "last_run" = entry (state σ) "last_run".
Proof.
  intros Hb Hh H Hnil Happ0 (ev & Hin & Hev).
  apply protected_inv in H as (r1 & σ1 & H1 & H); [|done].
  apply (Hb E) in H1 as Hs. pose proof (suite_keeps_appendable _ _ _ _ _ Hs Happ0) as Hkeep.
  destruct Hs as (Hd & Ho & _ & Hlast & new & Ht & _ & Hq & Hal).
  rewrite Hnil in Ht. simpl in Ht.
  assert (Hnew : ∀ tail, Forall (λ x, ¬ failed x) tail → ev ∈ new ++ tail → ev ∈ new).
  { intros tail Htail [?|Hin']%elem_of_app; [done|].
    rewrite Forall_forall in Htail. by destruct (Htail _ Hin'). }
  assert (Hsplit : ev ∈ new → ∃ pre ev' e, r1 = Raise e ∧ new = pre ++ [ev'] ∧
                                  Forall succeeded pre ∧ failed ev').
  { intros Hin'. destruct Hq as [r' l Hl|e pre ev' Hpre Hev'].
    - rewrite Forall_forall in Hl. destruct (succeeded_not_failed ev); auto.
    - eauto 10. }
  destruct r1 as [[]|e].
  - destruct H as [-> ->]. simpl in Hin. rewrite Ht in Hin.
    apply Hnew in Hin; [|constructor; [intros []|constructor]].
    by destruct (Hsplit Hin) as (? & ? & ? & ? & _).
  - destruct H as (item & c & Hlvl & H).
    destruct (appended "alerts" item (state σ1)) as [s2|e'] eqn:Happ.
    2:{ apply appended_Raise in Happ. congruence. }
    destruct H as [-> ->]. simpl in *. rewrite Ht, <- app_assoc in Hin.
    apply (Hnew [Caught e; Wrote STATE_PATH s2]) in Hin.
    2:{ constructor; [intros []|]. constructor; [intros []|constructor]. }
    destruct (Hsplit Hin) as (pre & ev' & e0 & _ & -> & Hpre & Hev').
    split; [done|]. exists pre, ev', e, item.
    rewrite Ht. split; [by rewrite <- !app_assoc|]. split; [done|]. split; [done|].
    split; [by rewrite Hd|]. split; [done|].
    apply appended_outside in Happ as (Ho2 & _ & Hen). split.
    + rewrite Hen. destruct Hal as [Hal|(Hall & _)].
      * unfold alerts. by rewrite Hal.
      * apply Forall_app in Hall as [_ Hall]. inversion Hall; subst.
        by destruct (succeeded_not_failed ev').
    + rewrite (outside_entry ["alerts"] "last_run" (state σ1)) by (done || set_solver).
      by apply Hlast.
Qed.

Lemma state_of_down_truthy c st : state_of c = Ok st → down st = true → truthy c = true.
Proof.
  destruct c as [| | | | | |d]; try discriminate. unfold state_of, py_get; simpl.
  destruct (d !! "State") as [v|] eqn:Hs; simpl.
  - intros _ _. destruct (map_to_list d) eqn:Hl; [|done].
    apply map_to_list_empty_iff in Hl. subst. by rewrite lookup_empty in Hs.
  - by intros [= <-].
Qed.

Lemma suite_failsafe a E σ σ' containers roles st :
  Image.try_suite a E σ = (Ok tt, σ') →
  ARMED_MODE E = true → failsafe E a "miningcore" = true →
  containers_reply E = Ok containers → classify containers = Ok roles →
  state_of (role roles "miningcore") = Ok st → down st = true →
  ∃ ts, entry (state σ') "alerts" =
        Some (PList (last_n 200 (alerts (state σ) ++ [critical ts]))).
Proof.
  rewrite try_suite_image. intros H Harm Hfs Hc Hr Hst Hdown.
  apply suite_inv in H as (ok & s1 & Ho1 & H).
  destruct H as [[[e [=]] _]|(-> & Hd1 & containers' & roles' & r2 & σ2 & Hc' & Hr' & Hl & H)].
  rewrite Hc in Hc'. injection Hc' as <-. rewrite Hr in Hr'. injection Hr' as <-.
  rewrite Harm in Hl. destruct r2 as [[]|e]; [|by destruct H].
  apply loop_image in Hl as [_ Hl].
  destruct Hl as (ts & _ & Hen); eauto using state_of_down_truthy.
  exists ts. store_simpl in Hen.
  assert (Ha1 : alerts s1 = alerts (state σ)).
  { unfold alerts. by rewrite (outside_entry ["intel"] "alerts" (state σ)) by (done || set_solver). }
  rewrite Ha1 in Hen.
  destruct (py_setitem (state σ2) "last_run" _) as [s3|e] eqn:Hs3; [|by destruct H].
  destruct H as [_ ->]. store_simpl.
  apply py_setitem_outside in Hs3 as [Ho3 _].
  by rewrite (outside_entry ["last_run"] "alerts" (state σ2)) by (done || set_solver).
Qed.



(** *** Substrings *)

Lemma starts_with_spec k s : starts_with k s = true ↔ ∃ post, s = k +:+ post.
Proof.
  revert s. induction k as [|a k IH]; intros s; simpl.
  - split; [eauto|done].
  - destruct s as [|b s].
    + split; [done|]. by intros [post [=]].
    + destruct (Ascii.eqb_spec a b) as [->|Hne].
      * rewrite IH. split; intros [post H]; exists post; [by rewrite H|by injection H].
      * split; [done|]. intros [post [=]]. congruence.
Qed.

Lemma contains_spec k s : contains k s = true ↔ substring k s.
Proof.
  induction s as [|b s IH].
  - simpl. rewrite orb_false_r, starts_with_spec. split.
    + intros [post H]. by exists "", post.
    + intros (pre & post & H). destruct pre; [by exists post|done].
  - cbn [contains]. rewrite orb_true_iff, starts_with_spec, IH. split.
    + intros [[post H]|(pre & post & H)].
      * by exists "", post.
      * exists (String b pre), post. by rewrite H.
    + intros (pre & post & H). destruct pre as [|c pre].
      * left. by exists post.
      * right. injection H as -> H. by exists pre, post.
Qed.

(** *** Classification, in the words of the specification *)

Lemma any_in_spec keys s : any_in keys s = true ↔ ∃ k, k ∈ keys ∧ substring k s.
Proof.
  unfold any_in. rewrite existsb_exists. setoid_rewrite contains_spec.
  by setoid_rewrite <- list_elem_of_In.
Qed.

Lemma substring_empty k : k ≠ "" → ¬ substring k "".
Proof.
  intros Hk (pre & post & H). destruct pre; [|done]. destruct k; [done|done].
Qed.

Lemma name_of_listed keys c :
  listed c = true → Forall (λ k, k ≠ "") keys →
  ∃ n, name_of c = Ok n ∧ (any_in keys n = true ↔ keyword_in keys (first_name c)).
Proof.
  unfold listed, name_of, first_name, py_get. destruct c as [| | | | | |d]; try done.
  simpl. intros H Hk.
  assert (Hempty : any_in keys "" = true ↔ keyword_in keys None).
  { rewrite any_in_spec. split.
    - intros (k & Hin & Hs). rewrite Forall_forall in Hk.
      by destruct (substring_empty k (Hk _ Hin)).
    - by intros (k & s & _ & [=] & _). }
  destruct (d !! "Names") as [[| | | | |[|[] l]|]|]; try done; simpl;
    try (by exists ""); try (by destruct (d !! "Image") as [[]|]).
  exists (lower s). split; [done|]. rewrite any_in_spec. split.
  - intros (k & ? & ?). by exists k, (lower s).
  - intros (k & s' & ? & [= <-] & ?). by exists k.
Qed.

Lemma image_of_listed keys c :
  listed c = true → Forall (λ k, k ≠ "") keys →
  ∃ i, image_of c = Ok i ∧ (any_in keys i = true ↔ keyword_in keys (image c)).
Proof.
  unfold listed, image_of, image, py_get. destruct c as [| | | | | |d]; try done.
  simpl. intros H Hk. apply andb_prop in H as [_ H].
  assert (Hempty : any_in keys "" = true ↔ keyword_in keys None).
  { rewrite any_in_spec. split.
    - intros (k & Hin & Hs). rewrite Forall_forall in Hk.
      by destruct (substring_empty k (Hk _ Hin)).
    - by intros (k & s & _ & [=] & _). }
  destruct (d !! "Image") as [[| | | |s| |]|]; try done; simpl; try (by exists "").
  exists (lower s). split; [by destruct s|]. rewrite any_in_spec. split.
  - intros (k & ? & ?). by exists k, (lower s).
  - intros (k & s' & ? & [= <-] & ?). by exists k.
Qed.

Lemma scan_first_match keys containers :
  Forall (λ c, listed c = true) containers → Forall (λ k, k ≠ "") keys →
  ∃ res, scan keys containers = Ok res ∧ first_match keys containers res.
Proof.
  intros Hl Hk. induction Hl as [|c cs Hc Hcs IH].
  - exists PNone. split; [done|]. right. by split.
  - destruct (name_of_listed keys c Hc Hk) as (n & Hn & Hnm).
    destruct (image_of_listed keys c Hc Hk) as (i & Hi & Him).
    cbn [scan]. rewrite Hn, Hi. cbn [rbind].
    destruct (any_in keys n || any_in keys i) eqn:Hany.
    + exists c. split; [done|]. left. exists [], c, cs. split; [done|]. split; [done|].
      split; [|constructor]. apply orb_true_iff in Hany as [?|?]; [left|right]; tauto.
    + apply orb_false_iff in Hany as [Hf1 Hf2].
      assert (Hno : ¬ matches keys c).
      { intros [?|?]; [rewrite <- Hnm in *|rewrite <- Him in *]; congruence. }
      destruct IH as (res & Hres & Hspec). exists res. split; [done|].
      destruct Hspec as [(before & c' & after & -> & -> & Hm & Hb)|[-> Hall]].
      * left. exists (c :: before), c', after. repeat split; auto.
      * right. split; [done|]. by constructor.
Qed.


(** * The claims *)

(** ** C1 *)

Lemma failsafe_on E a :
  FAILSAFE_STOP_MINING E = true → has_allowlist a = false →
  failsafe E a "miningcore" = true.
Proof. intros H1 H2. unfold failsafe. by rewrite H1, H2. Qed.

(** C1 (as amended).  In a tick of version 0.1.2 with the agent armed, the
    failsafe on, no allowed address in the loaded allowlist and the container
    classified as miningcore in state "exited" or "dead", no restart request
    is sent for the role miningcore; and when no exception reaches the
    handler of the tick, the state that is written back has, as the last of
    its alerts, the critical alert of the failsafe. *)
Theorem C1_failsafe_refuses_restart (E : env) (fs : files) (a : Allowlist)
    (containers : py) (roles : list (string * py)) (st : string) :
  ARMED_MODE E = true →
  FAILSAFE_STOP_MINING E = true →
  load_allowlist (allowlist_file fs) = Ok a →
  has_allowlist a = false →
  containers_reply E = Ok containers →
  classify containers = Ok roles →
  state_of (role roles "miningcore") = Ok st →
  down st = true →
  let out := Image.agent_tick E (start fs) in
  (∀ id ok, Restarted "miningcore" id ok ∉ trace out.2) ∧
  ((∀ e, Caught e ∉ trace out.2) →
   out.1 = Ok tt ∧
   state_file (disk out.2) = Holds (state out.2) ∧
   ∃ ts, entry (state out.2) "alerts" =
         Some (PList (last_n 200 (alerts (loaded fs) ++ [critical ts])))).
Proof.
  intros Harm Hfs Hload Hno Hc Hr Hst Hdown out.
  assert (Ha : loaded_allowlist fs = a) by (unfold loaded_allowlist; by rewrite Hload).
  pose proof (failsafe_on E a Hfs Hno) as Hon.
  subst out. rewrite tick_image_start, Ha.
  destruct (protected _ _ E _) as [r σ'] eqn:H. cbn [fst snd]. split.
  - intros id ok Hin.
    eapply (protected_justified (λ E k, negb (failsafe E a k)))
      in H as (new & Ht & HP); [|intros; by apply suite_image|apply handler_image].
    rewrite Ht in Hin. simpl in Hin. rewrite Forall_forall in HP.
    apply HP in Hin as (_ & _ & _ & _ & _ & _ & _ & Hg). by rewrite Hon in Hg.
  - intros Hnone. apply protected_inv in H as (r1 & σ1 & H1 & H); [|apply handler_image].
    destruct r1 as [[]|e].
    + destruct H as [-> ->]. split; [done|]. split; [done|]. simpl.
      eapply suite_failsafe in H1 as [ts Hts]; [|done..]. by exists ts.
    + exfalso. destruct H as (item & c & _ & H).
      destruct (appended "alerts" item (state σ1)); destruct H as [_ ->];
        apply (Hnone e); simpl; set_solver.
Qed.

(** The tick of the image on [miner_down]: an exited miner, no address allowed. *)
Lemma C1_failsafe_example :
  let out := Image.agent_tick miner_down (start no_files) in
  (∀ id ok, Restarted "miningcore" id ok ∉ trace out.2) ∧
  out.1 = Ok tt ∧
  state_file (disk out.2) = Holds (state out.2) ∧
  ∃ ts, entry (state out.2) "alerts" = Some (PList [critical ts]).
Proof.
  assert (Hroles : ∃ roles, classify (PList [bch_node; miner]) = Ok roles ∧
                            state_of (role roles "miningcore") = Ok "exited").
  { eexists. split; by vm_compute. }
  destruct Hroles as (roles & Hr & Hst).
  destruct (C1_failsafe_refuses_restart miner_down no_files Allowlist_default
              (PList [bch_node; miner]) roles "exited"
              eq_refl eq_refl eq_refl eq_refl eq_refl Hr Hst eq_refl) as [H1 H2].
  simpl. split; [exact H1|]. apply H2.
  intros e Hin. vm_compute in Hin.
  repeat (apply elem_of_cons in Hin as [Hin|Hin]; [discriminate Hin|]).
  by apply elem_of_nil in Hin.
Defined.

(** C1 fails as stated: when the restart of the Bitcoin node is refused, the
    tick ends before it reaches the role miningcore, and the only alert it
    appends is the error of the handler. *)
Lemma C1_no_critical_alert_after_failure :
  let out := Image.agent_tick restarts_refused (start no_files) in
  ARMED_MODE restarts_refused = true ∧
  FAILSAFE_STOP_MINING restarts_refused = true ∧
  has_allowlist (loaded_allowlist no_files) = false ∧
  (∃ roles, classify (PList [btc_node; miner]) = Ok roles ∧
            role roles "miningcore" = miner ∧
            state_of (role roles "miningcore") = Ok "exited") ∧
  trace out.2 = [Listed true; Restarted "btc" (PStr "b1") false;
                 Caught (RuntimeError "Restart failed: 500 port is already allocated");
                 Wrote STATE_PATH (state out.2)] ∧
  (λ x, entry x "level") <$> alerts (state out.2) = [Some (PStr "error")].
Proof.
  simpl. split; [done|]. split; [done|]. split; [by vm_compute|].
  split. { eexists. split; [by vm_compute|]. split; by vm_compute. }
  split; by vm_compute.
Qed.

(** ** C2 *)

Lemma justified_restart guard E ev : justified guard E ev → restart_justified E ev.
Proof.
  destruct ev; try done. simpl.
  intros (Harm & containers & roles & Hc & Hr & Hk & (Ht & Hid & st & Hst & Hd) & _).
  split; [done|]. by exists containers, roles, st.
Qed.

Lemma ticks_justified (E : env) (fs : files) :
  Forall (restart_justified E) (trace (Agent.tick E (start fs)).2) ∧
  Forall (restart_justified E) (trace (Image.agent_tick E (start fs)).2).
Proof.
  split.
  - rewrite tick_agent_start.
    destruct (protected _ _ E _) as [r σ'] eqn:H. cbn [snd].
    eapply (protected_justified (λ _ _, true)) in H as (new & Ht & HP);
      [|intros; by apply suite_agent|apply handler_agent].
    rewrite Ht. simpl. eapply Forall_impl; [exact HP|]. apply justified_restart.
  - rewrite tick_image_start.
    destruct (protected _ _ E _) as [r σ'] eqn:H. cbn [snd].
    eapply (protected_justified (λ E k, negb (failsafe E (loaded_allowlist fs) k)))
      in H as (new & Ht & HP); [|intros; by apply suite_image|apply handler_image].
    rewrite Ht. simpl. eapply Forall_impl; [exact HP|]. apply justified_restart.
Qed.

Lemma not_armed_no_restart (E : env) (l : list event) :
  Forall (restart_justified E) l → ARMED_MODE E = false →
  Forall (λ ev, is_restart ev = false) l.
Proof.
  intros H Hoff. eapply Forall_impl; [exact H|].
  intros []; simpl; try done. intros [? _]. congruence.
Qed.

(** C2.  In both versions, every restart request of a tick is sent with the
    agent armed, for one of the four roles, with the id of the container that
    [classify] gave to that role, whose state, lower-cased, is "exited" or
    "dead"; so a tick of an agent that is not armed sends none. *)
Theorem C2_restarts_are_justified (E : env) (fs : files) :
  Forall (restart_justified E) (trace (Agent.tick E (start fs)).2) ∧
  Forall (restart_justified E) (trace (Image.agent_tick E (start fs)).2) ∧
  (ARMED_MODE E = false →
   Forall (λ ev, is_restart ev = false) (trace (Agent.tick E (start fs)).2) ∧
   Forall (λ ev, is_restart ev = false) (trace (Image.agent_tick E (start fs)).2)).
Proof.
  destruct (ticks_justified E fs) as [H1 H2]. split; [done|]. split; [done|].
  intros Hoff. split; by eapply not_armed_no_restart.
Qed.

(** ** C3 *)

Lemma last_n_length {A} n (l : list A) : length (last_n n l) = (length l `min` n)%nat.
Proof. unfold last_n. rewrite length_drop. lia. Qed.

Lemma run_op_appended op E σ :
  run_op op E σ =
  match appended (op_key op) (op_item op (time_at E (clock σ))) (state σ) with
  | Ok s' => (Ok tt, match op with
                     | Push _ _ => with_state s' σ
                     | _ => tick_clock (with_state s' σ)
                     end)
  | Raise e => (Raise e, σ)
  end.
Proof.
  destruct op; simpl.
  - rewrite push_eq. unfold update. by destruct (appended _ _ _).
  - by rewrite action_log_eq.
  - by rewrite alert_eq.
Qed.

Lemma run_op_outcome op E σ :
  append_outcome op (state σ) (run_op op E σ).1 (state (run_op op E σ).2).
Proof.
  unfold append_outcome. rewrite run_op_appended.
  destruct (appended (op_key op) (op_item op (time_at E (clock σ))) (state σ))
    as [s'|e] eqn:Hs'.
  - rewrite (appended_appendable _ _ _ _ Hs').
    apply appended_outside in Hs' as ([_ Ho] & _ & Hen). cbn [fst snd].
    assert (state (match op with
                   | Push _ _ => with_state s' σ
                   | _ => tick_clock (with_state s' σ)
                   end) = s') as -> by (by destruct op).
    split; [done|]. split.
    + split; [|intros k Hne; apply Ho; set_solver].
      exists (time_at E (clock σ)). by rewrite Hen.
    + intros k Hk. destruct (decide (k = op_key op)) as [->|Hne].
      * rewrite Hen. simpl. apply Nat.leb_le. rewrite last_n_length. lia.
      * destruct Hk as [Hk|Hk]; [done|]. rewrite Ho by set_solver. done.
  - rewrite (appended_Raise _ _ _ _ Hs'). cbn [fst snd]. split; [|done].
    apply appended_Raise_attribute in Hs' as [msg ->]. eauto.
Qed.

(** C3 (as amended).  Whatever the state, a log helper ([push], [action_log]
    or [alert]) either raises an [AttributeError] and leaves the state as it
    was, when the state is not a dict whose entry under the key of the helper
    is missing or a list, or it returns and leaves under its key the most
    recent 200 of the old entries followed by the new one, and every other
    key as it was.  So after each operation of a sequence the list appended
    to holds at most 200 entries, and a list that held at most 200 still
    does; a list that is not appended to is not cut. *)
Theorem C3_logs_stay_bounded (ops : list log_op) (E : env) (σ : store) :
  each_append append_outcome ops E σ.
Proof.
  revert σ. induction ops as [|op ops IH]; intros σ; [done|].
  cbn [each_append]. split; [apply run_op_outcome|apply IH].
Qed.

(** Three appends to a state that holds 201 actions: the first one drops the
    two oldest, and the actions hold 200 entries from then on. *)
Lemma C3_logs_stay_bounded_example :
  length (list_at long_actions "actions") = 201%nat ∧
  each_append append_outcome three_appends idle (with_state long_actions (start no_files)) ∧
  length (list_at (state (run_ops three_appends idle
                            (with_state long_actions (start no_files))).2) "actions")
    = 200%nat ∧
  length (list_at (state (run_ops three_appends idle
                            (with_state long_actions (start no_files))).2) "alerts")
    = 1%nat.
Proof.
  split; [by vm_compute|]. split; [|by vm_compute].
  apply (C3_logs_stay_bounded three_appends idle (with_state long_actions (start no_files))).
Defined.

(** C3 fails as stated: a state with 201 actions still has 201 actions after
    an append to its alerts. *)
Lemma C3_other_list_untouched :
  let out := Image.alert "info" "started" PNone idle (with_state long_actions (start no_files)) in
  out.1 = Ok tt ∧
  length (list_at (state out.2) "actions") = 201%nat ∧
  ¬ (length (list_at (state out.2) "actions") ≤ 200)%nat.
Proof.
  assert (H : length (list_at (state (Image.alert "info" "started" PNone idle
                (with_state long_actions (start no_files))).2) "actions") = 201%nat)
    by (by vm_compute).
  simpl. split; [by vm_compute|]. split; [done|]. rewrite H. lia.
Qed.

(** ** C4 *)

Lemma keys_not_empty :
  Forall (λ k, k ≠ "") btc_keys ∧ Forall (λ k, k ≠ "") bch_keys ∧
  Forall (λ k, k ≠ "") dgb_keys ∧ Forall (λ k, k ≠ "") miningcore_keys.
Proof. repeat split; by repeat constructor. Qed.

Lemma classify_listed containers :
  Forall (λ c, listed c = true) containers →
  ∃ b c d m,
    classify (PList containers) = Ok [("btc", b); ("bch", c); ("dgb", d); ("miningcore", m)] ∧
    first_match btc_keys containers b ∧ first_match bch_keys containers c ∧
    first_match dgb_keys containers d ∧ first_match miningcore_keys containers m.
Proof.
  intros H. destruct keys_not_empty as (K1 & K2 & K3 & K4).
  destruct (scan_first_match btc_keys containers H K1) as (b & Hb & ?).
  destruct (scan_first_match bch_keys containers H K2) as (c & Hc & ?).
  destruct (scan_first_match dgb_keys containers H K3) as (d & Hd & ?).
  destruct (scan_first_match miningcore_keys containers H K4) as (m & Hm & ?).
  exists b, c, d, m. unfold classify, pick. cbn [py_iter rbind].
  by rewrite Hb, Hc, Hd, Hm.
Qed.

(** C4.  For containers as the Docker API lists them, [classify] returns,
    and gives each role the first container of the list whose first name or
    image, lower-cased, contains one of the keywords of the role, and [None]
    when there is no such container. *)
Theorem C4_classify_first_match (containers : list py) :
  Forall (λ c, listed c = true) containers →
  ∃ roles, classify (PList containers) = Ok roles ∧
    first_match btc_keys containers (role roles "btc") ∧
    first_match bch_keys containers (role roles "bch") ∧
    first_match dgb_keys containers (role roles "dgb") ∧
    first_match miningcore_keys containers (role roles "miningcore").
Proof.
  intros H. destruct (classify_listed containers H) as (b & c & d & m & Hr & ?).
  by exists [("btc", b); ("bch", c); ("dgb", d); ("miningcore", m)].
Qed.

(** A node and a miner, as the Docker API lists them. *)
Lemma C4_classify_example :
  Forall (λ c, listed c = true) [bch_node; miner; btc_node] ∧
  ∃ roles, classify (PList [bch_node; miner; btc_node]) = Ok roles ∧
    first_match btc_keys [bch_node; miner; btc_node] (role roles "btc") ∧
    first_match bch_keys [bch_node; miner; btc_node] (role roles "bch") ∧
    first_match dgb_keys [bch_node; miner; btc_node] (role roles "dgb") ∧
    first_match miningcore_keys [bch_node; miner; btc_node] (role roles "miningcore").
Proof.
  assert (H : Forall (λ c, listed c = true) [bch_node; miner; btc_node])
    by (by repeat constructor).
  split; [exact H|]. exact (C4_classify_first_match _ H).
Defined.

(** ** C5 *)

Lemma failure_recorded_protected guard body handler (tick : M unit) E fs :
  (∀ E σ r σ', body E σ = (r, σ') → suite_ok (guard E) E σ r σ') →
  error_handler handler →
  tick E (start fs) = protected body handler E (with_state (loaded fs) (start fs)) →
  appendable_at "alerts" (loaded fs) = true →
  failure_recorded tick E fs.
Proof.
  intros Hb Hh Htick Happ. unfold failure_recorded. rewrite Htick.
  destruct (protected _ _ E _) as [r σ'] eqn:H. cbn [fst snd]. intros Hfail.
  eapply protected_failure in H as (Hr & calls & ev & e & item & H); [|done..].
  split; [done|]. exists calls, ev, e, item.
  destruct H as (? & ? & ? & Hd & ? & ? & ?). repeat split; try done.
  by rewrite Hd.
Qed.

(** C5 (as amended).  When the loaded state is a dict whose "alerts" is
    missing or a list, a tick in which the listing or a restart request fails
    does this and nothing else: the requests that succeeded, the request that
    failed, one exception caught, one write of the state.  The failed request
    is not sent again, nothing is requested after it, "last_run" is left as
    it was, and the written state has the loaded alerts followed by one entry
    of level "error", cut to the last 200. *)
Theorem C5_failure_logged_once (E : env) (fs : files) :
  appendable_at "alerts" (loaded fs) = true →
  failure_recorded Agent.tick E fs ∧ failure_recorded Image.agent_tick E fs.
Proof.
  intros Happ. split.
  - eapply (failure_recorded_protected (λ _ _, true));
      [intros; by apply suite_agent|apply handler_agent|apply tick_agent_start|done].
  - eapply (failure_recorded_protected (λ E k, negb (failsafe E (loaded_allowlist fs) k)));
      [intros; by apply suite_image|apply handler_image|apply tick_image_start|done].
Qed.

(** A tick whose listing fails because the proxy is unreachable, and a tick
    whose restart is refused. *)
Lemma C5_failure_logged_example :
  appendable_at "alerts" (loaded no_files) = true ∧
  (∃ ev, ev ∈ trace (Image.agent_tick proxy_down (start no_files)).2 ∧ failed ev) ∧
  (Image.agent_tick proxy_down (start no_files)).1 = Ok tt ∧
  (Agent.tick restarts_refused (start no_files)).1 = Ok tt.
Proof.
  destruct (C5_failure_logged_once proxy_down no_files eq_refl) as [_ H2].
  destruct (C5_failure_logged_once restarts_refused no_files eq_refl) as [H1 _].
  assert (F2 : ∃ ev, ev ∈ trace (Image.agent_tick proxy_down (start no_files)).2 ∧ failed ev).
  { exists (Listed false). split; [|done]. vm_compute. apply list_elem_of_here. }
  assert (F1 : ∃ ev, ev ∈ trace (Agent.tick restarts_refused (start no_files)).2 ∧ failed ev).
  { exists (Restarted "btc" (PStr "b1") false). split; [|done].
    vm_compute. apply list_elem_of_further, list_elem_of_here. }
  split; [done|]. split; [exact F2|].
  split; [exact (proj1 (H2 F2))|exact (proj1 (H1 F1))].
Defined.

(** C5 fails as stated: with [null] under "alerts" in the state file, the
    handler raises when it appends its entry, the exception leaves the tick,
    and the state is not written. *)
Lemma C5_handler_can_raise :
  let out := Image.agent_tick proxy_down (start null_alerts) in
  out.1 = Raise (AttributeError "'NoneType' object has no attribute 'append'") ∧
  trace out.2 = [Listed false; Caught (TransportError "All connection attempts failed")] ∧
  disk out.2 = null_alerts.
Proof. simpl. split; [by vm_compute|]. split; by vm_compute. Qed.

(** ** C6 *)

Lemma saves_back_protected guard body handler (tick : M unit) E fs :
  (∀ E σ r σ', body E σ = (r, σ') → suite_ok (guard E) E σ r σ') →
  error_handler handler →
  tick E (start fs) = protected body handler E (with_state (loaded fs) (start fs)) →
  saves_back tick E fs.
Proof.
  intros Hb Hh Htick. unfold saves_back. rewrite Htick.
  destruct (protected _ _ E _) as [r σ'] eqn:H. cbn [fst snd].
  eapply protected_saves in H as ([_ Ho] & Hs); [|done..]. simpl in *.
  split; [done|]. intros Hcond. destruct (Hs Hcond) as (-> & Hd & before & Ht & Hw).
  split; [done|]. rewrite Hd. split; [done|]. split; [done|]. by exists before.
Qed.

(** C6 (as amended).  A tick starts from the state that [load_state] reads
    from the file and ends with a state that agrees with it on every key other
    than "last_run", "intel", "actions" and "alerts".  It writes that state
    back as its last step when no exception reaches its handler, and also
    after an exception when the loaded state is a dict whose "alerts" is
    missing or a list; it never writes the allowlist file. *)
Theorem C6_state_read_and_written_back (E : env) (fs : files) :
  saves_back Agent.tick E fs ∧ saves_back Image.agent_tick E fs.
Proof.
  split.
  - eapply (saves_back_protected (λ _ _, true));
      [intros; by apply suite_agent|apply handler_agent|apply tick_agent_start].
  - eapply (saves_back_protected (λ E k, negb (failsafe E (loaded_allowlist fs) k)));
      [intros; by apply suite_image|apply handler_image|apply tick_image_start].
Qed.

(** A state file with a key of its own, which the tick writes back as it was. *)
Lemma C6_written_back_example :
  appendable_at "alerts" (loaded kept_note) = true ∧
  (Image.agent_tick restarts_refused (start kept_note)).1 = Ok tt ∧
  entry (state (Image.agent_tick restarts_refused (start kept_note)).2) "note"
    = Some (PStr "rack 4") ∧
  state_file (disk (Image.agent_tick restarts_refused (start kept_note)).2)
    = Holds (state (Image.agent_tick restarts_refused (start kept_note)).2).
Proof.
  destruct (C6_state_read_and_written_back restarts_refused kept_note) as [_ [Hk Hs]].
  destruct (Hs (or_introl eq_refl)) as (Hok & Hfile & _).
  split; [done|]. split; [exact Hok|]. split; [|exact Hfile].
  rewrite Hk; [done|]. clear. unfold tracked. intros Hin.
  repeat (apply elem_of_cons in Hin as [Hin|Hin]; [discriminate Hin|]).
  by apply elem_of_nil in Hin.
Defined.

(** C6 fails as stated: on the error path, with [null] under "alerts" in the
    state file, the tick ends with an exception and the file still holds the
    old state, not the one the tick ends with. *)
Lemma C6_state_not_written_back :
  let out := Agent.tick restarts_refused (start null_alerts) in
  out.1 = Raise (AttributeError "'NoneType' object has no attribute 'append'") ∧
  Forall (λ ev, is_write ev = false) (trace out.2) ∧
  state_file (disk out.2) = state_file null_alerts ∧
  entry (state out.2) "intel" ≠ entry (loaded null_alerts) "intel".
Proof.
  simpl. split; [by vm_compute|]. split; [by vm_compute; repeat constructor|].
  split; [by vm_compute|]. by vm_compute.
Qed.

(** ** C7 *)


Lemma api_set_allowlist_image payload a E σ :
  model_validate payload = Ok a →
  allowlist_file (disk (Image.api_set_allowlist payload E σ).2) = Holds (model_dump a).
Proof.
  intros H. unfold Image.api_set_allowlist, bind, lift. rewrite H.
  unfold write_allowlist, read_state. store_simpl.
  destruct (load_state _) as [s|e]; [|done]. rewrite action_log_eq. store_simpl.
  by destruct (appended "actions" _ s).
Qed.




(** ** C8 *)



(** ** C9 *)

Lemma append_assoc s1 s2 s3 : (s1 +:+ s2) +:+ s3 = s1 +:+ (s2 +:+ s3).
Proof.
  induction s1 as [|a s1 IH]; [done|].
  change (String a ((s1 +:+ s2) +:+ s3) = String a (s1 +:+ s2 +:+ s3)). by rewrite IH.
Qed.

Lemma substring_trans k k' s : substring k k' → substring k' s → substring k s.
Proof.
  intros (p1 & q1 & ->) (p2 & q2 & ->). exists (p2 +:+ p1), (q1 +:+ q2).
  by rewrite !append_assoc.
Qed.

Lemma first_match_single keys c res :
  first_match keys [c] res → matches keys c → res = c.
Proof.
  intros [(before & c' & after & Heq & -> & _ & _)|[_ Hno]] Hm.
  - destruct before as [|x before]; [by injection Heq|].
    injection Heq as _ Heq. by destruct before.
  - by inversion Hno.
Qed.

(** C9.  A single listed container whose first name, lower-cased, contains
    "bitcoincash" is returned both for the role btc and for the role bch. *)
Theorem C9_roles_overlap (c : py) (n : string) :
  listed c = true → first_name c = Some n → substring "bitcoincash" n →
  ∃ roles, classify (PList [c]) = Ok roles ∧
           role roles "btc" = c ∧ role roles "bch" = c ∧ c ≠ PNone.
Proof.
  intros Hl Hn Hs.
  destruct (classify_listed [c]) as (b & c' & d & m & Hr & Hb & Hc & _).
  { by constructor. }
  exists [("btc", b); ("bch", c'); ("dgb", d); ("miningcore", m)]. split; [done|].
  apply first_match_single in Hb, Hc.
  - subst. repeat split; try done. intros ->. by vm_compute in Hl.
  - left. exists "bitcoincash", n. split; [|done]. unfold bch_keys. set_solver.
  - left. exists "bitcoin", n. split; [unfold btc_keys; set_solver|]. split; [done|].
    eapply substring_trans; [|done]. by exists "", "cash".
Qed.

(** The container named "/bitcoincash-node". *)
Lemma C9_roles_overlap_example :
  listed bch_node = true ∧ first_name bch_node = Some "/bitcoincash-node" ∧
  substring "bitcoincash" "/bitcoincash-node" ∧
  ∃ roles, classify (PList [bch_node]) = Ok roles ∧
           role roles "btc" = bch_node ∧ role roles "bch" = bch_node ∧ bch_node ≠ PNone.
Proof.
  assert (H : substring "bitcoincash" "/bitcoincash-node") by (by exists "/", "-node").
  split; [done|]. split; [done|]. split; [exact H|].
  exact (C9_roles_overlap bch_node "/bitcoincash-node" eq_refl eq_refl H).
Defined.

(** ** C10 *)

(** C10.  When the restart request gets a response, [docker_restart] returns
    for the status codes 204 and 304 and raises for every other one. *)
Theorem C10_restart_status (E : env) (σ : store) (k : string) (id : py)
    (code : Z) (text : string) :
  restart_reply E (length (trace σ)) id = Response code text →
  (raised (Agent.docker_restart k id E σ).1 = true ↔ code ≠ 204 ∧ code ≠ 304) ∧
  (raised (Image.docker_restart k id E σ).1 = true ↔ code ≠ 204 ∧ code ≠ 304) ∧
  (code = 204 ∨ code = 304 →
   (Agent.docker_restart k id E σ).1 = Ok tt ∧ (Image.docker_restart k id E σ).1 = Ok tt).
Proof.
  intros H. unfold Agent.docker_restart, Image.docker_restart, restart_request.
  rewrite H. destruct (Z.eqb_spec code 204) as [->|H1]; simpl.
  - repeat split; try done; intros; lia.
  - destruct (Z.eqb_spec code 304) as [->|H2]; simpl.
    + repeat split; try done; intros; lia.
    + repeat split; try done; intros; lia.
Qed.

(** A restart answered with the status 500. *)
Lemma C10_restart_status_example :
  restart_reply restarts_refused (length (trace (start no_files))) (PStr "b1")
    = Response 500 "port is already allocated" ∧
  (Image.docker_restart "btc" (PStr "b1") restarts_refused (start no_files)).1
    = Raise (RuntimeError "Restart failed: 500 port is already allocated") ∧
  raised (Agent.docker_restart "btc" (PStr "b1") restarts_refused (start no_files)).1 = true.
Proof.
  split; [done|]. split; [done|].
  apply (C10_restart_status restarts_refused (start no_files) "btc" (PStr "b1")
           500 "port is already allocated"); [done|lia].
Defined.

(** * Further properties *)

(** ** The allowlist file and its validation *)

Lemma as_str_list_Some v l : as_str_list v = Some l → v = dump_addresses l.
Proof.
  destruct v as [| | | | |l0|]; try discriminate. simpl. unfold dump_addresses.
  intros H. f_equal. apply mapM_Some in H.
  induction H as [|x s l0 l Hx H IH]; [done|].
  destruct x; try discriminate. injection Hx as ->. simpl. by rewrite IH.
Qed.

Lemma as_entry_Some v m : as_entry v = Some m ↔ v = dump_entry m.
Proof.
  split; [|intros ->; apply as_entry_dump].
  destruct v as [| | | | | |d]; try discriminate. simpl.
  destruct (decide _) as [Hall|]; [|done]. intros [= <-]. unfold dump_entry. f_equal.
  apply map_eq. intros k. rewrite lookup_fmap, lookup_omap.
  destruct (d !! k) as [x|] eqn:Hk; [|done]. simpl.
  destruct (Hall k x Hk) as [l Hl]. rewrite Hl. simpl. f_equal.
  by apply as_str_list_Some.
Qed.

Lemma field_spec d name m : field d name = Ok m ↔ field_holds (d !! name) m.
Proof.
  unfold field, field_holds. destruct (d !! name) as [v|].
  - rewrite <- as_entry_Some. destruct (as_entry v); split; congruence.
  - split; congruence.
Qed.

Lemma model_validate_fields (payload : py) (a : Allowlist) :
  model_validate payload = Ok a ↔
  ∃ d, payload = PDict d ∧ field_holds (d !! "btc") (btc a) ∧
       field_holds (d !! "bch") (bch a) ∧ field_holds (d !! "dgb") (dgb a).
Proof.
  split.
  - destruct payload as [| | | | | |d]; try discriminate. simpl. intros H. exists d.
    split; [done|]. rewrite <- !field_spec.
    destruct (field d "btc") as [x|]; [|done]. destruct (field d "bch") as [y|]; [|done].
    destruct (field d "dgb") as [z|]; [|done]. simpl in H. by injection H as <-.
  - intros (d & -> & H1 & H2 & H3). apply field_spec in H1, H2, H3. simpl.
    rewrite H1, H2, H3. simpl. by destruct a.
Qed.

Lemma load_allowlist_cases (f : file) :
  load_allowlist f =
  Ok match f with
     | Holds doc =>
         match model_validate (por doc (PDict ∅)) with
         | Ok a => a
         | Raise _ => Allowlist_default
         end
     | _ => Allowlist_default
     end.
Proof.
  destruct f as [| |doc]; try done. unfold load_allowlist. simpl.
  by destruct (model_validate _).
Qed.



(** X2.  [Allowlist.model_validate] accepts a payload exactly when it is a
    dict in which each of btc, bch and dgb is missing or a dict of lists of
    strings; the allowlist then has the default for a field that is missing
    and the entry as it is otherwise, and the other keys are ignored. *)
Theorem X2_model_validate_accepts (payload : py) (a : Allowlist) :
  model_validate payload = Ok a ↔
  ∃ d, payload = PDict d ∧ field_holds (d !! "btc") (btc a) ∧
       field_holds (d !! "bch") (bch a) ∧ field_holds (d !! "dgb") (dgb a).
Proof. apply model_validate_fields. Qed.

(** X3.  One entry of the wrong type loses the whole file.  For a file made
    of JSON's kinds of value (mappings with string keys, sequences, strings,
    numbers, booleans and null: the values of [py]): when the file holds a
    dict in which btc, bch or dgb is present and is not a dict of lists of
    strings, [load_allowlist] returns the default allowlist, whatever the
    other entries hold, and [has_allowlist] is false of it.  (A YAML set or
    binary, which pydantic would convert, is no such value.) *)
Theorem X3_one_bad_field_resets (d : gmap string py) (name : string) (v : py) :
  name ∈ ["btc"; "bch"; "dgb"] → d !! name = Some v →
  (∀ m, v ≠ dump_entry m) →
  load_allowlist (Holds (PDict d)) = Ok Allowlist_default ∧
  has_allowlist Allowlist_default = false.
Proof.
  intros Hn Hv Hbad. split; [|done]. rewrite load_allowlist_cases.
  assert (Ht : truthy (PDict d) = true).
  { apply truthy_dict. intros ->. by rewrite lookup_empty in Hv. }
  unfold por. rewrite Ht.
  destruct (model_validate (PDict d)) as [a|e] eqn:Ha; [|done].
  apply model_validate_fields in Ha as (d' & [= <-] & H1 & H2 & H3).
  exfalso. repeat (apply elem_of_cons in Hn as [->|Hn]);
    [rewrite Hv in H1; by apply (Hbad (btc a))
    |rewrite Hv in H2; by apply (Hbad (bch a))
    |rewrite Hv in H3; by apply (Hbad (dgb a))
    |by apply elem_of_nil in Hn].
Qed.

(** The addresses under btc are lost with the slip under dgb. *)
Lemma X3_one_bad_field_example :
  slip_under_dgb !! "dgb" = Some (PStr "none yet") ∧
  load_allowlist (Holds (PDict slip_under_dgb)) = Ok Allowlist_default ∧
  has_allowlist Allowlist_default = false.
Proof.
  split; [by vm_compute|].
  apply (X3_one_bad_field_resets slip_under_dgb "dgb" (PStr "none yet")).
  - apply list_elem_of_further, list_elem_of_further, list_elem_of_here.
  - by vm_compute.
  - intros m. discriminate.
Defined.


Lemma some_address_count m : some_address m = false ↔ Image.count m = PInt 0.
Proof.
  unfold some_address, Image.count. destruct (m !! "allowed_addresses") as [[|x l]|]; simpl;
    split; done.
Qed.

(** X5.  [has_allowlist] is false exactly when the three counts that
    POST /api/allowlist of 0.1.2 logs are zero: an address counts only under
    the key "allowed_addresses". *)
Theorem X5_has_allowlist_counts (a : Allowlist) :
  has_allowlist a = false ↔
  Image.count (btc a) = PInt 0 ∧ Image.count (bch a) = PInt 0 ∧ Image.count (dgb a) = PInt 0.
Proof.
  unfold has_allowlist. rewrite !orb_false_iff, !some_address_count. tauto.
Qed.

Lemma blind_ret {A} (a : A) : blind (ret a).
Proof. done. Qed.

Lemma blind_lift {A} (x : result A) : blind (lift x).
Proof. done. Qed.

Lemma blind_ask {A} (f : env → A) : blind (ask f).
Proof. done. Qed.

Lemma blind_now : blind now.
Proof. done. Qed.

Lemma blind_bind {A B} (m : M A) (k : A → M B) :
  blind m → (∀ a, blind (k a)) → blind (bind m k).
Proof.
  intros Hm Hk al E σ. unfold bind. rewrite Hm.
  destruct (m E σ) as [[a|e] σ1]; cbn [fst snd]; [apply Hk|done].
Qed.

Lemma blind_update f : blind (update f).
Proof. intros al E σ. unfold update. cbn [reseat state]. by destruct (f (state σ)). Qed.

Lemma blind_for_each {A} (ks : list A) (body : A → M unit) :
  (∀ k, blind (body k)) → blind (for_each ks body).
Proof.
  intros Hb. induction ks as [|k ks IH]; [apply blind_ret|].
  cbn [for_each]. apply blind_bind; [apply Hb|]. by intros _.
Qed.

Lemma blind_try_catch {A} (body : M A) (handler : exn → M A) :
  blind body → (∀ e, blind (handler e)) → blind (try_catch body handler).
Proof.
  intros Hb Hh al E σ. unfold try_catch. rewrite Hb.
  destruct (body E σ) as [[a|e] σ1]; cbn [fst snd]; [done|].
  apply (Hh e al E (log (Caught e) σ1)).
Qed.

Lemma blind_list_request : blind list_request.
Proof. intros al E σ. unfold list_request. by destruct (containers_reply E). Qed.

Lemma blind_restart_request failure k id : blind (restart_request failure k id).
Proof.
  intros al E σ. unfold restart_request. cbn [reseat trace].
  destruct (restart_reply E _ id) as [msg|code text]; [done|].
  by destruct (_ || _).
Qed.

Lemma blind_read_state : blind read_state.
Proof.
  intros al E σ. unfold read_state. cbn [reseat disk state_file].
  by destruct (load_state _).
Qed.

Lemma blind_write_state : blind write_state.
Proof. done. Qed.

Lemma blind_appendable key : blind (appendable key).
Proof. done. Qed.

Lemma blind_push key item : blind (Agent.push key item).
Proof.
  unfold Agent.push. apply blind_bind; [apply blind_update|]. intros _.
  apply blind_bind; [apply blind_appendable|]. intros l.
  apply blind_bind; [apply blind_update|]. intros _. apply blind_update.
Qed.

Lemma blind_loop_body_agent roles k : blind (Agent.loop_body roles k).
Proof.
  unfold Agent.loop_body. destruct (negb _); [apply blind_ret|].
  apply blind_bind; [apply blind_lift|]. intros st.
  destruct (down st); [|apply blind_ret].
  apply blind_bind; [apply blind_lift|]. intros id.
  apply blind_bind; [apply blind_restart_request|]. intros _.
  apply blind_bind; [apply blind_now|]. intros ts. apply blind_push.
Qed.

Lemma blind_try_suite_agent : blind Agent.try_suite.
Proof.
  unfold Agent.try_suite.
  apply blind_bind; [apply blind_list_request|]. intros containers.
  apply blind_bind; [apply blind_lift|]. intros snap.
  apply blind_bind; [apply blind_update|]. intros _.
  apply blind_bind; [apply blind_lift|]. intros roles.
  apply blind_bind; [apply blind_lift|]. intros doc.
  apply blind_bind; [apply blind_update|]. intros _.
  apply blind_bind; [apply blind_ask|]. intros armed.
  apply blind_bind.
  { destruct armed; [|apply blind_ret].
    apply blind_for_each. intros k. apply blind_loop_body_agent. }
  intros _. apply blind_bind; [apply blind_now|]. intros ts. apply blind_update.
Qed.

Lemma blind_tick_agent : blind Agent.tick.
Proof.
  unfold Agent.tick. apply blind_bind; [apply blind_read_state|]. intros _.
  apply blind_bind; [|intros _; apply blind_write_state].
  apply blind_try_catch; [apply blind_try_suite_agent|]. intros e.
  unfold Agent.handler. apply blind_bind; [apply blind_now|]. intros ts.
  apply blind_push.
Qed.

Lemma start_reseat fs fs' :
  state_file fs' = state_file fs → start fs' = reseat (allowlist_file fs') (start fs).
Proof. destruct fs, fs'. simpl. by intros ->. Qed.

(** X6.  A tick of 0.1.1 neither reads nor writes the allowlist file: from
    two sets of files with the same state file it returns the same result,
    sends the same requests in the same order, ends with the same state and
    writes the same state file, and it leaves the allowlist file that it
    found.  So what POST /api/allowlist stores in 0.1.1 changes nothing of
    what the agent does. *)
Theorem X6_agent_tick_ignores_allowlist (E : env) (fs fs' : files) :
  state_file fs' = state_file fs →
  let out := Agent.tick E (start fs) in
  let out' := Agent.tick E (start fs') in
  out'.1 = out.1 ∧ trace out'.2 = trace out.2 ∧ state out'.2 = state out.2 ∧
  state_file (disk out'.2) = state_file (disk out.2) ∧
  allowlist_file (disk out'.2) = allowlist_file fs' ∧
  allowlist_file (disk out.2) = allowlist_file fs.
Proof.
  intros Hs out out'. subst out out'.
  rewrite (start_reseat fs fs' Hs), blind_tick_agent. cbn [fst snd reseat].
  repeat (split; [done|]).
  pose proof (blind_tick_agent (allowlist_file fs) E (start fs)) as H.
  replace (reseat (allowlist_file fs) (start fs)) with (start fs) in H by (by destruct fs).
  rewrite H at 1. done.
Qed.

(** The miner is down and no address is allowed: 0.1.1 restarts it, before
    and after an allowlist is posted. *)
Lemma X6_agent_tick_ignores_allowlist_example :
  let posted := disk (Agent.api_set_allowlist payload_one idle (start no_files)).2 in
  let out := Agent.tick miner_down (start no_files) in
  let out' := Agent.tick miner_down (start posted) in
  allowlist_file posted = Holds (model_dump allowlist_one) ∧
  trace out.2 =
    [Listed true; Restarted "miningcore" (PStr "m1") true; Wrote STATE_PATH (state out.2)] ∧
  out'.1 = out.1 ∧ trace out'.2 = trace out.2 ∧ state out'.2 = state out.2 ∧
  state_file (disk out'.2) = state_file (disk out.2) ∧
  allowlist_file (disk out'.2) = allowlist_file posted ∧
  allowlist_file (disk out.2) = allowlist_file no_files.
Proof.
  split; [by vm_compute|]. split; [by vm_compute|].
  apply (X6_agent_tick_ignores_allowlist miner_down no_files
           (disk (Agent.api_set_allowlist payload_one idle (start no_files)).2)).
  by vm_compute.
Defined.

(** X7.  POST /api/allowlist of 0.1.2 with a payload that validates writes
    the allowlist before it touches the state.  When the loaded state is a
    dict whose "actions" is missing or a list, it then appends the action
    "allowlist_set" with the three counts, cuts the actions to the last 200,
    leaves the other keys as they were and writes the state; otherwise it
    raises with the allowlist already written and the state file as it was. *)
Theorem X7_post_allowlist_image (payload : py) (a : Allowlist) (E : env) (fs : files) :
  model_validate payload = Ok a →
  let out := Image.api_set_allowlist payload E (start fs) in
  allowlist_file (disk out.2) = Holds (model_dump a) ∧
  (if appendable_at "actions" (loaded fs)
   then out.1 = Ok (dict_of [("ok", PBool true)]) ∧
        state_file (disk out.2) = Holds (state out.2) ∧
        entry (state out.2) "actions" =
          Some (PList (last_n 200 (list_at (loaded fs) "actions"
                                     ++ [allowlist_set (time_at E 0) a]))) ∧
        ∀ k, k ≠ "actions" → entry (state out.2) k = entry (loaded fs) k
   else raised out.1 = true ∧ state_file (disk out.2) = state_file fs).
Proof.
  intros Hv out. split; [by apply api_set_allowlist_image|]. subst out.
  unfold Image.api_set_allowlist, bind, lift. rewrite Hv.
  unfold write_allowlist, read_state, start. store_simpl.
  cbn [save_allowlist state_file]. fold (state_file fs). rewrite load_state_loaded. store_simpl.
  rewrite action_log_eq. unfold start. store_simpl. fold (allowlist_set (time_at E 0) a).
  destruct (appended "actions" _ (loaded fs)) as [s'|e] eqn:Happ.
  - destruct (appendable_at "actions" (loaded fs)) eqn:Hok.
    2:{ apply appended_appendable in Happ. congruence. }
    apply appended_outside in Happ as ([_ Ho] & _ & Hen).
    unfold write_state; simpl. split; [done|]. split; [done|]. split; [done|].
    intros k Hk. apply Ho. set_solver.
  - apply appended_Raise in Happ. rewrite Happ. by simpl.
Qed.

(** Posting one btc address when there is no state file yet. *)
Lemma X7_post_allowlist_example :
  model_validate payload_one = Ok allowlist_one ∧
  let out := Image.api_set_allowlist payload_one idle (start no_files) in
  allowlist_file (disk out.2) = Holds (model_dump allowlist_one) ∧
  (if appendable_at "actions" (loaded no_files)
   then out.1 = Ok (dict_of [("ok", PBool true)]) ∧
        state_file (disk out.2) = Holds (state out.2) ∧
        entry (state out.2) "actions" =
          Some (PList (last_n 200 (list_at (loaded no_files) "actions"
                                     ++ [allowlist_set (time_at idle 0) allowlist_one]))) ∧
        ∀ k, k ≠ "actions" → entry (state out.2) k = entry (loaded no_files) k
   else raised out.1 = true ∧ state_file (disk out.2) = state_file no_files).
Proof.
  split; [by vm_compute|].
  apply (X7_post_allowlist_image payload_one allowlist_one idle no_files).
  by vm_compute.
Defined.

(** ** The log helpers *)

Lemma last_n_app {A} n (l l' : list A) :
  last_n n (last_n n l ++ l') = last_n n (l ++ l').
Proof.
  unfold last_n. rewrite !length_app, length_drop.
  destruct (decide (length l ≤ n)%nat) as [Hle|Hgt].
  - replace (length l - n)%nat with 0%nat by lia. simpl. by rewrite Nat.sub_0_r.
  - replace (length l - (length l - n) + length l' - n)%nat with (length l')%nat by lia.
    replace (length l + length l' - n)%nat with ((length l - n) + length l')%nat by lia.
    rewrite <- drop_drop. f_equal. rewrite drop_app_le by lia. done.
Qed.

Lemma last_n_short {A} n (l : list A) : (length l ≤ n)%nat → last_n n l = l.
Proof. intros H. unfold last_n. by replace (length l - n)%nat with 0%nat by lia. Qed.

Lemma last_last_n {A} n (l : list A) x : last (last_n (S n) (l ++ [x])) = Some x.
Proof.
  unfold last_n. rewrite length_app. simpl.
  replace (length l + 1 - S n)%nat with (length l - n)%nat by lia.
  rewrite drop_app_le by lia. apply last_snoc.
Qed.

Lemma appended_list_at key item s s' :
  appended key item s = Ok s' →
  appendable_at key s' = true ∧
  list_at s' key = last_n 200 (list_at s key ++ [item]) ∧
  ∀ k, k ≠ key → entry s' k = entry s k.
Proof.
  intros H. apply appended_outside in H as ([_ Ho] & Hd & Hen).
  split. { unfold appendable_at. by rewrite Hd, Hen. }
  split. { unfold list_at. rewrite Hen. by destruct (entry s key) as [[]|]. }
  intros k Hk. apply Ho. set_solver.
Qed.

Lemma run_ops_same_key key ops E σ :
  appendable_at key (state σ) = true → Forall (λ op, op_key op = key) ops →
  ∃ σ' items, run_ops ops E σ = (Ok tt, σ') ∧ items_of ops items ∧
    appendable_at key (state σ') = true ∧
    (ops ≠ [] → entry (state σ') key =
                Some (PList (last_n 200 (list_at (state σ) key ++ items)))) ∧
    list_at (state σ') key =
      (if ops is [] then list_at (state σ) key
       else last_n 200 (list_at (state σ) key ++ items)) ∧
    ∀ k, k ≠ key → entry (state σ') k = entry (state σ) k.
Proof.
  intros Happ Hops. revert σ Happ. induction Hops as [|op ops Hk Hops IH]; intros σ Happ.
  - exists σ, []. repeat split; try done. constructor.
  - unfold run_ops. cbn [for_each]. unfold bind. rewrite run_op_appended, Hk.
    destruct (appended_Ok key (op_item op (time_at E (clock σ))) (state σ) Happ) as [s1 Hs1].
    rewrite Hs1. apply appended_outside in Hs1 as Hen. destruct Hen as (_ & _ & Hen).
    apply appended_list_at in Hs1 as (Happ1 & Hl1 & Ho1).
    set (σ1 := match op with Push _ _ => with_state s1 σ | _ => tick_clock (with_state s1 σ) end).
    assert (Hst : state σ1 = s1) by (by destruct op).
    destruct (IH σ1) as (σ' & items & Hrun & Hit & Happ' & Hen' & Hl' & Ho').
    { by rewrite Hst. }
    fold (run_ops ops). rewrite Hrun.
    exists σ', (op_item op (time_at E (clock σ)) :: items).
    split; [done|]. split; [constructor; eauto|]. split; [done|].
    assert (Hlist : list_at (state σ') key =
              last_n 200 (list_at (state σ) key ++ op_item op (time_at E (clock σ)) :: items)).
    { rewrite Hl', Hst. destruct ops as [|op' ops'].
      - inversion Hit; subst items. by rewrite Hl1.
      - rewrite Hl1, last_n_app, <- app_assoc. done. }
    split; [|split; [done|]].
    + intros _. destruct ops as [|op' ops'].
      * injection Hrun as Heq. inversion Hit; subst items. by rewrite <- Heq, Hst, Hen.
      * rewrite Hen' by done. rewrite Hst, Hl1, last_n_app, <- app_assoc. done.
    + intros k Hne. rewrite Ho' by done. rewrite Hst. by apply Ho1.
Qed.

(** X8.  Appends through [push], [action_log] and [alert] under one key
    compose: from a state that is a dict whose entry under the key is missing
    or a list, of any length, they all succeed, and they leave under the key
    the last 200 of the old entries followed by the new ones, in order, and
    every other key as it was. *)
Theorem X8_appends_compose (key : string) (ops : list log_op) (E : env) (σ : store) :
  appendable_at key (state σ) = true → ops ≠ [] →
  Forall (λ op, op_key op = key) ops →
  ∃ σ' items, run_ops ops E σ = (Ok tt, σ') ∧ items_of ops items ∧
    entry (state σ') key = Some (PList (last_n 200 (list_at (state σ) key ++ items))) ∧
    ∀ k, k ≠ key → entry (state σ') k = entry (state σ) k.
Proof.
  intros Happ Hne Hops.
  destruct (run_ops_same_key key ops E σ Happ Hops)
    as (σ' & items & Hrun & Hit & _ & Hen & _ & Ho).
  exists σ', items. auto.
Qed.

(** Two actions logged on top of 201: 200 are left. *)
Lemma X8_appends_compose_example :
  appendable_at "actions" long_actions = true ∧
  ∃ σ' items,
    run_ops two_actions idle (with_state long_actions (start no_files)) = (Ok tt, σ') ∧
    items_of two_actions items ∧
    entry (state σ') "actions" =
      Some (PList (last_n 200 (list_at long_actions "actions" ++ items))) ∧
    ∀ k, k ≠ "actions" → entry (state σ') k = entry long_actions k.
Proof.
  split; [by vm_compute|].
  apply (X8_appends_compose "actions" two_actions idle
           (with_state long_actions (start no_files))).
  - by vm_compute.
  - discriminate.
  - by repeat constructor.
Defined.

(** X9.  A log helper raises exactly when the state is not a dict whose
    entry under the key of the helper is missing or a list; it then raises an
    [AttributeError] and leaves the state and the clock as they were. *)
Theorem X9_append_needs_a_list (op : log_op) (E : env) (σ : store) :
  appendable_at (op_key op) (state σ) = false ↔
  ∃ msg, run_op op E σ = (Raise (AttributeError msg), σ).
Proof.
  rewrite run_op_appended.
  destruct (appended (op_key op) _ (state σ)) as [s'|e] eqn:H.
  - apply appended_appendable in H. rewrite H. split; [done|]. by intros [msg [=]].
  - apply appended_Raise in H as H'. rewrite H'. split; [|done]. intros _.
    apply appended_Raise_attribute in H as [msg ->]. eauto.
Qed.

(** ** The snapshot and the roles of the intel *)

Lemma py_get_got c k : is_PDict c = true → py_get c k = Ok (got c k).
Proof. by destruct c. Qed.

Lemma summary_dict c : is_PDict c = true → summary c = Ok (summary_of c).
Proof. intros H. unfold summary. by rewrite !py_get_got. Qed.

Lemma summary_not_dict c : is_PDict c = false → summary c = Raise (no_attribute c "get").
Proof. by destruct c. Qed.

Lemma rmapM_summary cs :
  Forall (λ c, is_PDict c = true) cs → rmapM summary cs = Ok (summary_of <$> cs).
Proof.
  induction 1 as [|c cs Hc _ IH]; [done|]. simpl. by rewrite summary_dict, IH.
Qed.

Lemma rmapM_summary_raise cs :
  ¬ Forall (λ c, is_PDict c = true) cs →
  ∃ c, c ∈ cs ∧ is_PDict c = false ∧ rmapM summary cs = Raise (no_attribute c "get").
Proof.
  induction cs as [|c cs IH]; intros H; [by destruct H|].
  destruct (is_PDict c) eqn:Hc.
  - destruct IH as (c' & Hin & Hc' & Hr). { intros Hall. apply H. by constructor. }
    exists c'. split; [by apply list_elem_of_further|]. split; [done|].
    simpl. by rewrite summary_dict, Hr.
  - exists c. split; [apply list_elem_of_here|]. split; [done|].
    simpl. by rewrite summary_not_dict.
Qed.

(** X10.  The snapshot of a listing whose items are all dicts has one entry
    for each item, in order, with the five keys id, names, image, state and
    status, each holding what the item has under Id, Names, Image, State and
    Status, or [None]; a listing with an item that is not a dict has no
    snapshot: the comprehension raises an [AttributeError] for such an item. *)
Theorem X10_snapshot_of_listing (cs : list py) :
  (Forall (λ c, is_PDict c = true) cs →
   snapshot (PList cs) = Ok (PList (summary_of <$> cs))) ∧
  (¬ Forall (λ c, is_PDict c = true) cs →
   ∃ c, c ∈ cs ∧ is_PDict c = false ∧
        snapshot (PList cs) = Raise (no_attribute c "get")).
Proof.
  unfold snapshot. cbn [py_iter rbind]. split.
  - intros H. by rewrite rmapM_summary.
  - intros H. destruct (rmapM_summary_raise cs H) as (c & ? & ? & Hr).
    exists c. by rewrite Hr.
Qed.

Lemma role_entry_listed c : listed c = true → role_entry c = Ok (role_shown c).
Proof.
  destruct c as [| | | | | |d]; try done. unfold listed, role_entry, role_shown, shown_name, got.
  cbn [is_PDict entry andb]. intros H. apply andb_prop in H as [H _].
  unfold por. destruct (truthy (PDict d)) eqn:Ht.
  - cbn [py_get rbind].
    destruct (d !! "Names") as [[| | | | |[|[] l]|]|]; try done.
  - assert (d = ∅) as ->.
    { destruct (decide (d = ∅)) as [|Hne]; [done|]. apply truthy_dict in Hne. congruence. }
    done.
Qed.

Lemma first_match_member keys cs res :
  first_match keys cs res → res = PNone ∨ res ∈ cs.
Proof.
  intros [(before & c & after & -> & -> & _)|[-> _]]; [right|by left].
  set_solver.
Qed.

Lemma role_entry_picked cs c :
  Forall (λ c, listed c = true) cs → c = PNone ∨ c ∈ cs → role_entry c = Ok (role_shown c).
Proof.
  intros Hl [->|Hin]; [done|]. rewrite Forall_forall in Hl. by apply role_entry_listed, Hl.
Qed.

Lemma roles_doc_listed (cs : list py) :
  Forall (λ c, listed c = true) cs →
  ∃ roles doc, classify (PList cs) = Ok roles ∧ roles_doc roles = Ok doc ∧
    ∀ k, entry doc k =
         if bool_decide (k ∈ role_names) then Some (role_shown (role roles k)) else None.
Proof.
  intros Hl. destruct (classify_listed cs Hl) as (b & c & d & m & Hr & Hb & Hc & Hd & Hm).
  apply first_match_member in Hb, Hc, Hd, Hm.
  eexists _, _. split; [exact Hr|]. unfold roles_doc. cbn [rmapM rbind fst snd].
  rewrite (role_entry_picked cs b), (role_entry_picked cs c),
    (role_entry_picked cs d), (role_entry_picked cs m) by done.
  cbn [rbind]. split; [done|]. intros k. unfold role, dict_of, entry.
  cbn [list_to_map foldr uncurry].
  destruct (decide (k = "btc")) as [->|N1]; [by rewrite !lookup_insert_eq|].
  destruct (decide (k = "bch")) as [->|N2].
  { rewrite !(lookup_insert_ne _ "btc") by done. by rewrite !lookup_insert_eq. }
  destruct (decide (k = "dgb")) as [->|N3].
  { rewrite !(lookup_insert_ne _ "btc"), !(lookup_insert_ne _ "bch") by done.
    by rewrite !lookup_insert_eq. }
  destruct (decide (k = "miningcore")) as [->|N4].
  { rewrite !(lookup_insert_ne _ "btc"), !(lookup_insert_ne _ "bch"),
      !(lookup_insert_ne _ "dgb") by done. by rewrite !lookup_insert_eq. }
  rewrite !lookup_insert_ne, lookup_empty by done.
  rewrite bool_decide_eq_false_2; [done|]. unfold role_names. set_solver.
Qed.

(** X11.  For containers as the Docker API lists them, the document put
    under [intel["roles"]] has the four roles for keys and nothing else; a
    role shows the Id of its container and the first of its names, as it is
    written, and [None] for both when no container has the role. *)
Theorem X11_roles_shown (cs : list py) :
  Forall (λ c, listed c = true) cs →
  ∃ roles doc, classify (PList cs) = Ok roles ∧ roles_doc roles = Ok doc ∧
    ∀ k, entry doc k =
         if bool_decide (k ∈ role_names) then Some (role_shown (role roles k)) else None.
Proof. apply roles_doc_listed. Qed.

(** The roles shown for a Bitcoin Cash node, a miner and a Bitcoin node. *)
Lemma X11_roles_shown_example :
  Forall (λ c, listed c = true) [bch_node; miner; btc_node] ∧
  ∃ roles doc, classify (PList [bch_node; miner; btc_node]) = Ok roles ∧
    roles_doc roles = Ok doc ∧
    ∀ k, entry doc k =
         if bool_decide (k ∈ role_names) then Some (role_shown (role roles k)) else None.
Proof.
  assert (H : Forall (λ c, listed c = true) [bch_node; miner; btc_node])
    by (by repeat constructor).
  split; [exact H|]. exact (X11_roles_shown _ H).
Defined.

(** ** The keywords of [classify] *)

Lemma contains_trans k k' s :
  substring k k' → contains k' s = true → contains k s = true.
Proof. rewrite !contains_spec. apply substring_trans. Qed.

Lemma any_in_btc s : any_in btc_keys s = any_in ["bitcoin"] s.
Proof.
  unfold any_in, btc_keys. cbn [existsb]. rewrite !orb_false_r.
  destruct (contains "bitcoin" s) eqn:H; [done|]. simpl.
  destruct (contains "bitcoind" s) eqn:H1.
  { rewrite (contains_trans "bitcoin" "bitcoind" s) in H; [done|by exists "", "d"|done]. }
  destruct (contains "bitcoin-node" s) eqn:H2; [|done].
  rewrite (contains_trans "bitcoin" "bitcoin-node" s) in H; [done|by exists "", "-node"|done].
Qed.

Lemma any_in_bch s : any_in bch_keys s = any_in ["bch"; "bitcoincash"; "bitcoin-cash"] s.
Proof.
  unfold any_in, bch_keys. cbn [existsb]. rewrite !orb_false_r.
  destruct (contains "bch" s) eqn:H; [done|]. simpl.
  destruct (contains "bchn" s) eqn:H1; [|by rewrite !orb_false_r].
  rewrite (contains_trans "bch" "bchn" s) in H; [done|by exists "", "n"|done].
Qed.

Lemma scan_ext keys keys' cs :
  (∀ s, any_in keys s = any_in keys' s) → scan keys cs = scan keys' cs.
Proof.
  intros H. induction cs as [|c cs IH]; [done|]. cbn [scan].
  destruct (name_of c) as [n|]; [|done]. destruct (image_of c) as [i|]; [|done].
  cbn [rbind]. by rewrite !H, IH.
Qed.

(** X12.  Three keywords of [classify] never decide anything: "bitcoind" and
    "bitcoin-node" contain "bitcoin", and "bchn" contains "bch", so [pick]
    gives the same result, or raises the same exception, without them,
    whatever the listing is. *)
Theorem X12_redundant_keywords (containers : py) :
  pick containers btc_keys = pick containers ["bitcoin"] ∧
  pick containers bch_keys = pick containers ["bch"; "bitcoincash"; "bitcoin-cash"].
Proof.
  unfold pick. destruct (py_iter containers) as [cs|e]; [|done]. cbn [rbind].
  split; apply scan_ext; [apply any_in_btc|apply any_in_bch].
Qed.

Lemma scan_app keys cs more :
  scan keys (cs ++ more) =
  match scan keys cs with
  | Ok PNone => scan keys more
  | r => r
  end.
Proof.
  induction cs as [|c cs IH]; [done|]. cbn [scan app].
  destruct (name_of c) as [n|] eqn:Hn; [|done].
  destruct (image_of c) as [i|]; [|done]. cbn [rbind].
  destruct (any_in keys n || any_in keys i); [|done].
  destruct c; try done.
Qed.

(** X13.  [pick] over a listing in two parts: the container found in the
    first part, or the exception raised there, is the result whatever follows;
    and when the first part has no match, the result is that of the second
    part. *)
Theorem X13_pick_over_two_parts (keys : list string) (cs more : list py) :
  pick (PList (cs ++ more)) keys =
  match pick (PList cs) keys with
  | Ok PNone => pick (PList more) keys
  | r => r
  end.
Proof. unfold pick. cbn [py_iter rbind]. apply scan_app. Qed.

(** ** The flags *)

Lemma lower_ascii_letter (a : ascii) (n : nat) :
  (97 ≤ n ≤ 122)%nat →
  lower_ascii a = ascii_of_nat n ↔ a = ascii_of_nat n ∨ a = ascii_of_nat (n - 32).
Proof.
  intros Hn. pose proof (nat_ascii_bounded a) as Hb.
  assert (Ha : a = ascii_of_nat (nat_of_ascii a)) by (by rewrite ascii_nat_embedding).
  unfold lower_ascii. cbv zeta.
  set (m := nat_of_ascii a) in *. clearbody m. subst a.
  assert (Hinj : ∀ x y, (x < 256)%nat → (y < 256)%nat →
                        ascii_of_nat x = ascii_of_nat y ↔ x = y).
  { intros x y Hx Hy. split; [|by intros ->]. intros H.
    apply (f_equal nat_of_ascii) in H. by rewrite !nat_ascii_embedding in H by done. }
  destruct ((65 <=? m)%nat && (m <=? 90)%nat) eqn:Hup.
  - apply andb_prop in Hup as [H1%Nat.leb_le H2%Nat.leb_le].
    rewrite !Hinj by lia. lia.
  - apply andb_false_iff in Hup. rewrite !Hinj by lia.
    destruct Hup as [H1%Nat.leb_gt|H1%Nat.leb_gt]; lia.
Qed.

Lemma lower_true v : lower v = "true" ↔ spells_true v.
Proof.
  unfold spells_true. split.
  - destruct v as [|a [|b [|c [|d [|]]]]]; try discriminate. simpl.
    intros [= Ha Hb Hc Hd]. exists a, b, c, d. split; [done|].
    apply (lower_ascii_letter a 116) in Ha; [|lia].
    apply (lower_ascii_letter b 114) in Hb; [|lia].
    apply (lower_ascii_letter c 117) in Hc; [|lia].
    apply (lower_ascii_letter d 101) in Hd; [|lia]. done.
  - intros (a & b & c & d & -> & Ha & Hb & Hc & Hd).
    destruct Ha as [-> | ->], Hb as [-> | ->], Hc as [-> | ->], Hd as [-> | ->]; reflexivity.
Qed.

(** X14.  The agent is armed exactly when ARMED_MODE is set to the word true
    in some casing, and the failsafe of 0.1.2 is off exactly when
    FAILSAFE_STOP_MINING is set to anything else than the word true in some
    casing: with neither variable set the agent is not armed and the failsafe
    is on, and a value such as 1 or yes arms nothing and turns the failsafe
    off. *)
Theorem X14_flags_spell_true (environ : gmap string string) :
  (Settings.ARMED_MODE environ = true ↔
   ∃ v, environ !! "ARMED_MODE" = Some v ∧ spells_true v) ∧
  (Settings.FAILSAFE_STOP_MINING environ = false ↔
   ∃ v, environ !! "FAILSAFE_STOP_MINING" = Some v ∧ ¬ spells_true v).
Proof.
  unfold Settings.ARMED_MODE, Settings.FAILSAFE_STOP_MINING, Settings.getenv. split.
  - destruct (environ !! "ARMED_MODE") as [v|]; simpl.
    + rewrite String.eqb_eq, lower_true. split; [eauto|]. by intros (? & [= <-] & ?).
    + split; [done|]. by intros (? & [=] & _).
  - destruct (environ !! "FAILSAFE_STOP_MINING") as [v|]; simpl.
    + rewrite String.eqb_neq, lower_true. split; [eauto|]. by intros (? & [= <-] & ?).
    + split; [done|]. by intros (? & [=] & _).
Qed.

(** ** The trace of a tick *)

Lemma quiet_update f : quiet (update f).
Proof.
  intros E σ r σ' H. apply update_inv in H. by destruct (f (state σ)); destruct H as [_ ->].
Qed.

Lemma quiet_push key item : quiet (Agent.push key item).
Proof. intros E σ r σ' H. rewrite push_eq in H. by apply quiet_update in H. Qed.

Lemma quiet_action_log kind details : quiet (Image.action_log kind details).
Proof.
  intros E σ r σ' H. rewrite action_log_eq in H.
  by destruct (appended _ _ _); injection H as <- <-.
Qed.

Lemma quiet_alert level msg meta : quiet (Image.alert level msg meta).
Proof.
  intros E σ r σ' H. rewrite alert_eq in H.
  by destruct (appended _ _ _); injection H as <- <-.
Qed.

Lemma loop_body_agent_once roles k E σ r σ' :
  Agent.loop_body roles k E σ = (r, σ') →
  trace σ' = trace σ ∨ ∃ id ok, trace σ' = trace σ ++ [Restarted k id ok].
Proof.
  unfold Agent.loop_body. destruct (negb _); [intros [= <- <-]; by left|].
  intros H. apply bind_inv in H. unfold lift in H at 1.
  destruct (state_of _) as [st|e]; [|destruct H as [_ ->]; by left].
  destruct (down st); [|injection H as <- <-; by left].
  apply bind_inv in H. unfold lift in H at 1.
  destruct (py_getitem _ _) as [id|e]; [|destruct H as [_ ->]; by left].
  apply bind_inv in H. destruct (Agent.docker_restart k id E σ) as [r1 σ1] eqn:Hr.
  apply restart_request_inv in Hr as (ok & -> & _). right. exists id, ok.
  destruct r1 as [[]|e]; [|by destruct H as [_ ->]].
  apply bind_inv in H. unfold now in H at 1. by apply quiet_push in H.
Qed.

Lemma loop_body_image_once a roles k E σ r σ' :
  Image.loop_body a roles k E σ = (r, σ') →
  trace σ' = trace σ ∨ ∃ id ok, trace σ' = trace σ ++ [Restarted k id ok].
Proof.
  unfold Image.loop_body. destruct (negb _); [intros [= <- <-]; by left|].
  intros H. apply bind_inv in H. unfold lift in H at 1.
  destruct (state_of _) as [st|e]; [|destruct H as [_ ->]; by left].
  destruct (down st); [|injection H as <- <-; by left].
  apply bind_inv in H. unfold ask in H at 1.
  destruct (_ && _); [apply quiet_alert in H; by left|].
  apply bind_inv in H. unfold lift in H at 1.
  destruct (py_getitem _ _) as [id|e]; [|destruct H as [_ ->]; by left].
  apply bind_inv in H. destruct (Image.docker_restart k id E σ) as [r1 σ1] eqn:Hr.
  apply restart_request_inv in Hr as (ok & -> & _). right. exists id, ok.
  destruct r1 as [[]|e]; [|by destruct H as [_ ->]].
  apply bind_inv in H. unfold lift in H at 1.
  destruct (py_get _ _) as [id'|e]; [|by destruct H as [_ ->]].
  by apply quiet_action_log in H.
Qed.

Lemma for_each_once (ks : list string) (body : string → M unit) E :
  (∀ k σ r σ', body k E σ = (r, σ') →
     trace σ' = trace σ ∨ ∃ id ok, trace σ' = trace σ ++ [Restarted k id ok]) →
  ∀ σ r σ', for_each ks body E σ = (r, σ') →
    ∃ new, trace σ' = trace σ ++ new ∧
           Forall (λ ev, is_restart ev = true) new ∧
           omap role_of new `sublist_of` ks.
Proof.
  intros Hbody. induction ks as [|k ks IH]; intros σ r σ'.
  - intros [= <- <-]. exists []. by rewrite app_nil_r.
  - cbn [for_each]. intros H. apply bind_inv in H.
    destruct (body k E σ) as [r1 σ1] eqn:Hk. apply Hbody in Hk.
    assert (Hrest : ∃ new, trace σ' = trace σ1 ++ new ∧
              Forall (λ ev, is_restart ev = true) new ∧ omap role_of new `sublist_of` ks).
    { destruct r1 as [[]|e]; [by apply IH in H|].
      destruct H as [_ ->]. exists []. rewrite app_nil_r. repeat split; [done|].
      apply sublist_nil_l. }
    destruct Hrest as (new & Ht & Hall & Hsub).
    destruct Hk as [Hk|(id & ok & Hk)]; rewrite Hk in Ht.
    + exists new. split; [done|]. split; [done|]. by apply sublist_cons.
    + exists (Restarted k id ok :: new). rewrite <- app_assoc in Ht. split; [done|].
      split; [by constructor|]. simpl. by apply sublist_skip.
Qed.

Lemma suite_once (loop : list (string * py) → M unit) E σ r σ' :
  (∀ roles σ r σ', loop roles E σ = (r, σ') →
     ∃ new, trace σ' = trace σ ++ new ∧
            Forall (λ ev, is_restart ev = true) new ∧
            omap role_of new `sublist_of` role_names) →
  suite loop E σ = (r, σ') →
  ∃ ok new, trace σ' = trace σ ++ Listed ok :: new ∧
            Forall (λ ev, is_restart ev = true) new ∧
            omap role_of new `sublist_of` role_names.
Proof.
  intros Hloop H. apply suite_inv in H as (ok & s1 & _ & H).
  destruct H as [[_ ->]|(-> & _ & containers & roles & r2 & σ2 & _ & _ & Hl & H)].
  { exists ok, []. split; [done|]. split; [constructor|]. apply sublist_nil_l. }
  assert (Hnew : ∃ new, trace σ2 = trace σ ++ Listed true :: new ∧
            Forall (λ ev, is_restart ev = true) new ∧
            omap role_of new `sublist_of` role_names).
  { destruct (ARMED_MODE E).
    - apply Hloop in Hl as (new & Ht & ? & ?). exists new. store_simpl in Ht.
      by rewrite Ht, <- app_assoc.
    - injection Hl as <- <-. exists []. split; [done|]. split; [constructor|].
      apply sublist_nil_l. }
  destruct Hnew as (new & Ht & Hall & Hsub). exists true, new.
  split; [|done]. destruct r2 as [[]|e]; [|by destruct H as [_ ->]].
  by destruct (py_setitem _ _ _); destruct H as [_ ->].
Qed.

Lemma one_pass_protected guard body handler (tick : M unit) E fs :
  (∀ σ r σ', body E σ = (r, σ') →
     ∃ ok new, trace σ' = trace σ ++ Listed ok :: new ∧
               Forall (λ ev, is_restart ev = true) new ∧
               omap role_of new `sublist_of` role_names) →
  (∀ E σ r σ', body E σ = (r, σ') → suite_ok (guard E) E σ r σ') →
  error_handler handler →
  tick E (start fs) = protected body handler E (with_state (loaded fs) (start fs)) →
  one_pass tick E fs.
Proof.
  intros Hbody Hb Hh Htick. unfold one_pass. rewrite Htick.
  destruct (protected _ _ E _) as [r σ'] eqn:H. cbn [snd].
  apply protected_inv in H as (r1 & σ1 & H1 & H); [|done].
  apply Hbody in H1 as (ok & new & Ht & Hall & Hsub). simpl in Ht.
  exists ok, new. destruct r1 as [[]|e].
  - destruct H as [_ ->]. exists [Wrote STATE_PATH (state σ1)]. simpl. rewrite Ht.
    split; [done|]. split; [done|]. split; [done|]. left. eauto.
  - destruct H as (item & c & _ & H).
    destruct (appended "alerts" item (state σ1)) as [s2|e']; destruct H as [_ ->]; simpl.
    + exists [Caught e; Wrote STATE_PATH s2]. rewrite Ht, <- app_assoc.
      split; [done|]. split; [done|]. split; [done|]. right. left. eauto.
    + exists [Caught e]. rewrite Ht.
      split; [done|]. split; [done|]. split; [done|]. right. right. eauto.
Qed.

(** X15.  A tick is one pass, in both versions: it sends one listing
    request, then at most one restart request for each role, in the order
    btc, bch, dgb, miningcore, and no request is sent twice; then it writes
    the state, after the exception it caught if it caught one, unless its
    handler raises in its turn. *)
Theorem X15_tick_is_one_pass (E : env) (fs : files) :
  one_pass Agent.tick E fs ∧ one_pass Image.agent_tick E fs.
Proof.
  split.
  - eapply (one_pass_protected (λ _ _, true));
      [|intros; by apply suite_agent|apply handler_agent|apply tick_agent_start].
    intros σ r σ'. rewrite try_suite_agent. apply suite_once.
    intros roles. apply for_each_once. intros k. apply loop_body_agent_once.
  - eapply (one_pass_protected (λ E k, negb (failsafe E (loaded_allowlist fs) k)));
      [|intros; by apply suite_image|apply handler_image|apply tick_image_start].
    intros σ r σ'. rewrite try_suite_image. apply suite_once.
    intros roles. apply for_each_once. intros k. apply loop_body_image_once.
Qed.

(** ** How a tick ends *)

Lemma protected_raises guard body handler E σ e σ' :
  (∀ E σ r σ', body E σ = (r, σ') → suite_ok (guard E) E σ r σ') →
  error_handler handler →
  protected body handler E σ = (Raise e, σ') →
  appendable_at "alerts" (state σ) = false ∧
  (∃ msg, e = AttributeError msg) ∧
  disk σ' = disk σ ∧
  ∃ e0, last (trace σ') = Some (Caught e0).
Proof.
  intros Hb Hh H. apply protected_inv in H as (r1 & σ1 & H1 & H); [|done].
  apply (Hb E) in H1 as Hs. pose proof (suite_keeps_appendable _ _ _ _ _ Hs) as Hkeep.
  destruct Hs as (Hd & _).
  destruct r1 as [[]|e0]; [by destruct H|].
  destruct H as (item & c & _ & H).
  destruct (appended "alerts" item (state σ1)) as [s2|e'] eqn:Happ; destruct H as [[=] ->].
  subst e'. apply appended_Raise in Happ as Hno. apply appended_Raise_attribute in Happ.
  split. { destruct (appendable_at "alerts" (state σ)); [|done]. by rewrite Hkeep in Hno. }
  split; [done|]. split; [done|]. exists e0. simpl. by rewrite last_snoc.
Qed.

Lemma raises_in_handler_protected guard body handler (tick : M unit) E fs :
  (∀ E σ r σ', body E σ = (r, σ') → suite_ok (guard E) E σ r σ') →
  error_handler handler →
  tick E (start fs) = protected body handler E (with_state (loaded fs) (start fs)) →
  raises_in_handler tick E fs.
Proof.
  intros Hb Hh Htick. unfold raises_in_handler. rewrite Htick.
  destruct (protected _ _ E _) as [r σ'] eqn:H. cbn [fst snd]. intros e ->.
  by eapply protected_raises in H.
Qed.

(** X16.  An exception leaves a tick in one way only, in both versions: the
    [try] suite raised, and the handler could not append its alert because
    the loaded state is not a dict whose "alerts" is missing or a list.  The
    exception that leaves is then the [AttributeError] of the handler, not the
    one that was caught, and neither file has been written. *)
Theorem X16_tick_raises_only_in_handler (E : env) (fs : files) :
  raises_in_handler Agent.tick E fs ∧ raises_in_handler Image.agent_tick E fs.
Proof.
  split.
  - eapply (raises_in_handler_protected (λ _ _, true));
      [intros; by apply suite_agent|apply handler_agent|apply tick_agent_start].
  - eapply (raises_in_handler_protected (λ E k, negb (failsafe E (loaded_allowlist fs) k)));
      [intros; by apply suite_image|apply handler_image|apply tick_image_start].
Qed.

(** With [null] under "alerts" and the proxy down, the tick of 0.1.2 raises. *)
Lemma X16_tick_raises_example :
  appendable_at "alerts" (loaded null_alerts) = false ∧
  (∃ msg, AttributeError "'NoneType' object has no attribute 'append'" = AttributeError msg) ∧
  disk (Image.agent_tick proxy_down (start null_alerts)).2 = null_alerts ∧
  ∃ e0, last (trace (Image.agent_tick proxy_down (start null_alerts)).2) = Some (Caught e0).
Proof.
  destruct (X16_tick_raises_only_in_handler proxy_down null_alerts) as [_ H].
  apply (H (AttributeError "'NoneType' object has no attribute 'append'")).
  by vm_compute.
Defined.

Lemma handler_agent_appends : handler_appends error_alert_agent Agent.handler.
Proof.
  intros e E σ. unfold Agent.handler, bind, now. rewrite push_eq; unfold update; store_simpl.
  fold (error_alert_agent (time_at E (clock σ)) e).
  destruct (appended "alerts" _ (state σ)) as [s'|e']; by exists (S (clock σ)).
Qed.

Lemma handler_image_appends : handler_appends error_alert_image Image.handler.
Proof.
  intros e E σ. unfold Image.handler. rewrite alert_eq.
  fold (error_alert_image (time_at E (clock σ)) e).
  destruct (appended "alerts" _ (state σ)) as [s'|e'].
  - by exists (S (clock σ)).
  - exists (clock σ). by destruct σ.
Qed.

Lemma requests_not_caught {A} (r : result A) new e :
  requests_of r new → Caught e ∉ new.
Proof.
  assert (Hs : ∀ l, Forall succeeded l → Caught e ∉ l).
  { intros l Hl Hin. rewrite Forall_forall in Hl. by destruct (Hl _ Hin). }
  intros [r' l H|e' pre ev Hpre Hev]; [by apply Hs|].
  intros [Hin|Hin]%elem_of_app; [by apply (Hs pre)|].
  apply list_elem_of_singleton in Hin. by subst ev.
Qed.

Lemma protected_reports guard item body handler E σ σ' e :
  (∀ E σ r σ', body E σ = (r, σ') → suite_ok (guard E) E σ r σ') →
  handler_appends item handler →
  protected body handler E σ = (Ok tt, σ') →
  trace σ = [] → Caught e ∈ trace σ' →
  ∃ ts, last (alerts (state σ')) = Some (item ts e).
Proof.
  intros Hb Hh H Hnil Hin. unfold protected, bind, try_catch in H.
  destruct (body E σ) as [r1 σ1] eqn:H1.
  apply (Hb E) in H1 as (_ & _ & _ & _ & new & Ht & _ & Hq & _).
  rewrite Hnil in Ht. simpl in Ht. apply (requests_not_caught _ _ e) in Hq.
  destruct r1 as [[]|e0].
  - injection H as <-. simpl in Hin. rewrite Ht in Hin.
    apply elem_of_app in Hin as [?|Hin]; [done|].
    by apply list_elem_of_singleton in Hin.
  - destruct (Hh e0 E (log (Caught e0) σ1)) as [c Hrun]. rewrite Hrun in H.
    store_simpl in H.
    destruct (appended "alerts" _ (state σ1)) as [s2|e'] eqn:Happ; [|done].
    injection H as <-. simpl in *. rewrite Ht in Hin.
    assert (e = e0) as ->.
    { apply elem_of_app in Hin as [Hin|Hin].
      - apply elem_of_app in Hin as [?|Hin]; [done|].
        apply list_elem_of_singleton in Hin. by injection Hin.
      - by apply list_elem_of_singleton in Hin. }
    exists (time_at E (clock σ1)).
    apply appended_outside in Happ as (_ & _ & Hen). unfold alerts at 1. rewrite Hen.
    apply last_last_n.
Qed.

Lemma reports_caught_protected guard item body handler (tick : M unit) E fs :
  (∀ E σ r σ', body E σ = (r, σ') → suite_ok (guard E) E σ r σ') →
  handler_appends item handler →
  tick E (start fs) = protected body handler E (with_state (loaded fs) (start fs)) →
  reports_caught item tick E fs.
Proof.
  intros Hb Hh Htick. unfold reports_caught. rewrite Htick.
  destruct (protected _ _ E _) as [r σ'] eqn:H. cbn [fst snd]. intros e Hin ->.
  by eapply protected_reports in H.
Qed.

(** X17.  When a tick that caught an exception returns, the last alert of
    the state it leaves reports that exception: in 0.1.1 an entry of level
    "error" whose msg is [str(e)]; in 0.1.2 an entry of level "error" with
    the msg "Agent tick failed." and [str(e)] under "error" in its meta. *)
Theorem X17_alert_reports_the_exception (E : env) (fs : files) :
  reports_caught error_alert_agent Agent.tick E fs ∧
  reports_caught error_alert_image Image.agent_tick E fs.
Proof.
  split.
  - eapply (reports_caught_protected (λ _ _, true));
      [intros; by apply suite_agent|apply handler_agent_appends|apply tick_agent_start].
  - eapply (reports_caught_protected (λ E k, negb (failsafe E (loaded_allowlist fs) k)));
      [intros; by apply suite_image|apply handler_image_appends|apply tick_image_start].
Qed.

(** The alert of 0.1.1 for a restart that the daemon refused. *)
Lemma X17_alert_reports_example :
  ∃ ts, last (alerts (state (Agent.tick restarts_refused (start no_files)).2)) =
        Some (error_alert_agent ts
                (RuntimeError "restart failed: 500 port is already allocated")).
Proof.
  destruct (X17_alert_reports_the_exception restarts_refused no_files) as [H _].
  apply (H (RuntimeError "restart failed: 500 port is already allocated")).
  - vm_compute. apply list_elem_of_further, list_elem_of_further, list_elem_of_here.
  - by vm_compute.
Defined.

(** ** What a tick leaves under "intel" *)

Lemma intel_set_entry key x s s' :
  intel_set key x s = Ok s' →
  ∃ i, entry s "intel" = Some (PDict i) ∧ entry s' "intel" = Some (PDict (<[key := x]> i)).
Proof.
  destruct s as [| | | | | |d]; try done. unfold intel_set. cbn [py_getitem].
  destruct (d !! "intel") as [i|] eqn:Hi; [|done]. cbn [rbind].
  destruct i as [| | | | | |i]; try done. intros [= <-]. exists i. simpl.
  by rewrite lookup_insert_eq.
Qed.

Lemma suite_done guard (loop : list (string * py) → M unit) E σ σ' :
  (∀ roles E σ r σ', loop roles E σ = (r, σ') → loop_ok (guard E) roles σ r σ') →
  suite loop E σ = (Ok tt, σ') →
  ∃ containers snap roles doc intel ts,
    containers_reply E = Ok containers ∧
    snapshot containers = Ok snap ∧
    classify containers = Ok roles ∧
    roles_doc roles = Ok doc ∧
    entry (state σ) "intel" = Some (PDict intel) ∧
    entry (state σ') "intel" =
      Some (PDict (<["roles" := doc]> (<["containers" := snap]> intel))) ∧
    entry (state σ') "last_run" = Some (PInt ts).
Proof.
  intros Hloop H. destruct σ as [dk s tr cl]. unfold suite in H.
  apply bind_inv in H. unfold list_request in H at 1.
  destruct (containers_reply E) as [containers|e] eqn:Hlist; store_simpl in H; [|by destruct H].
  apply bind_inv in H. unfold lift in H at 1.
  destruct (snapshot containers) as [snap|e] eqn:Hsnap; [|by destruct H].
  apply bind_inv in H. unfold set_intel at 1 in H.
  destruct (update _ E _) as [r1 σ1] eqn:Hu in H. apply update_inv in Hu. store_simpl in Hu.
  destruct (intel_set "containers" snap s) as [s1|e] eqn:H1; destruct Hu as [-> ->];
    [|by destruct H].
  apply intel_set_entry in H1 as (i0 & Hi0 & Hi1). store_simpl in H.
  apply bind_inv in H. unfold lift in H at 1.
  destruct (classify containers) as [roles|e] eqn:Hroles; [|by destruct H].
  apply bind_inv in H. unfold lift in H at 1.
  destruct (roles_doc roles) as [doc|e] eqn:Hdoc; [|by destruct H].
  apply bind_inv in H. unfold set_intel at 1 in H.
  destruct (update _ E _) as [r2 σ2] eqn:Hu in H. apply update_inv in Hu. store_simpl in Hu.
  destruct (intel_set "roles" doc s1) as [s2|e] eqn:H2; destruct Hu as [-> ->];
    [|by destruct H].
  apply intel_set_entry in H2 as (i1 & Hi1' & Hi2). store_simpl in H.
  rewrite Hi1 in Hi1'. injection Hi1' as <-.
  apply bind_inv in H. unfold ask in H at 1. apply bind_inv in H.
  set (out := (if ARMED_MODE E then loop roles else ret tt) E _) in H.
  destruct out as [r3 σ3] eqn:Hl. subst out.
  destruct r3 as [[]|e]; [|by destruct H].
  assert (Hi3 : entry (state σ3) "intel" = entry s2 "intel").
  { destruct (ARMED_MODE E).
    - apply Hloop in Hl as (_ & Ho & _). store_simpl in Ho.
      apply (outside_entry ["actions"; "alerts"]); [|done].
      apply not_elem_of_cons; split; [done|].
      apply not_elem_of_cons; split; [done|apply not_elem_of_nil].
    - by injection Hl as <-. }
  apply bind_inv in H. unfold now in H at 1. unfold assign in H.
  apply update_inv in H. store_simpl in H.
  destruct (py_setitem (state σ3) "last_run" _) as [s4|e] eqn:H4; [|by destruct H].
  destruct H as [_ ->].
  apply py_setitem_outside in H4 as [Ho4 Hl4].
  exists containers, snap, roles, doc, i0, (time_at E (clock σ3)).
  repeat split; try done. store_simpl.
  rewrite (outside_entry ["last_run"] "intel" (state σ3)); [congruence| |done].
  apply not_elem_of_cons; split; [done|apply not_elem_of_nil].
Qed.

Lemma refreshes_protected guard (loop : list (string * py) → M unit) handler
    (tick : M unit) E fs :
  (∀ roles E σ r σ', loop roles E σ = (r, σ') → loop_ok (guard E) roles σ r σ') →
  error_handler handler →
  tick E (start fs) = protected (suite loop) handler E (with_state (loaded fs) (start fs)) →
  refreshes tick E fs.
Proof.
  intros Hloop Hh Htick. unfold refreshes. rewrite Htick.
  unfold protected, bind, try_catch.
  destruct (suite loop E _) as [r1 σ1] eqn:H1. destruct r1 as [[]|e].
  - cbn [fst snd write_state state]. intros _.
    by apply (suite_done guard) in H1.
  - intros Hno. exfalso. apply (Hno e).
    destruct (Hh e E (log (Caught e) σ1)) as (item & _ & Hrun).
    destruct (appended "alerts" item _) as [s2|e']; destruct Hrun as [c ->]; simpl;
      set_solver.
Qed.

(** X18.  A tick that catches no exception leaves, in both versions, under
    "intel" the loaded intel with "containers" set to the snapshot of the
    listing and "roles" to the document of the roles, its other keys being
    kept, and under "last_run" a time. *)
Theorem X18_tick_refreshes_intel (E : env) (fs : files) :
  refreshes Agent.tick E fs ∧ refreshes Image.agent_tick E fs.
Proof.
  split.
  - apply (refreshes_protected (λ _ _, true)
             (λ roles, for_each role_names (Agent.loop_body roles)) Agent.handler).
    + intros roles E' σ r σ' H. by apply loop_agent in H.
    + apply handler_agent.
    + apply tick_agent_start.
  - apply (refreshes_protected (λ E k, negb (failsafe E (loaded_allowlist fs) k))
             (λ roles, for_each role_names (Image.loop_body (loaded_allowlist fs) roles))
             Image.handler).
    + intros roles E' σ r σ' H. by apply loop_image in H as [? _].
    + apply handler_image.
    + apply tick_image_start.
Qed.

(** A tick with MiningCore down, from a state whose intel holds the key
    "host": 0.1.1 restarts the miner, 0.1.2 holds it back, and both refresh
    the intel over that key. *)
Lemma X18_tick_refreshes_example :
  entry (loaded intel_kept) "intel" =
    Some (dict_of [("containers", PList []); ("host", PStr "umbrel")]) ∧
  containers_reply miner_down = Ok (PList [bch_node; miner]) ∧
  (∃ containers snap roles doc intel ts,
    containers_reply miner_down = Ok containers ∧
    snapshot containers = Ok snap ∧
    classify containers = Ok roles ∧
    roles_doc roles = Ok doc ∧
    entry (loaded intel_kept) "intel" = Some (PDict intel) ∧
    entry (state (Agent.tick miner_down (start intel_kept)).2) "intel" =
      Some (PDict (<["roles" := doc]> (<["containers" := snap]> intel))) ∧
    entry (state (Agent.tick miner_down (start intel_kept)).2) "last_run"
      = Some (PInt ts)) ∧
  (∃ containers snap roles doc intel ts,
    containers_reply miner_down = Ok containers ∧
    snapshot containers = Ok snap ∧
    classify containers = Ok roles ∧
    roles_doc roles = Ok doc ∧
    entry (loaded intel_kept) "intel" = Some (PDict intel) ∧
    entry (state (Image.agent_tick miner_down (start intel_kept)).2) "intel" =
      Some (PDict (<["roles" := doc]> (<["containers" := snap]> intel))) ∧
    entry (state (Image.agent_tick miner_down (start intel_kept)).2) "last_run"
      = Some (PInt ts)).
Proof.
  split; [by vm_compute|]. split; [done|].
  destruct (X18_tick_refreshes_intel miner_down intel_kept) as [HA HI].
  split; [apply HA|apply HI]; intros e Hin; vm_compute in Hin;
    repeat (apply elem_of_cons in Hin as [Hin|Hin]; [discriminate Hin|]);
    by apply elem_of_nil in Hin.
Defined.

(** ** What a tick keeps *)

Lemma keeps_ret {A} P (a : A) : keeps P (ret a).
Proof. by intros E σ r σ' [= <- <-]. Qed.

Lemma keeps_lift {A} P (x : result A) : keeps P (lift x).
Proof. by intros E σ r σ' [= <- <-]. Qed.

Lemma keeps_ask {A} P (f : env → A) : keeps P (ask f).
Proof. by intros E σ r σ' [= <- <-]. Qed.

Lemma keeps_now P : keeps P now.
Proof. by intros E σ r σ' [= <- <-]. Qed.

Lemma keeps_bind {A B} P (m : M A) (k : A → M B) :
  keeps P m → (∀ a, keeps P (k a)) → keeps P (bind m k).
Proof.
  intros Hm Hk E σ r σ' H HP. apply bind_inv in H.
  destruct (m E σ) as [[a|e] σ1] eqn:H1.
  - eapply Hk; [done|]. by eapply Hm.
  - destruct H as [-> ->]. by eapply Hm.
Qed.

Lemma keeps_update P f :
  (∀ s s', f s = Ok s' → P s → P s') → keeps P (update f).
Proof.
  intros Hf E σ r σ' H HP. apply update_inv in H.
  destruct (f (state σ)) as [s|e] eqn:Hs; destruct H as [-> ->]; [|done].
  simpl. by eapply Hf.
Qed.

Lemma keeps_for_each {A} P (ks : list A) (body : A → M unit) :
  (∀ k, keeps P (body k)) → keeps P (for_each ks body).
Proof.
  intros Hb. induction ks as [|k ks IH]; [apply keeps_ret|].
  cbn [for_each]. apply keeps_bind; [apply Hb|]. by intros _.
Qed.

Lemma keeps_try_catch {A} P (body : M A) (handler : exn → M A) :
  keeps P body → (∀ e, keeps P (handler e)) → keeps P (try_catch body handler).
Proof.
  intros Hb Hh E σ r σ' H HP. unfold try_catch in H.
  destruct (body E σ) as [[a|e] σ1] eqn:H1.
  - injection H as <- <-. by eapply Hb.
  - eapply Hh; [done|]. simpl. by eapply Hb.
Qed.

Lemma keeps_list_request P : keeps P list_request.
Proof.
  intros E σ r σ' H HP. unfold list_request in H.
  by destruct (containers_reply E); injection H as <- <-.
Qed.

Lemma keeps_restart_request P failure k id : keeps P (restart_request failure k id).
Proof.
  intros E σ r σ' H HP. apply restart_request_inv in H as (ok & -> & _). done.
Qed.

Lemma keeps_write_state P : keeps P write_state.
Proof. by intros E σ r σ' [= <- <-]. Qed.

Lemma keeps_push P key item :
  kept_by_updates P → key = "actions" ∨ key = "alerts" → keeps P (Agent.push key item).
Proof.
  intros (_ & Happ & _) Hk E σ r σ' H HP. rewrite push_eq in H.
  apply update_inv in H. destruct (appended key item (state σ)) as [s|e] eqn:Hs;
    destruct H as [-> ->]; [|done]. simpl. by eapply Happ.
Qed.

Lemma keeps_action_log P kind details :
  kept_by_updates P → keeps P (Image.action_log kind details).
Proof.
  intros (_ & Happ & _) E σ r σ' H HP. rewrite action_log_eq in H.
  destruct (appended "actions" _ (state σ)) as [s|e] eqn:Hs; injection H as <- <-; [|done].
  simpl. eapply Happ; [|done..]. by left.
Qed.

Lemma keeps_alert P level msg meta :
  kept_by_updates P → keeps P (Image.alert level msg meta).
Proof.
  intros (_ & Happ & _) E σ r σ' H HP. rewrite alert_eq in H.
  destruct (appended "alerts" _ (state σ)) as [s|e] eqn:Hs; injection H as <- <-; [|done].
  simpl. eapply Happ; [|done..]. by right.
Qed.

Lemma keeps_set_intel P key x : kept_by_updates P → keeps P (set_intel key x).
Proof. intros (Hi & _). apply keeps_update. intros s s'. apply Hi. Qed.

Lemma keeps_last_run P ts : kept_by_updates P → keeps P (assign "last_run" (PInt ts)).
Proof. intros (_ & _ & Hl). apply keeps_update. intros s s'. apply Hl. Qed.

Lemma keeps_loop_body_agent P roles k :
  kept_by_updates P → keeps P (Agent.loop_body roles k).
Proof.
  intros HP. unfold Agent.loop_body. destruct (negb _); [apply keeps_ret|].
  apply keeps_bind; [apply keeps_lift|]. intros st.
  destruct (down st); [|apply keeps_ret].
  apply keeps_bind; [apply keeps_lift|]. intros id.
  apply keeps_bind; [apply keeps_restart_request|]. intros _.
  apply keeps_bind; [apply keeps_now|]. intros ts.
  apply keeps_push; [done|by left].
Qed.

Lemma keeps_loop_body_image P a roles k :
  kept_by_updates P → keeps P (Image.loop_body a roles k).
Proof.
  intros HP. unfold Image.loop_body. destruct (negb _); [apply keeps_ret|].
  apply keeps_bind; [apply keeps_lift|]. intros st.
  destruct (down st); [|apply keeps_ret].
  apply keeps_bind; [apply keeps_ask|]. intros fsafe.
  destruct (_ && _); [by apply keeps_alert|].
  apply keeps_bind; [apply keeps_lift|]. intros id.
  apply keeps_bind; [apply keeps_restart_request|]. intros _.
  apply keeps_bind; [apply keeps_lift|]. intros id'.
  by apply keeps_action_log.
Qed.

Lemma keeps_suite P loop :
  kept_by_updates P → (∀ roles, keeps P (loop roles)) → keeps P (suite loop).
Proof.
  intros HP Hloop. unfold suite.
  apply keeps_bind; [apply keeps_list_request|]. intros containers.
  apply keeps_bind; [apply keeps_lift|]. intros snap.
  apply keeps_bind; [by apply keeps_set_intel|]. intros _.
  apply keeps_bind; [apply keeps_lift|]. intros roles.
  apply keeps_bind; [apply keeps_lift|]. intros doc.
  apply keeps_bind; [by apply keeps_set_intel|]. intros _.
  apply keeps_bind; [apply keeps_ask|]. intros armed.
  apply keeps_bind; [destruct armed; [apply Hloop|apply keeps_ret]|]. intros _.
  apply keeps_bind; [apply keeps_now|]. intros ts.
  by apply keeps_last_run.
Qed.

Lemma keeps_protected P body handler :
  keeps P body → (∀ e, keeps P (handler e)) → keeps P (protected body handler).
Proof.
  intros Hb Hh. unfold protected.
  apply keeps_bind; [by apply keeps_try_catch|]. intros _. apply keeps_write_state.
Qed.

Lemma keeps_tick_agent P E fs :
  kept_by_updates P → P (loaded fs) → P (state (Agent.tick E (start fs)).2).
Proof.
  intros HP H0. rewrite tick_agent_start.
  destruct (protected _ _ E _) as [r σ'] eqn:H. revert H0.
  change (loaded fs) with (state (with_state (loaded fs) (start fs))).
  eapply keeps_protected; [| |exact H].
  - rewrite try_suite_agent. apply keeps_suite; [done|]. intros roles.
    apply keeps_for_each. intros k. by apply keeps_loop_body_agent.
  - intros e. unfold Agent.handler. apply keeps_bind; [apply keeps_now|]. intros ts.
    apply keeps_push; [done|by right].
Qed.

Lemma keeps_tick_image P E fs :
  kept_by_updates P → P (loaded fs) → P (state (Image.agent_tick E (start fs)).2).
Proof.
  intros HP H0. rewrite tick_image_start.
  destruct (protected _ _ E _) as [r σ'] eqn:H. revert H0.
  change (loaded fs) with (state (with_state (loaded fs) (start fs))).
  eapply keeps_protected; [| |exact H].
  - rewrite try_suite_image. apply keeps_suite; [done|]. intros roles.
    apply keeps_for_each. intros k. by apply keeps_loop_body_image.
  - intros e. unfold Image.handler. by apply keeps_alert.
Qed.

Lemma state_shaped_kept : kept_by_updates (λ s, state_shaped s = true).
Proof.
  split; [|split].
  - intros key x s s' H Hs. destruct s as [| | | | | |d]; try done.
    unfold intel_set in H. cbn [py_getitem] in H.
    destruct (d !! "intel") as [i|] eqn:Hi; [|done]. cbn [rbind] in H.
    destruct i as [| | | | | |i]; try done. injection H as <-.
    simpl in *. rewrite lookup_insert_eq, !lookup_insert_ne by done.
    rewrite Hi in Hs. done.
  - intros key item s s' Hk H Hs.
    apply appended_outside in H as ([Hd Ho] & _ & Hen).
    destruct s as [| | | | | |d], s' as [| | | | | |d']; try done. simpl in *.
    apply andb_prop in Hs as [[[H1 H2]%andb_prop H3]%andb_prop H4].
    destruct Hk as [-> | ->];
      rewrite Hen, !Ho by (apply not_elem_of_cons; split; [done|apply not_elem_of_nil]);
      rewrite H1, H2, ?H3, ?H4; done.
  - intros ts s s' H Hs. destruct s as [| | | | | |d]; try done. injection H as <-.
    simpl in *. rewrite lookup_insert_eq, !lookup_insert_ne by done.
    apply andb_prop in Hs as [[[_ ->]%andb_prop ->]%andb_prop ->].
    rewrite bool_decide_eq_true_2; [done|eauto].
Qed.

Lemma fits_kept : kept_by_updates (λ s, fits s = true).
Proof.
  split; [|split].
  - intros key x s s' H Hs. apply intel_set_outside in H as [[_ Ho] Hd].
    unfold fits in *.
    rewrite Hd, !Ho by (apply not_elem_of_cons; split; [done|apply not_elem_of_nil]).
    by apply andb_prop in Hs as [[_ ->]%andb_prop ->].
  - intros key item s s' Hk H Hs.
    apply appended_outside in H as ([_ Ho] & Hd & Hen).
    assert (Hshort : short (entry s' key) = true).
    { rewrite Hen. simpl. apply Nat.leb_le. rewrite last_n_length. lia. }
    unfold fits in *. rewrite Hd. apply andb_prop in Hs as [[_ Ha]%andb_prop Hb].
    destruct Hk as [-> | ->]; rewrite Hshort.
    + rewrite Ho by (apply not_elem_of_cons; split; [done|apply not_elem_of_nil]).
      by rewrite Hb.
    + rewrite Ho by (apply not_elem_of_cons; split; [done|apply not_elem_of_nil]).
      by rewrite Ha.
  - intros ts s s' H Hs. apply py_setitem_outside in H as [[Hd Ho] _].
    unfold fits in *.
    rewrite Hd, !Ho by (apply not_elem_of_cons; split; [done|apply not_elem_of_nil]).
    done.
Qed.

Lemma state_shaped_appendable_at s key :
  key = "actions" ∨ key = "alerts" → state_shaped s = true → appendable_at key s = true.
Proof.
  destruct s as [| | | | | |d]; try done. unfold appendable_at. simpl.
  intros [-> | ->] [[_ H1]%andb_prop H2]%andb_prop.
  - by destruct (d !! "actions") as [[]|].
  - by destruct (d !! "alerts") as [[]|].
Qed.

Lemma ticks_save_back E fs :
  saves_back Agent.tick E fs ∧ saves_back Image.agent_tick E fs.
Proof.
  split.
  - eapply (saves_back_protected (λ _ _, true));
      [intros; by apply suite_agent|apply handler_agent|apply tick_agent_start].
  - eapply (saves_back_protected (λ E k, negb (failsafe E (loaded_allowlist fs) k)));
      [intros; by apply suite_image|apply handler_image|apply tick_image_start].
Qed.

Lemma ticks_run_clean : runs_clean Agent.tick ∧ runs_clean Image.agent_tick.
Proof.
  split; intros E fs Hs out; subst out.
  - destruct (ticks_save_back E fs) as [[_ Hsave] _].
    destruct Hsave as (Hok & Hfile & Hal & _).
    { left. by apply state_shaped_appendable_at; [right|]. }
    split; [done|]. split; [done|]. split; [done|].
    split; [by apply (keeps_tick_agent _ E fs state_shaped_kept)|].
    split; [by apply (keeps_tick_agent _ E fs fits_kept)|].
    apply ticks_justified.
  - destruct (ticks_save_back E fs) as [_ [_ Hsave]].
    destruct Hsave as (Hok & Hfile & Hal & _).
    { left. by apply state_shaped_appendable_at; [right|]. }
    split; [done|]. split; [done|]. split; [done|].
    split; [by apply (keeps_tick_image _ E fs state_shaped_kept)|].
    split; [by apply (keeps_tick_image _ E fs fits_kept)|].
    apply ticks_justified.
Qed.

(** X19.  From a state file that is missing, unreadable or state-shaped, a
    tick of either version returns whatever the proxy answers, and the file
    then holds the state the tick ends with, which is state-shaped again and
    is what [load_state] returns from then on; and when the two logs of the
    loaded state hold at most 200 entries each, so do those of the state
    that is written. *)
Theorem X19_tick_keeps_state_shaped (E : env) (fs : files) :
  state_shaped (loaded fs) = true →
  (let out := Agent.tick E (start fs) in
   out.1 = Ok tt ∧ load_state (state_file (disk out.2)) = Ok (state out.2) ∧
   state_shaped (state out.2) = true ∧
   (fits (loaded fs) = true → fits (state out.2) = true)) ∧
  (let out := Image.agent_tick E (start fs) in
   out.1 = Ok tt ∧ load_state (state_file (disk out.2)) = Ok (state out.2) ∧
   state_shaped (state out.2) = true ∧
   (fits (loaded fs) = true → fits (state out.2) = true)).
Proof.
  intros Hs. destruct ticks_run_clean as [H1 H2].
  destruct (H1 E fs Hs) as (? & Hf1 & _ & ? & ? & _).
  destruct (H2 E fs Hs) as (? & Hf2 & _ & ? & ? & _).
  cbv zeta. rewrite Hf1, Hf2. done.
Qed.

(** The first tick, with no state file, when every restart is refused. *)
Lemma X19_tick_keeps_state_shaped_example :
  state_shaped (loaded no_files) = true ∧
  (let out := Agent.tick restarts_refused (start no_files) in
   out.1 = Ok tt ∧ load_state (state_file (disk out.2)) = Ok (state out.2) ∧
   state_shaped (state out.2) = true ∧
   (fits (loaded no_files) = true → fits (state out.2) = true)) ∧
  (let out := Image.agent_tick restarts_refused (start no_files) in
   out.1 = Ok tt ∧ load_state (state_file (disk out.2)) = Ok (state out.2) ∧
   state_shaped (state out.2) = true ∧
   (fits (loaded no_files) = true → fits (state out.2) = true)).
Proof.
  split; [by vm_compute|].
  apply (X19_tick_keeps_state_shaped restarts_refused no_files). by vm_compute.
Defined.

(** ** A tick in which nothing fails *)

Lemma bind_lift_Ok {A B} (a : A) (k : A → M B) E σ : bind (lift (Ok a)) k E σ = k a E σ.
Proof. reflexivity. Qed.

Lemma bind_ask {A B} (f : env → A) (k : A → M B) E σ : bind (ask f) k E σ = k (f E) E σ.
Proof. reflexivity. Qed.

Lemma bind_now {B} (k : Z → M B) E σ :
  bind now k E σ = k (time_at E (clock σ)) E (tick_clock σ).
Proof. reflexivity. Qed.

Lemma bind_Ok {A B} (m : M A) (k : A → M B) E σ a σ1 :
  m E σ = (Ok a, σ1) → bind m k E σ = k a E σ1.
Proof. intros H. unfold bind. by rewrite H. Qed.

Lemma inspectable_listed c : inspectable c = true → listed c = true.
Proof. by intros [[? _]%andb_prop _]%andb_prop. Qed.

Lemma listed_dict c : listed c = true → is_PDict c = true.
Proof. by intros [[? _]%andb_prop _]%andb_prop. Qed.

Lemma inspectable_due roles k :
  inspectable (role roles k) = true →
  ∃ st id, truthy (role roles k) = true ∧ state_of (role roles k) = Ok st ∧
           py_getitem (role roles k) "Id" = Ok id ∧ py_get (role roles k) "Id" = Ok id ∧
           due roles k = if down st then Some id else None.
Proof.
  unfold due. destruct (role roles k) as [| | | | | |d]; try done.
  unfold inspectable. intros [[_ Hid%bool_decide_eq_true]%andb_prop Hst]%andb_prop.
  cbn [entry] in *. destruct Hid as [id Hid].
  assert (Ht : truthy (PDict d) = true).
  { apply truthy_dict. intros ->. by rewrite lookup_empty in Hid. }
  rewrite Ht. unfold state_of, py_get. cbn [py_getitem rbind]. rewrite Hid. cbn [default].
  destruct (d !! "State") as [[| | | |s| |]|]; try done; cbn [default por truthy].
  - exists "", id. by repeat split.
  - exists (lower s), id. destruct s; by repeat split.
  - exists "", id. by repeat split.
Qed.

Lemma none_due roles k : role roles k = PNone → due roles k = None.
Proof. unfold due. by intros ->. Qed.

Lemma accepted E σ failure k id :
  accepting E →
  restart_request failure k id E σ = (Ok tt, log (Restarted k id true) σ).
Proof.
  intros HE. unfold restart_request.
  destruct (HE (length (trace σ)) id) as (code & text & -> & [-> | ->]); done.
Qed.

Lemma restarts_due_cons guard roles k ks :
  restarts_due guard roles (k :: ks) =
  match due roles k with
  | Some id => if guard k then Restarted k id true :: restarts_due guard roles ks
               else restarts_due guard roles ks
  | None => restarts_due guard roles ks
  end.
Proof.
  unfold restarts_due. cbn [omap list_omap]. destruct (guard k), (due roles k); done.
Qed.

Lemma held_back_cons E a roles k ks :
  held_back E a roles (k :: ks) =
  match due roles k with
  | Some _ => if failsafe E a k then k :: held_back E a roles ks else held_back E a roles ks
  | None => held_back E a roles ks
  end.
Proof.
  unfold held_back. rewrite filter_cons.
  destruct (due roles k) as [id|], (failsafe E a k); case_decide as H; try done.
  - destruct H. split; [done|eauto].
  - by destruct H as [? _].
  - by destruct H as [_ [? ?]].
  - by destruct H as [? _].
Qed.

Lemma held_back_role_names E a roles :
  held_back E a roles role_names =
  if failsafe E a "miningcore" && bool_decide (is_Some (due roles "miningcore"))
  then ["miningcore"] else [].
Proof.
  unfold role_names. rewrite !held_back_cons.
  rewrite !(failsafe_other E a) by done.
  destruct (due roles "btc"), (due roles "bch"), (due roles "dgb");
    destruct (due roles "miningcore") as [id|], (failsafe E a "miningcore"); try done.
Qed.

Lemma agent_loop_body_runs roles E k σ :
  accepting E → role roles k = PNone ∨ inspectable (role roles k) = true →
  appendable_at "actions" (state σ) = true →
  match due roles k with
  | None => Agent.loop_body roles k E σ = (Ok tt, σ)
  | Some id =>
      ∃ s', appended "actions" (agent_action (time_at E (clock σ)) k) (state σ) = Ok s' ∧
            Agent.loop_body roles k E σ =
              (Ok tt, with_state s' (tick_clock (log (Restarted k id true) σ)))
  end.
Proof.
  intros HE Hrole Happ. unfold Agent.loop_body. destruct Hrole as [Hn|Hi].
  - rewrite (none_due _ _ Hn). cbv zeta. rewrite Hn. reflexivity.
  - destruct (inspectable_due roles k Hi) as (st & id & Ht & Hst & Hid & _ & ->).
    rewrite Ht. cbn [negb]. destruct (down st) eqn:Hdown.
    2:{ unfold bind, lift. by rewrite Hst, Hdown. }
    destruct (appended_Ok "actions" (agent_action (time_at E (clock σ)) k) (state σ) Happ)
      as [s' Hs']. exists s'. split; [done|].
    rewrite Hst, bind_lift_Ok, Hdown, Hid, bind_lift_Ok.
    rewrite (bind_Ok _ _ _ _ tt (log (Restarted k id true) σ)) by (by apply accepted).
    rewrite bind_now, push_eq. unfold update. store_simpl.
    fold (agent_action (time_at E (clock σ)) k). by rewrite Hs'.
Qed.

Lemma agent_loop_runs roles E ks σ :
  accepting E →
  (∀ k, k ∈ ks → role roles k = PNone ∨ inspectable (role roles k) = true) →
  appendable_at "actions" (state σ) = true →
  (length (list_at (state σ) "actions") ≤ 200)%nat →
  ∃ σ' items,
    for_each ks (Agent.loop_body roles) E σ = (Ok tt, σ') ∧
    disk σ' = disk σ ∧
    trace σ' = trace σ ++ restarts_due (λ _, true) roles ks ∧
    Forall2 logs_agent (restarts_due (λ _, true) roles ks) items ∧
    list_at (state σ') "actions" = last_n 200 (list_at (state σ) "actions" ++ items) ∧
    ∀ k, k ≠ "actions" → entry (state σ') k = entry (state σ) k.
Proof.
  intros HE. revert σ. induction ks as [|k ks IH]; intros σ Hroles Happ Hlen.
  - exists σ, []. rewrite !app_nil_r, last_n_short by done. by repeat split.
  - pose proof (agent_loop_body_runs roles E k σ HE) as Hk.
    specialize (Hk (Hroles k (list_elem_of_here _ _)) Happ).
    assert (Hrest : ∀ k', k' ∈ ks → role roles k' = PNone ∨ inspectable (role roles k') = true).
    { intros k' Hin. apply Hroles. by apply list_elem_of_further. }
    cbn [for_each]. unfold bind at 1. rewrite restarts_due_cons.
    destruct (due roles k) as [id|] eqn:Hdue.
    + destruct Hk as (s' & Hs' & ->).
      apply appended_list_at in Hs' as (Happ1 & Hl1 & Ho1).
      destruct (IH (with_state s' (tick_clock (log (Restarted k id true) σ))))
        as (σ' & items & Hrun & Hd & Ht & Hit & Hl & Ho); [done|done| |].
      { store_simpl. rewrite Hl1, last_n_length. lia. }
      exists σ', (agent_action (time_at E (clock σ)) k :: items).
      split; [done|]. split; [done|].
      split. { rewrite Ht. store_simpl. rewrite <- app_assoc. reflexivity. }
      split. { constructor; [|done]. by exists k, id, true, (time_at E (clock σ)). }
      split. { rewrite Hl. store_simpl. rewrite Hl1, last_n_app, <- app_assoc. done. }
      intros k' Hne. rewrite Ho by done. store_simpl. by apply Ho1.
    + rewrite Hk. by apply IH.
Qed.

Lemma image_loop_body_runs a roles E k σ :
  accepting E → role roles k = PNone ∨ inspectable (role roles k) = true →
  appendable_at "actions" (state σ) = true →
  appendable_at "alerts" (state σ) = true →
  match due roles k with
  | None => Image.loop_body a roles k E σ = (Ok tt, σ)
  | Some id =>
      if failsafe E a k
      then ∃ s', appended "alerts" (warning (time_at E (clock σ)) k) (state σ) = Ok s' ∧
                 Image.loop_body a roles k E σ = (Ok tt, tick_clock (with_state s' σ))
      else ∃ s', appended "actions" (image_action (time_at E (clock σ)) k id) (state σ) = Ok s' ∧
                 Image.loop_body a roles k E σ =
                   (Ok tt, tick_clock (with_state s' (log (Restarted k id true) σ)))
  end.
Proof.
  intros HE Hrole Hact Hal. unfold Image.loop_body. destruct Hrole as [Hn|Hi].
  - rewrite (none_due _ _ Hn). cbv zeta. rewrite Hn. reflexivity.
  - destruct (inspectable_due roles k Hi) as (st & id & Ht & Hst & Hid & Hid' & ->).
    rewrite Ht. cbn [negb]. destruct (down st) eqn:Hdown.
    2:{ unfold bind, lift. by rewrite Hst, Hdown. }
    rewrite Hst, bind_lift_Ok, Hdown, bind_ask. fold (failsafe E a k).
    destruct (failsafe E a k) eqn:Hfs.
    + destruct (appended_Ok "alerts" (warning (time_at E (clock σ)) k) (state σ) Hal)
        as [s' Hs']. exists s'. split; [done|].
      rewrite alert_eq. fold (warning (time_at E (clock σ)) k). by rewrite Hs'.
    + destruct (appended_Ok "actions" (image_action (time_at E (clock σ)) k id) (state σ) Hact)
        as [s' Hs']. exists s'. split; [done|].
      rewrite Hid, bind_lift_Ok.
      rewrite (bind_Ok _ _ _ _ tt (log (Restarted k id true) σ)) by (by apply accepted).
      rewrite Hid', bind_lift_Ok, action_log_eq. store_simpl.
      fold (image_action (time_at E (clock σ)) k id). by rewrite Hs'.
Qed.

Lemma image_loop_runs a roles E ks σ :
  accepting E →
  (∀ k, k ∈ ks → role roles k = PNone ∨ inspectable (role roles k) = true) →
  appendable_at "actions" (state σ) = true →
  appendable_at "alerts" (state σ) = true →
  (length (list_at (state σ) "actions") ≤ 200)%nat →
  (length (list_at (state σ) "alerts") ≤ 200)%nat →
  ∃ σ' items warnings,
    for_each ks (Image.loop_body a roles) E σ = (Ok tt, σ') ∧
    disk σ' = disk σ ∧
    trace σ' = trace σ ++ restarts_due (λ k, negb (failsafe E a k)) roles ks ∧
    Forall2 logs_image (restarts_due (λ k, negb (failsafe E a k)) roles ks) items ∧
    Forall2 (λ k w, ∃ ts, w = warning ts k) (held_back E a roles ks) warnings ∧
    list_at (state σ') "actions" = last_n 200 (list_at (state σ) "actions" ++ items) ∧
    list_at (state σ') "alerts" = last_n 200 (list_at (state σ) "alerts" ++ warnings) ∧
    ∀ k, k ≠ "actions" → k ≠ "alerts" → entry (state σ') k = entry (state σ) k.
Proof.
  intros HE. revert σ. induction ks as [|k ks IH]; intros σ Hroles Hact Hal Hlen Hlen'.
  - exists σ, [], []. rewrite !app_nil_r, !last_n_short by done. by repeat split.
  - pose proof (image_loop_body_runs a roles E k σ HE) as Hk.
    specialize (Hk (Hroles k (list_elem_of_here _ _)) Hact Hal).
    assert (Hrest : ∀ k', k' ∈ ks → role roles k' = PNone ∨ inspectable (role roles k') = true).
    { intros k' Hin. apply Hroles. by apply list_elem_of_further. }
    cbn [for_each]. rewrite restarts_due_cons, held_back_cons.
    destruct (due roles k) as [id|] eqn:Hdue.
    2:{ rewrite (bind_Ok _ _ _ _ tt σ) by done. by apply IH. }
    destruct (failsafe E a k) eqn:Hfs; cbn [negb]; destruct Hk as (s' & Hs' & Hk);
      rewrite (bind_Ok _ _ _ _ _ _ Hk).
    + apply appended_list_at in Hs' as (Hal1 & Hl1 & Ho1).
      destruct (IH (tick_clock (with_state s' σ)))
        as (σ' & items & warnings & Hrun & Hd & Ht & Hit & Hw & Hl & Hl' & Ho).
      { done. }
      { store_simpl. unfold appendable_at in *. unfold appendable_at in Hal1.
        apply andb_prop in Hal1 as [-> _]. rewrite Ho1 by done.
        by apply andb_prop in Hact as [_ ->]. }
      { done. }
      { store_simpl. unfold list_at. rewrite Ho1 by done. done. }
      { store_simpl. rewrite Hl1, last_n_length. lia. }
      exists σ', items, (warning (time_at E (clock σ)) k :: warnings).
      split; [done|]. split; [done|]. split; [done|]. split; [done|].
      split. { constructor; [|done]. eauto. }
      split. { rewrite Hl. store_simpl. unfold list_at. by rewrite Ho1. }
      split. { rewrite Hl'. store_simpl. rewrite Hl1, last_n_app, <- app_assoc. done. }
      intros k' N1 N2. rewrite Ho by done. store_simpl. by apply Ho1.
    + apply appended_list_at in Hs' as (Hact1 & Hl1 & Ho1).
      destruct (IH (tick_clock (with_state s' (log (Restarted k id true) σ))))
        as (σ' & items & warnings & Hrun & Hd & Ht & Hit & Hw & Hl & Hl' & Ho).
      { done. }
      { done. }
      { store_simpl. unfold appendable_at in *. unfold appendable_at in Hact1.
        apply andb_prop in Hact1 as [-> _]. rewrite Ho1 by done.
        by apply andb_prop in Hal as [_ ->]. }
      { store_simpl. rewrite Hl1, last_n_length. lia. }
      { store_simpl. unfold list_at. rewrite Ho1 by done. done. }
      exists σ', (image_action (time_at E (clock σ)) k id :: items), warnings.
      split; [done|]. split; [done|].
      split. { rewrite Ht. store_simpl. rewrite <- app_assoc. reflexivity. }
      split. { constructor; [|done]. by exists k, id, true, (time_at E (clock σ)). }
      split; [done|].
      split. { rewrite Hl. store_simpl. rewrite Hl1, last_n_app, <- app_assoc. done. }
      split. { rewrite Hl'. store_simpl. unfold list_at. by rewrite Ho1. }
      intros k' N1 N2. rewrite Ho by done. store_simpl. by apply Ho1.
Qed.

Lemma intel_set_shaped key x s :
  state_shaped s = true → ∃ s', intel_set key x s = Ok s'.
Proof.
  destruct s as [| | | | | |d]; try done. unfold intel_set. simpl.
  intros [[[_ Hi]%andb_prop _]%andb_prop _]%andb_prop.
  destruct (d !! "intel") as [[]|]; try done. simpl. eauto.
Qed.

Lemma classify_inspectable cs :
  Forall (λ c, inspectable c = true) cs →
  ∃ roles, classify (PList cs) = Ok roles ∧
    ∀ k, role roles k = PNone ∨ inspectable (role roles k) = true.
Proof.
  intros Hi. assert (Hl : Forall (λ c, listed c = true) cs).
  { eapply Forall_impl; [exact Hi|]. apply inspectable_listed. }
  destruct (classify_listed cs Hl) as (b & c & d & m & Hr & Hb & Hc & Hd & Hm).
  apply first_match_member in Hb, Hc, Hd, Hm.
  eexists. split; [exact Hr|]. rewrite Forall_forall in Hi.
  assert (Hpick : ∀ x, x = PNone ∨ x ∈ cs → x = PNone ∨ inspectable x = true).
  { intros x [?|?]; [by left|right; auto]. }
  intros k. unfold role. cbn [list_to_map foldr uncurry].
  destruct (decide (k = "btc")) as [->|N1]; [rewrite lookup_insert_eq; by apply Hpick|].
  rewrite lookup_insert_ne by done.
  destruct (decide (k = "bch")) as [->|N2]; [rewrite lookup_insert_eq; by apply Hpick|].
  rewrite lookup_insert_ne by done.
  destruct (decide (k = "dgb")) as [->|N3]; [rewrite lookup_insert_eq; by apply Hpick|].
  rewrite lookup_insert_ne by done.
  destruct (decide (k = "miningcore")) as [->|N4]; [rewrite lookup_insert_eq; by apply Hpick|].
  rewrite lookup_insert_ne by done. by left.
Qed.

Lemma roles_doc_inspectable cs roles :
  Forall (λ c, inspectable c = true) cs → classify (PList cs) = Ok roles →
  ∃ doc, roles_doc roles = Ok doc.
Proof.
  intros Hi Hr. assert (Hl : Forall (λ c, listed c = true) cs).
  { eapply Forall_impl; [exact Hi|]. apply inspectable_listed. }
  destruct (roles_doc_listed cs Hl) as (roles' & doc & Hr' & Hdoc & _).
  rewrite Hr in Hr'. injection Hr' as <-. eauto.
Qed.

Lemma suite_runs (loop : list (string * py) → M unit) E σ cs roles :
  containers_reply E = Ok (PList cs) →
  Forall (λ c, inspectable c = true) cs →
  classify (PList cs) = Ok roles →
  state_shaped (state σ) = true →
  ∃ s, state_shaped s = true ∧ outside ["intel"] (state σ) s ∧
    ∀ σL, (if ARMED_MODE E then loop roles else ret tt) E
            (with_state s (log (Listed true) σ)) = (Ok tt, σL) →
          is_PDict (state σL) = true →
          ∃ s', py_setitem (state σL) "last_run" (PInt (time_at E (clock σL))) = Ok s' ∧
                suite loop E σ = (Ok tt, with_state s' (tick_clock σL)).
Proof.
  intros Hlist Hi Hr Hs.
  assert (Hd : Forall (λ c, is_PDict c = true) cs).
  { eapply Forall_impl; [exact Hi|]. intros c Hc. by apply listed_dict, inspectable_listed. }
  destruct (roles_doc_inspectable cs roles Hi Hr) as [doc Hdoc].
  destruct (intel_set_shaped "containers" (PList (summary_of <$> cs)) (state σ) Hs) as [s1 H1].
  pose proof (proj1 state_shaped_kept _ _ _ _ H1 Hs) as Hs1.
  destruct (intel_set_shaped "roles" doc s1 Hs1) as [s2 H2].
  pose proof (proj1 state_shaped_kept _ _ _ _ H2 Hs1) as Hs2.
  apply intel_set_outside in H1 as Ho1. apply intel_set_outside in H2 as Ho2.
  destruct Ho1 as [Ho1 _], Ho2 as [Ho2 _].
  assert (Ho : outside ["intel"] (state σ) s2) by (by eapply outside_trans).
  exists s2. split; [done|]. split; [done|]. intros σL Hrun HdL.
  destruct (py_setitem_dict _ "last_run" (PInt (time_at E (clock σL))) HdL) as [s' Hs'].
  exists s'. split; [done|].
  unfold suite.
  rewrite (bind_Ok _ _ _ _ (PList cs) (log (Listed true) σ))
    by (unfold list_request; by rewrite Hlist).
  unfold snapshot. cbn [py_iter rbind]. rewrite rmapM_summary by done. cbn [rbind].
  rewrite bind_lift_Ok.
  rewrite (bind_Ok _ _ _ _ tt (with_state s1 (log (Listed true) σ)))
    by (unfold set_intel, update; store_simpl; by rewrite H1).
  rewrite Hr, bind_lift_Ok, Hdoc, bind_lift_Ok.
  rewrite (bind_Ok _ _ _ _ tt (with_state s2 (log (Listed true) σ)))
    by (unfold set_intel, update; store_simpl; by rewrite H2).
  rewrite bind_ask. rewrite (bind_Ok _ _ _ _ tt _ Hrun).
  rewrite bind_now. unfold assign, update. store_simpl. by rewrite Hs'.
Qed.

Lemma short_length s key :
  short (entry s key) = true → (length (list_at s key) ≤ 200)%nat.
Proof.
  unfold list_at. destruct (entry s key) as [[]|]; simpl; try lia; try done.
  by intros ?%Nat.leb_le.
Qed.

Lemma protected_Ok body handler E σ σ' :
  body E σ = (Ok tt, σ') → protected body handler E σ = (Ok tt, written σ').
Proof. intros H. unfold protected, bind, try_catch. by rewrite H. Qed.

Lemma outside_list_at keys k s s' :
  k ∉ keys → outside keys s s' → list_at s' k = list_at s k.
Proof. intros Hk Ho. unfold list_at. by rewrite (outside_entry keys k s s'). Qed.

Lemma entry_is_PDict s k : is_Some (entry s k) → is_PDict s = true.
Proof. destruct s; try done; by intros [? ?]. Qed.

Lemma state_shaped_last_run s : state_shaped s = true → is_Some (entry s "last_run").
Proof.
  destruct s as [| | | | | |d]; try done. simpl.
  by intros [[[?%bool_decide_eq_true _]%andb_prop _]%andb_prop _]%andb_prop.
Qed.

Lemma agent_tick_runs (E : env) (fs : files) (cs : list py) :
  state_shaped (loaded fs) = true → fits (loaded fs) = true →
  containers_reply E = Ok (PList cs) →
  Forall (λ c, inspectable c = true) cs →
  accepting E →
  let out := Agent.tick E (start fs) in
  ∃ roles items,
    classify (PList cs) = Ok roles ∧
    out.1 = Ok tt ∧
    trace out.2 =
      Listed true :: plan (λ _, true) E roles ++ [Wrote STATE_PATH (state out.2)] ∧
    Forall2 logs_agent (plan (λ _, true) E roles) items ∧
    list_at (state out.2) "actions" = last_n 200 (list_at (loaded fs) "actions" ++ items) ∧
    entry (state out.2) "alerts" = entry (loaded fs) "alerts".
Proof.
  intros Hs Hfit Hlist Hi HE out. subst out.
  destruct (classify_inspectable cs Hi) as (roles & Hr & Hroles).
  rewrite tick_agent_start, try_suite_agent.
  set (σ := with_state (loaded fs) (start fs)).
  destruct (suite_runs (λ roles, for_each role_names (Agent.loop_body roles)) E σ cs roles)
    as (s & Hs1 & Ho1 & Hk); [done..|].
  apply andb_prop in Hfit as [[_ Hshort]%andb_prop _].
  assert (Hlen : (length (list_at s "actions") ≤ 200)%nat).
  { rewrite (outside_list_at ["intel"] "actions" (loaded fs)) by (done || set_solver).
    by apply short_length. }
  assert (HL : ∃ σL items,
    (if ARMED_MODE E then for_each role_names (Agent.loop_body roles) else ret tt) E
      (with_state s (log (Listed true) σ)) = (Ok tt, σL) ∧
    disk σL = fs ∧
    trace σL = Listed true :: plan (λ _, true) E roles ∧
    Forall2 logs_agent (plan (λ _, true) E roles) items ∧
    list_at (state σL) "actions" = last_n 200 (list_at s "actions" ++ items) ∧
    ∀ k, k ≠ "actions" → entry (state σL) k = entry s k).
  { unfold plan. destruct (ARMED_MODE E).
    - destruct (agent_loop_runs roles E role_names (with_state s (log (Listed true) σ)))
        as (σL & items & Hrun & Hd & Ht & Hit & Hl & Ho); [done|by intros|..|by eauto 10].
      + by apply state_shaped_appendable_at; [left|].
      + done.
    - exists (with_state s (log (Listed true) σ)), []. rewrite app_nil_r, last_n_short by done.
      by repeat split. }
  destruct HL as (σL & items & Hrun & Hd & Ht & Hit & Hl & Ho).
  destruct (Hk σL Hrun) as (s' & Hs' & Hsuite).
  { apply (entry_is_PDict _ "last_run"). rewrite Ho by done. by apply state_shaped_last_run. }
  rewrite (protected_Ok _ _ _ _ _ Hsuite). cbn [fst snd written state trace with_state tick_clock].
  apply py_setitem_outside in Hs' as [Ho' _].
  exists roles, items. split; [done|]. split; [done|].
  split. { by rewrite Ht. }
  split; [done|].
  split.
  { rewrite (outside_list_at ["last_run"] "actions" (state σL)) by (done || set_solver).
    rewrite Hl.
    by rewrite (outside_list_at ["intel"] "actions" (loaded fs)) by (done || set_solver). }
  rewrite (outside_entry ["last_run"] "alerts" (state σL)) by (done || set_solver).
  rewrite Ho by done.
  by rewrite (outside_entry ["intel"] "alerts" (loaded fs)) by (done || set_solver).
Qed.

Lemma image_tick_runs (E : env) (fs : files) (cs : list py) :
  state_shaped (loaded fs) = true → fits (loaded fs) = true →
  containers_reply E = Ok (PList cs) →
  Forall (λ c, inspectable c = true) cs →
  accepting E →
  let out := Image.agent_tick E (start fs) in
  let a := loaded_allowlist fs in
  let guard := λ k, negb (failsafe E a k) in
  ∃ roles items warnings,
    classify (PList cs) = Ok roles ∧
    out.1 = Ok tt ∧
    trace out.2 = Listed true :: plan guard E roles ++ [Wrote STATE_PATH (state out.2)] ∧
    Forall2 logs_image (plan guard E roles) items ∧
    list_at (state out.2) "actions" = last_n 200 (list_at (loaded fs) "actions" ++ items) ∧
    list_at (state out.2) "alerts" = last_n 200 (list_at (loaded fs) "alerts" ++ warnings) ∧
    if ARMED_MODE E && failsafe E a "miningcore" && bool_decide (is_Some (due roles "miningcore"))
    then ∃ ts, warnings = [critical ts]
    else warnings = [].
Proof.
  intros Hs Hfit Hlist Hi HE out a guard. subst out guard.
  destruct (classify_inspectable cs Hi) as (roles & Hr & Hroles).
  rewrite tick_image_start, try_suite_image. fold a.
  set (σ := with_state (loaded fs) (start fs)).
  destruct (suite_runs (λ roles, for_each role_names (Image.loop_body a roles)) E σ cs roles)
    as (s & Hs1 & Ho1 & Hk); [done..|].
  apply andb_prop in Hfit as [[_ Hshort]%andb_prop Hshort'].
  assert (Hlen : (length (list_at s "actions") ≤ 200)%nat).
  { rewrite (outside_list_at ["intel"] "actions" (loaded fs)) by (done || set_solver).
    by apply short_length. }
  assert (Hlen' : (length (list_at s "alerts") ≤ 200)%nat).
  { rewrite (outside_list_at ["intel"] "alerts" (loaded fs)) by (done || set_solver).
    by apply short_length. }
  assert (HL : ∃ σL items warnings,
    (if ARMED_MODE E then for_each role_names (Image.loop_body a roles) else ret tt) E
      (with_state s (log (Listed true) σ)) = (Ok tt, σL) ∧
    disk σL = fs ∧
    trace σL = Listed true :: plan (λ k, negb (failsafe E a k)) E roles ∧
    Forall2 logs_image (plan (λ k, negb (failsafe E a k)) E roles) items ∧
    (if ARMED_MODE E && failsafe E a "miningcore"
        && bool_decide (is_Some (due roles "miningcore"))
     then ∃ ts, warnings = [critical ts] else warnings = []) ∧
    list_at (state σL) "actions" = last_n 200 (list_at s "actions" ++ items) ∧
    list_at (state σL) "alerts" = last_n 200 (list_at s "alerts" ++ warnings) ∧
    ∀ k, k ≠ "actions" → k ≠ "alerts" → entry (state σL) k = entry s k).
  { unfold plan. destruct (ARMED_MODE E).
    - destruct (image_loop_runs a roles E role_names (with_state s (log (Listed true) σ)))
        as (σL & items & warnings & Hrun & Hd & Ht & Hit & Hw & Hl & Hl' & Ho);
        [done|by intros|..].
      + by apply state_shaped_appendable_at; [left|].
      + by apply state_shaped_appendable_at; [right|].
      + done.
      + done.
      + exists σL, items, warnings. repeat split; try done.
        rewrite held_back_role_names in Hw. cbn [andb].
        destruct (failsafe E a "miningcore" && _).
        * inversion Hw as [|k w ks ws [ts ->] Hrest]; subst. inversion Hrest; subst.
          by exists ts.
        * by inversion Hw.
    - exists (with_state s (log (Listed true) σ)), [], [].
      rewrite !app_nil_r, !last_n_short by done. by repeat split. }
  destruct HL as (σL & items & warnings & Hrun & Hd & Ht & Hit & Hw & Hl & Hl' & Ho).
  destruct (Hk σL Hrun) as (s' & Hs' & Hsuite).
  { apply (entry_is_PDict _ "last_run"). rewrite Ho by done. by apply state_shaped_last_run. }
  rewrite (protected_Ok _ _ _ _ _ Hsuite). cbn [fst snd written state trace with_state tick_clock].
  apply py_setitem_outside in Hs' as [Ho' _].
  exists roles, items, warnings. split; [done|]. split; [done|].
  split. { by rewrite Ht. }
  split; [done|].
  split.
  { rewrite (outside_list_at ["last_run"] "actions" (state σL)) by (done || set_solver).
    rewrite Hl.
    by rewrite (outside_list_at ["intel"] "actions" (loaded fs)) by (done || set_solver). }
  split; [|done].
  rewrite (outside_list_at ["last_run"] "alerts" (state σL)) by (done || set_solver).
  rewrite Hl'.
  by rewrite (outside_list_at ["intel"] "alerts" (loaded fs)) by (done || set_solver).
Qed.

Lemma accepting_miner_down : accepting miner_down.
Proof. intros n id. exists 204, "". split; [done|by left]. Qed.

Lemma accepting_cash_down : accepting cash_down.
Proof. intros n id. exists 204, "". split; [done|by left]. Qed.

(** X20.  When the state file is missing, unreadable or state-shaped with
    logs of at most 200 entries, the listing holds containers as the Docker
    API lists them and the proxy accepts every restart, a tick of 0.1.1 does
    this and nothing else: it lists; if armed, it restarts the container of
    each role that has one that is down, once, in the order btc, bch, dgb,
    miningcore; it writes the state.  It returns, the actions of the written
    state are the loaded ones followed by one entry for each restart, cut to
    the last 200, and the alerts are as they were. *)
Theorem X20_agent_tick_restarts_what_is_down (E : env) (fs : files) (cs : list py) :
  state_shaped (loaded fs) = true → fits (loaded fs) = true →
  containers_reply E = Ok (PList cs) →
  Forall (λ c, inspectable c = true) cs →
  accepting E →
  let out := Agent.tick E (start fs) in
  ∃ roles items,
    classify (PList cs) = Ok roles ∧
    out.1 = Ok tt ∧
    trace out.2 =
      Listed true :: plan (λ _, true) E roles ++ [Wrote STATE_PATH (state out.2)] ∧
    Forall2 logs_agent (plan (λ _, true) E roles) items ∧
    list_at (state out.2) "actions" = last_n 200 (list_at (loaded fs) "actions" ++ items) ∧
    entry (state out.2) "alerts" = entry (loaded fs) "alerts".
Proof. apply agent_tick_runs. Qed.

(** The tick of 0.1.1 with a miner that is down: it is restarted. *)
Lemma X20_agent_tick_example :
  let out := Agent.tick miner_down (start no_files) in
  ∃ roles items,
    classify (PList [bch_node; miner]) = Ok roles ∧
    out.1 = Ok tt ∧
    trace out.2 =
      Listed true :: plan (λ _, true) miner_down roles ++ [Wrote STATE_PATH (state out.2)] ∧
    Forall2 logs_agent (plan (λ _, true) miner_down roles) items ∧
    list_at (state out.2) "actions" =
      last_n 200 (list_at (loaded no_files) "actions" ++ items) ∧
    entry (state out.2) "alerts" = entry (loaded no_files) "alerts".
Proof.
  apply (X20_agent_tick_restarts_what_is_down miner_down no_files [bch_node; miner]).
  - by vm_compute.
  - by vm_compute.
  - done.
  - by repeat constructor.
  - apply accepting_miner_down.
Defined.

(** X21.  Under the same conditions a tick of 0.1.2 does the same, except
    for the role miningcore when the failsafe applies to it: no restart
    request is sent for that role when its container is down, and one
    critical alert is appended to the loaded alerts instead; otherwise the
    alerts are as they were.  The failsafe holds back the role, not the
    container: one that [classify] gives to another role as well is still
    restarted for that role. *)
Theorem X21_image_tick_restarts_what_is_down (E : env) (fs : files) (cs : list py) :
  state_shaped (loaded fs) = true → fits (loaded fs) = true →
  containers_reply E = Ok (PList cs) →
  Forall (λ c, inspectable c = true) cs →
  accepting E →
  let out := Image.agent_tick E (start fs) in
  let a := loaded_allowlist fs in
  let guard := λ k, negb (failsafe E a k) in
  ∃ roles items warnings,
    classify (PList cs) = Ok roles ∧
    out.1 = Ok tt ∧
    trace out.2 = Listed true :: plan guard E roles ++ [Wrote STATE_PATH (state out.2)] ∧
    Forall2 logs_image (plan guard E roles) items ∧
    list_at (state out.2) "actions" = last_n 200 (list_at (loaded fs) "actions" ++ items) ∧
    list_at (state out.2) "alerts" = last_n 200 (list_at (loaded fs) "alerts" ++ warnings) ∧
    if ARMED_MODE E && failsafe E a "miningcore" && bool_decide (is_Some (due roles "miningcore"))
    then ∃ ts, warnings = [critical ts]
    else warnings = [].
Proof. apply image_tick_runs. Qed.

(** The tick of 0.1.2 with no allowlist and one container down that holds
    the roles dgb and miningcore: it is restarted for dgb, and the critical
    alert is appended for miningcore. *)
Lemma X21_image_tick_example :
  let out := Image.agent_tick pool_down (start no_files) in
  let a := loaded_allowlist no_files in
  let guard := λ k, negb (failsafe pool_down a k) in
  (∃ roles items warnings,
    classify (PList [node "p1" "/miningcore-dgb_1" "theretromike/miningcore" "exited"])
      = Ok roles ∧
    out.1 = Ok tt ∧
    trace out.2 =
      Listed true :: plan guard pool_down roles ++ [Wrote STATE_PATH (state out.2)] ∧
    Forall2 logs_image (plan guard pool_down roles) items ∧
    list_at (state out.2) "actions" =
      last_n 200 (list_at (loaded no_files) "actions" ++ items) ∧
    list_at (state out.2) "alerts" =
      last_n 200 (list_at (loaded no_files) "alerts" ++ warnings) ∧
    if ARMED_MODE pool_down && failsafe pool_down a "miningcore"
       && bool_decide (is_Some (due roles "miningcore"))
    then ∃ ts, warnings = [critical ts]
    else warnings = []) ∧
  trace out.2 =
    [Listed true; Restarted "dgb" (PStr "p1") true; Wrote STATE_PATH (state out.2)] ∧
  list_at (state out.2) "alerts" = [critical 1700000001].
Proof.
  split; [|by vm_compute].
  apply (X21_image_tick_restarts_what_is_down pool_down no_files
           [node "p1" "/miningcore-dgb_1" "theretromike/miningcore" "exited"]).
  - by vm_compute.
  - by vm_compute.
  - done.
  - by repeat constructor.
  - intros n id. exists 204, "". split; [done|by left].
Defined.

(** X22.  A container that [classify] gives to two roles is restarted twice:
    under the conditions of X20, when the agent is armed and the roles btc and
    bch are both owed the restart of the container [id], a tick of either
    version sends two restart requests for [id], one after the other. *)
Theorem X22_two_roles_two_restarts (E : env) (fs : files) (cs : list py)
    (roles : list (string * py)) (id : py) :
  state_shaped (loaded fs) = true → fits (loaded fs) = true →
  containers_reply E = Ok (PList cs) →
  Forall (λ c, inspectable c = true) cs →
  accepting E →
  ARMED_MODE E = true →
  classify (PList cs) = Ok roles →
  due roles "btc" = Some id → due roles "bch" = Some id →
  (∃ rest, trace (Agent.tick E (start fs)).2 =
           Listed true :: Restarted "btc" id true :: Restarted "bch" id true :: rest) ∧
  (∃ rest, trace (Image.agent_tick E (start fs)).2 =
           Listed true :: Restarted "btc" id true :: Restarted "bch" id true :: rest).
Proof.
  intros Hs Hfit Hlist Hi HE Harm Hr Hbtc Hbch. split.
  - destruct (agent_tick_runs E fs cs Hs Hfit Hlist Hi HE)
      as (roles' & items & Hr' & _ & Ht & _).
    rewrite Hr in Hr'. injection Hr' as <-. rewrite Ht. unfold plan, role_names.
    rewrite Harm, !restarts_due_cons, Hbtc, Hbch. eexists. reflexivity.
  - destruct (image_tick_runs E fs cs Hs Hfit Hlist Hi HE)
      as (roles' & items & warnings & Hr' & _ & Ht & _).
    rewrite Hr in Hr'. injection Hr' as <-. rewrite Ht. unfold plan, role_names.
    rewrite Harm, !restarts_due_cons, Hbtc, Hbch.
    rewrite !(failsafe_other E (loaded_allowlist fs)) by done. eexists. reflexivity.
Qed.

(** One Bitcoin Cash node that is down: it has the roles btc and bch. *)
Lemma X22_two_roles_example :
  classify (PList [node "c1" "/bitcoincash_1" "zquestz/bitcoin-cash-node" "dead"])
    = Ok cash_roles ∧
  (∃ rest, trace (Agent.tick cash_down (start no_files)).2 =
           Listed true :: Restarted "btc" (PStr "c1") true
             :: Restarted "bch" (PStr "c1") true :: rest) ∧
  (∃ rest, trace (Image.agent_tick cash_down (start no_files)).2 =
           Listed true :: Restarted "btc" (PStr "c1") true
             :: Restarted "bch" (PStr "c1") true :: rest).
Proof.
  assert (Hr : classify (PList [node "c1" "/bitcoincash_1" "zquestz/bitcoin-cash-node" "dead"])
               = Ok cash_roles) by (by vm_compute).
  split; [exact Hr|].
  apply (X22_two_roles_two_restarts cash_down no_files
           [node "c1" "/bitcoincash_1" "zquestz/bitcoin-cash-node" "dead"]
           cash_roles (PStr "c1")).
  - by vm_compute.
  - by vm_compute.
  - done.
  - by repeat constructor.
  - apply accepting_cash_down.
  - done.
  - exact Hr.
  - by vm_compute.
  - by vm_compute.
Defined.

(** ** The loop *)

Lemma rounds_keep_running tick : runs_clean tick → keeps_running (rounds tick).
Proof.
  intros Htick worlds. induction worlds as [|E rest IH]; intros fs Hs h; subst h.
  - simpl. by repeat split.
  - cbn [rounds]. destruct (Htick E fs Hs) as (Hok & Hfile & Hal & Hs' & Hf' & Hj).
    rewrite Hok. cbn [ended files_left ticks].
    assert (Hl : loaded (disk (tick E (start fs)).2) = state (tick E (start fs)).2).
    { unfold loaded. by rewrite Hfile. }
    destruct (IH (disk (tick E (start fs)).2)) as (He & Ha & Hs'' & Hf'' & Hj'').
    { by rewrite Hl. }
    split; [done|]. split; [congruence|]. split; [done|].
    split. { intros Hf. apply Hf''. rewrite Hl. by apply Hf'. }
    by constructor.
Qed.

(** X23.  From a state file that is missing, unreadable or state-shaped, the
    loop of either version never ends: whatever the worlds of its rounds
    are, every round runs, the state file stays state-shaped, its logs stay
    within 200 entries when they were, and every restart request of a round is
    one that the policy allows in the world of that round. *)
Theorem X23_loop_keeps_running (worlds : list env) (fs : files) :
  state_shaped (loaded fs) = true →
  (let h := loop worlds fs in
   ended h = None ∧ length (ticks h) = length worlds ∧
   state_shaped (loaded (files_left h)) = true ∧
   (fits (loaded fs) = true → fits (loaded (files_left h)) = true) ∧
   Forall2 (λ E tr, Forall (restart_justified E) tr) worlds (ticks h)) ∧
  (let h := loop_task worlds fs in
   ended h = None ∧ length (ticks h) = length worlds ∧
   state_shaped (loaded (files_left h)) = true ∧
   (fits (loaded fs) = true → fits (loaded (files_left h)) = true) ∧
   Forall2 (λ E tr, Forall (restart_justified E) tr) worlds (ticks h)).
Proof.
  intros Hs. destruct ticks_run_clean as [H1 H2].
  destruct (rounds_keep_running _ H1 worlds fs Hs) as (? & _ & ? & ? & Hj1).
  destruct (rounds_keep_running _ H2 worlds fs Hs) as (? & _ & ? & ? & Hj2).
  split; (split; [done|]); (split; [|done]).
  - symmetry. by eapply Forall2_length.
  - symmetry. by eapply Forall2_length.
Qed.

(** Three rounds from no file: the proxy down, restarts refused, a miner down. *)
Lemma X23_loop_keeps_running_example :
  state_shaped (loaded no_files) = true ∧
  (let h := loop [proxy_down; restarts_refused; miner_down] no_files in
   ended h = None ∧ length (ticks h) = 3%nat ∧
   state_shaped (loaded (files_left h)) = true ∧
   (fits (loaded no_files) = true → fits (loaded (files_left h)) = true) ∧
   Forall2 (λ E tr, Forall (restart_justified E) tr)
     [proxy_down; restarts_refused; miner_down] (ticks h)) ∧
  (let h := loop_task [proxy_down; restarts_refused; miner_down] no_files in
   ended h = None ∧ length (ticks h) = 3%nat ∧
   state_shaped (loaded (files_left h)) = true ∧
   (fits (loaded no_files) = true → fits (loaded (files_left h)) = true) ∧
   Forall2 (λ E tr, Forall (restart_justified E) tr)
     [proxy_down; restarts_refused; miner_down] (ticks h)).
Proof.
  split; [by vm_compute|].
  apply (X23_loop_keeps_running [proxy_down; restarts_refused; miner_down] no_files).
  by vm_compute.
Defined.

(** ** A listing that cannot be summarised *)

Lemma bind_lift_Raise {A B} (e : exn) (k : A → M B) E σ :
  bind (lift (Raise e)) k E σ = (Raise e, σ).
Proof. reflexivity. Qed.

Lemma suite_no_snapshot (loop : list (string * py) → M unit) E σ containers e :
  containers_reply E = Ok containers → snapshot containers = Raise e →
  suite loop E σ = (Raise e, log (Listed true) σ).
Proof.
  intros Hlist Hsnap. unfold suite.
  rewrite (bind_Ok _ _ _ _ containers (log (Listed true) σ))
    by (unfold list_request; by rewrite Hlist).
  by rewrite Hsnap, bind_lift_Raise.
Qed.

Lemma only_reports_protected item (loop : list (string * py) → M unit) handler
    (tick : M unit) E fs containers e :
  handler_appends item handler →
  tick E (start fs) = protected (suite loop) handler E (with_state (loaded fs) (start fs)) →
  containers_reply E = Ok containers → snapshot containers = Raise e →
  appendable_at "alerts" (loaded fs) = true →
  only_reports item tick E fs e.
Proof.
  intros Hh Htick Hlist Hsnap Happ. unfold only_reports. rewrite Htick.
  unfold protected, bind, try_catch.
  rewrite (suite_no_snapshot loop E _ containers e Hlist Hsnap).
  destruct (Hh e E (log (Caught e) (log (Listed true) (with_state (loaded fs) (start fs)))))
    as [c Hrun]. rewrite Hrun. clear Hrun. unfold start. store_simpl.
  destruct (appended_Ok "alerts" (item (time_at E 0) e) (loaded fs) Happ) as [s' Hs'].
  rewrite Hs'. apply appended_outside in Hs' as ([_ Ho] & _ & Hen).
  cbn [fst snd write_state state trace]. split; [done|]. split; [done|].
  split; [by rewrite Hen|]. intros k Hk. apply Ho. set_solver.
Qed.

(** X24.  When the proxy answers the listing with something whose summary
    cannot be built (the comprehension over the containers raises [e], as
    for an item that is not an object), a tick of either version, from a
    loaded state that is a dict whose "alerts" is missing or a list, sends
    no restart request and returns: it catches [e] right after the listing,
    appends the error alert of [e] to the alerts, cut to the last 200,
    leaves every other key of the loaded state as it was, the intel and
    [last_run] included, and writes the state. *)
Theorem X24_malformed_listing_is_only_reported (E : env) (fs : files)
    (containers : py) (e : exn) :
  containers_reply E = Ok containers → snapshot containers = Raise e →
  appendable_at "alerts" (loaded fs) = true →
  only_reports error_alert_agent Agent.tick E fs e ∧
  only_reports error_alert_image Image.agent_tick E fs e.
Proof.
  intros Hlist Hsnap Happ. split.
  - eapply (only_reports_protected _ _ Agent.handler);
      [apply handler_agent_appends| |done..].
    rewrite tick_agent_start. by rewrite try_suite_agent.
  - eapply (only_reports_protected _ _ Image.handler);
      [apply handler_image_appends| |done..].
    rewrite tick_image_start. by rewrite try_suite_image.
Qed.

(** A [null] after a Bitcoin node that is down: the node is not restarted. *)
Lemma X24_malformed_listing_example :
  snapshot (PList [btc_node; PNone])
    = Raise (AttributeError "'NoneType' object has no attribute 'get'") ∧
  only_reports error_alert_agent Agent.tick null_in_listing no_files
    (AttributeError "'NoneType' object has no attribute 'get'") ∧
  only_reports error_alert_image Image.agent_tick null_in_listing no_files
    (AttributeError "'NoneType' object has no attribute 'get'").
Proof.
  assert (H : snapshot (PList [btc_node; PNone])
              = Raise (AttributeError "'NoneType' object has no attribute 'get'"))
    by (by vm_compute).
  split; [exact H|].
  apply (X24_malformed_listing_is_only_reported null_in_listing no_files
           (PList [btc_node; PNone])); [done|exact H|by vm_compute].
Defined.

(** ** From a posted allowlist to the next tick *)

Lemma post_allowlist_image_runs payload a E fs :
  model_validate payload = Ok a → state_shaped (loaded fs) = true →
  ∃ s', appended "actions" (allowlist_set (time_at E 0) a) (loaded fs) = Ok s' ∧
    Image.api_set_allowlist payload E (start fs) =
      (Ok (dict_of [("ok", PBool true)]),
       {| disk := {| allowlist_file := Holds (model_dump a); state_file := Holds s' |};
          state := s';
          trace := [Wrote ALLOWLIST_PATH (model_dump a); Wrote STATE_PATH s'];
          clock := 1 |}).
Proof.
  intros Hv Hs.
  destruct (appended_Ok "actions" (allowlist_set (time_at E 0) a) (loaded fs)) as [s' Hs'].
  { by apply state_shaped_appendable_at; [left|]. }
  exists s'. split; [done|].
  unfold Image.api_set_allowlist, bind, lift. rewrite Hv.
  unfold write_allowlist, read_state, start. store_simpl.
  cbn [save_allowlist state_file]. fold (state_file fs). rewrite load_state_loaded. store_simpl.
  rewrite action_log_eq. unfold start. store_simpl. fold (allowlist_set (time_at E 0) a).
  by rewrite Hs'.
Qed.

Lemma restarts_due_member guard roles ks k id :
  k ∈ ks → due roles k = Some id → guard k = true →
  Restarted k id true ∈ restarts_due guard roles ks.
Proof.
  intros Hin Hdue Hg. unfold restarts_due. apply list_elem_of_omap.
  exists k. split; [done|]. by rewrite Hg, Hdue.
Qed.

(** X25.  Posting an allowlist with an address lifts the failsafe of 0.1.2.
    From a state file that is missing, unreadable or state-shaped with logs
    of at most 200 entries, after a POST /api/allowlist whose payload
    validates to an allowlist with at least one address, the next tick,
    armed, over a listing of containers as the Docker API lists them and a
    proxy that accepts every restart, returns, sends the restart request
    for the MiningCore container when that one is down, whatever
    FAILSAFE_STOP_MINING is, and adds no alert to the ones of the state
    before the POST. *)
Theorem X25_allowlist_lifts_the_failsafe (E E' : env) (fs : files) (payload : py)
    (a : Allowlist) (cs : list py) (roles : list (string * py)) (id : py) :
  model_validate payload = Ok a → has_allowlist a = true →
  state_shaped (loaded fs) = true → fits (loaded fs) = true →
  containers_reply E = Ok (PList cs) →
  Forall (λ c, inspectable c = true) cs →
  accepting E → ARMED_MODE E = true →
  classify (PList cs) = Ok roles →
  due roles "miningcore" = Some id →
  let posted := disk (Image.api_set_allowlist payload E' (start fs)).2 in
  let out := Image.agent_tick E (start posted) in
  out.1 = Ok tt ∧
  Restarted "miningcore" id true ∈ trace out.2 ∧
  list_at (state out.2) "alerts" = list_at (loaded fs) "alerts".
Proof.
  intros Hv Hhas Hs Hfit Hlist Hi HE Harm Hr Hdue posted out.
  destruct (post_allowlist_image_runs payload a E' fs Hv Hs) as (s' & Hs' & Hpost).
  assert (Hposted : posted = {| allowlist_file := Holds (model_dump a);
                                state_file := Holds s' |}).
  { subst posted. by rewrite Hpost. }
  assert (Hl : loaded posted = s') by (by rewrite Hposted).
  assert (Ha : loaded_allowlist posted = a).
  { unfold loaded_allowlist. rewrite Hposted. cbn [allowlist_file].
    pose proof (load_save_allowlist a fs) as L. cbn [save_allowlist allowlist_file] in L.
    by rewrite L. }
  assert (Hs2 : state_shaped (loaded posted) = true).
  { rewrite Hl.
    exact (proj1 (proj2 state_shaped_kept) "actions" _ _ _ (or_introl eq_refl) Hs' Hs). }
  assert (Hfit2 : fits (loaded posted) = true).
  { rewrite Hl.
    exact (proj1 (proj2 fits_kept) "actions" _ _ _ (or_introl eq_refl) Hs' Hfit). }
  destruct (image_tick_runs E posted cs Hs2 Hfit2 Hlist Hi HE)
    as (roles' & items & warnings & Hr' & Hok & Ht & _ & _ & Hal & Hw).
  rewrite Hr in Hr'. injection Hr' as <-. rewrite Ha in Ht, Hw.
  assert (Hoff : failsafe E a "miningcore" = false).
  { unfold failsafe. rewrite Hhas. by rewrite andb_false_r. }
  subst out. split; [done|]. split.
  - rewrite Ht. apply list_elem_of_further, elem_of_app. left.
    unfold plan. rewrite Harm. apply restarts_due_member; [|done|by rewrite Hoff].
    unfold role_names. set_solver.
  - rewrite Hal. rewrite Hoff, andb_false_r in Hw. cbn [andb] in Hw. subst warnings.
    rewrite app_nil_r, Hl.
    apply appended_list_at in Hs' as (_ & _ & Ho).
    unfold list_at at 1. rewrite Ho by done. fold (list_at (loaded fs) "alerts").
    apply last_n_short. apply andb_prop in Hfit as [_ Hshort]. by apply short_length.
Qed.

(** One btc address posted, then a tick with MiningCore down. *)
Lemma X25_allowlist_lifts_the_failsafe_example :
  let posted := disk (Image.api_set_allowlist payload_one idle (start no_files)).2 in
  let out := Image.agent_tick miner_down (start posted) in
  out.1 = Ok tt ∧
  Restarted "miningcore" (PStr "m1") true ∈ trace out.2 ∧
  list_at (state out.2) "alerts" = list_at (loaded no_files) "alerts".
Proof.
  apply (X25_allowlist_lifts_the_failsafe miner_down idle no_files payload_one
           allowlist_one [bch_node; miner] miner_roles (PStr "m1")).
  - by vm_compute.
  - by vm_compute.
  - by vm_compute.
  - by vm_compute.
  - done.
  - by repeat constructor.
  - apply accepting_miner_down.
  - done.
  - by vm_compute.
  - by vm_compute.
Defined.
